(** * Storage and migration engine of Claudian: a shallow embedding

    The development follows [src/core/storage/StorageService.ts],
    [ClaudianSettingsStorage.ts] and [migrationConstants.ts].

    - JSON values are an inductive type; a JavaScript object is an
      association list in insertion order (the order [Object.entries] and
      [JSON.stringify] observe for ordinary string keys).
    - The vault is a finite map from paths to file contents; the legacy
      [data.json] blob is the value the host returns from [loadData].
    - Asynchronous methods become functions in a state-and-exception monad
      that also records every file operation in a log.
    - A string is its UTF-8 text, and the white space of [trim] is the
      table of the characters WhiteSpace and LineTerminator of the language;
      [WhiteSpaceOnly] and [Trimmed] say on texts what [trim] computes.

    The second part follows the rest of these files and their callers:
    [src/core/security/ApprovalManager.ts], the settings storage and the
    tab state of [StorageService.ts], [src/utils/env.ts] and the plugin
    class of [src/main.ts]. *)

From Stdlib Require Import Ascii String ZArith DecimalString.
From stdpp Require Import base option list gmap strings.

Open Scope string_scope.
#[local] Set Warnings "-register-all".


(* ===================================================================== *)
(** ** JavaScript strings *)
(* ===================================================================== *)

Module Js.

(** The line feed, the separator of [split('\n')] and [join('\n')]. *)
Definition LF : ascii := ascii_of_nat 10.

(** Strings are held as UTF-8 text, the way the literals of this file are
    read: a character of JavaScript from U+0080 on takes two to four bytes.
    [bytes l] is the string of the bytes [l]. *)
Definition bytes (l : list nat) : string := string_of_list_ascii (ascii_of_nat <$> l).

(** The white space that [String.prototype.trim] removes: the characters
    WhiteSpace and LineTerminator of the language, each in UTF-8. *)
Definition WHITE_SPACE : list string :=
  [ bytes [9];                (* U+0009 TAB *)
    bytes [10];               (* U+000A LF *)
    bytes [11];               (* U+000B VT *)
    bytes [12];               (* U+000C FF *)
    bytes [13];               (* U+000D CR *)
    bytes [32];               (* U+0020 SPACE *)
    bytes [194; 160];         (* U+00A0 NO-BREAK SPACE *)
    bytes [225; 154; 128];    (* U+1680 OGHAM SPACE MARK *)
    bytes [226; 128; 128];    (* U+2000 EN QUAD *)
    bytes [226; 128; 129];    (* U+2001 EM QUAD *)
    bytes [226; 128; 130];    (* U+2002 EN SPACE *)
    bytes [226; 128; 131];    (* U+2003 EM SPACE *)
    bytes [226; 128; 132];    (* U+2004 THREE-PER-EM SPACE *)
    bytes [226; 128; 133];    (* U+2005 FOUR-PER-EM SPACE *)
    bytes [226; 128; 134];    (* U+2006 SIX-PER-EM SPACE *)
    bytes [226; 128; 135];    (* U+2007 FIGURE SPACE *)
    bytes [226; 128; 136];    (* U+2008 PUNCTUATION SPACE *)
    bytes [226; 128; 137];    (* U+2009 THIN SPACE *)
    bytes [226; 128; 138];    (* U+200A HAIR SPACE *)
    bytes [226; 128; 168];    (* U+2028 LINE SEPARATOR *)
    bytes [226; 128; 169];    (* U+2029 PARAGRAPH SEPARATOR *)
    bytes [226; 128; 175];    (* U+202F NARROW NO-BREAK SPACE *)
    bytes [226; 129; 159];    (* U+205F MEDIUM MATHEMATICAL SPACE *)
    bytes [227; 128; 128];    (* U+3000 IDEOGRAPHIC SPACE *)
    bytes [239; 187; 191] ].  (* U+FEFF ZERO WIDTH NO-BREAK SPACE *)

Definition isEmpty (s : string) : bool :=
  match s with EmptyString => true | String _ _ => false end.

(** The rest of [s] behind the prefix [p], if [s] starts with [p]. *)
Fixpoint stripPrefix (p s : string) {struct p} : option string :=
  match p with
  | EmptyString => Some s
  | String a p' =>
      match s with
      | String b s' => if bool_decide (a = b) then stripPrefix p' s' else None
      | EmptyString => None
      end
  end.

(** The rest of [s] behind the first of the strings [ws] it starts with. *)
Fixpoint stripFirst (ws : list string) (s : string) : option string :=
  match ws with
  | [] => None
  | w :: ws' =>
      match stripPrefix w s with
      | Some r => Some r
      | None => stripFirst ws' s
      end
  end.

(** The rest of [s] behind one character of white space at its start. *)
Definition stripWhiteSpace (s : string) : option string := stripFirst WHITE_SPACE s.

(** [s.trimStart()]: white space is taken from the start as long as there
    is some; [n] bounds the number of characters taken. *)
Fixpoint trimStartWithin (n : nat) (s : string) : string :=
  match n with
  | 0 => s
  | S n' =>
      match stripWhiteSpace s with
      | Some r => trimStartWithin n' r
      | None => s
      end
  end.

Definition trimStart (s : string) : string := trimStartWithin (String.length s) s.

(** [s.trimEnd()]: the string is cut where what follows is white space
    only. *)
Fixpoint trimEnd (s : string) : string :=
  match s with
  | EmptyString => EmptyString
  | String c r => if isEmpty (trimStart s) then EmptyString else String c (trimEnd r)
  end.

(** [s.trim()] *)
Definition trim (s : string) : string := trimEnd (trimStart s).

(** [s.startsWith(c)] for a one-character prefix. *)
Definition startsWithChar (c : ascii) (s : string) : bool :=
  match s with
  | String d _ => bool_decide (c = d)
  | EmptyString => false
  end.

(** [s.indexOf(c)]: [None] stands for the result -1. *)
Fixpoint indexOf (c : ascii) (s : string) : option nat :=
  match s with
  | EmptyString => None
  | String d r =>
      if bool_decide (c = d) then Some 0
      else match indexOf c r with Some i => Some (S i) | None => None end
  end.

(** [s.slice(0, i)] and [s.slice(i)] for indices within the string. *)
Definition sliceTo (i : nat) (s : string) : string := substring 0 i s.
Definition sliceFrom (i : nat) (s : string) : string :=
  substring i (String.length s - i) s.

(** [s.split('\n')]: never empty, the empty string gives one empty line. *)
Fixpoint splitLines (s : string) : list string :=
  match s with
  | EmptyString => [EmptyString]
  | String c r =>
      if bool_decide (c = LF) then EmptyString :: splitLines r
      else match splitLines r with
           | h :: t => String c h :: t
           | [] => [String c EmptyString]
           end
  end.

(** [lines.join('\n')] *)
Fixpoint joinLines (l : list string) : string :=
  match l with
  | [] => EmptyString
  | [x] => x
  | x :: t => x ++ String LF (joinLines t)
  end.

(** Array index as a property name: [0], [1], ... in decimal. *)
Definition indexKey (n : nat) : string := NilZero.string_of_uint (Nat.to_uint n).

(** The name of the accessor that [Object.prototype] gives every object
    literal.  An assignment [result[key] = value] with this name calls the
    accessor, which drops a value that is a string: the object gets no
    property of its own. *)
Definition PROTO : string := "__proto__".

End Js.

(* ===================================================================== *)
(** ** Objects as insertion-ordered association lists *)
(* ===================================================================== *)

Module Obj.
Section Assoc.
Context {V : Type}.

(** [o[k]]: [None] is [undefined]. *)
Fixpoint get (k : string) (o : list (string * V)) : option V :=
  match o with
  | [] => None
  | (k', v) :: r => if bool_decide (k = k') then Some v else get k r
  end.

(** [o[k] = v] (and [Map.prototype.set]): an existing key keeps its
    position, a new key goes last. *)
Fixpoint set (k : string) (v : V) (o : list (string * V)) : list (string * V) :=
  match o with
  | [] => [(k, v)]
  | (k', v') :: r =>
      if bool_decide (k = k') then (k', v) :: r else (k', v') :: set k v r
  end.

(** [delete o[k]] *)
Definition del (k : string) (o : list (string * V)) : list (string * V) :=
  filter (fun kv => kv.1 ≠ k) o.

(** [{ ...a, ...b }] *)
Definition spread (a b : list (string * V)) : list (string * V) :=
  fold_left (fun acc kv => set kv.1 kv.2 acc) b a.

Definition keys (o : list (string * V)) : list string := o.*1.
End Assoc.
End Obj.

(* ===================================================================== *)
(** ** JSON values *)
(* ===================================================================== *)

Inductive JValue : Type :=
  | JNull
  | JBool (b : bool)
  | JNum (n : Z)
  | JStr (s : string)
  | JArr (items : list JValue)
  | JObj (fields : list (string * JValue)).

Abbreviation JObject := (list (string * JValue)).

(** JavaScript truthiness of a defined value. *)
Definition truthy (v : JValue) : bool :=
  match v with
  | JNull => false
  | JBool b => b
  | JNum n => negb (n =? 0)%Z
  | JStr s => negb (Js.isEmpty s)
  | JArr _ | JObj _ => true
  end.

(** [!x] where [x] may be [undefined]. *)
Definition falsy (x : option JValue) : bool :=
  match x with Some v => negb (truthy v) | None => true end.

(** [v.k] on a non-null value for a key that is no built-in property:
    only plain objects carry it. *)
Definition prop (k : string) (v : JValue) : option JValue :=
  match v with JObj o => Obj.get k o | _ => None end.

(** [a ?? b] *)
Definition nullish (a b : option JValue) : option JValue :=
  match a with
  | None | Some JNull => b
  | Some _ => a
  end.

Fixpoint indexed (i : nat) (l : list JValue) : JObject :=
  match l with
  | [] => []
  | x :: r => (Js.indexKey i, x) :: indexed (S i) r
  end.

(** The own enumerable properties of a value, as [Object.entries(v)] and
    [{ ...v }] see them: the fields of an object, the indexed items of an
    array, the indexed characters of a string, nothing for the rest. *)
Definition ownEntries (v : JValue) : JObject :=
  match v with
  | JObj o => o
  | JArr l => indexed 0 l
  | JStr s => indexed 0 ((fun c => JStr (String c EmptyString)) <$> list_ascii_of_string s)
  | _ => []
  end.

Definition asString (v : JValue) : option string :=
  match v with JStr s => Some s | _ => None end.

(** The string entries of an array, [filter(item => typeof item === 'string')]. *)
Definition stringItems (l : list JValue) : list string := omap asString l.

Definition jstrings (l : list string) : JValue := JArr (JStr <$> l).

(** An object literal in which a property whose value is [undefined] is
    left out, as [JSON.stringify] does. *)
Definition literal (l : list (string * option JValue)) : JObject :=
  omap (fun kv => match kv.2 with Some v => Some (kv.1, v) | None => None end) l.

(* ===================================================================== *)
(** ** ClaudianSettingsStorage: normalisation of the blocked commands *)
(* ===================================================================== *)

Record PlatformBlockedCommands := {
  unix : list string;
  windows : list string;
}.

(** [normalizeCommandList(value, fallback)] *)
Definition normalizeCommandList (value : option JValue) (fallback : list string)
  : list string :=
  match value with
  | Some (JArr l) =>
      filter (fun item => Js.isEmpty item = false) (Js.trim <$> stringItems l)
  | _ => fallback
  end.

(** [normalizeBlockedCommands(value)]; [defaults] is the result of
    [getDefaultBlockedCommands()], whose table is not part of the sources. *)
Definition normalizeBlockedCommands (defaults : PlatformBlockedCommands)
    (value : option JValue) : PlatformBlockedCommands :=
  match value with
  | Some (JArr _) =>
      {| unix := normalizeCommandList value (unix defaults);
         windows := windows defaults |}
  | Some (JObj candidate) =>
      {| unix := normalizeCommandList (Obj.get "unix" candidate) (unix defaults);
         windows := normalizeCommandList (Obj.get "windows" candidate) (windows defaults) |}
  | _ => defaults
  end.

Definition blockedCommandsJson (b : PlatformBlockedCommands) : JValue :=
  JObj [("unix", jstrings (unix b)); ("windows", jstrings (windows b))].

(** One round of the loop of [normalizeHostnameCliPaths]: an entry whose
    value is a string that is not blank is assigned, [result[key] =
    val.trim()], and the assignment stores nothing under [__proto__]. *)
Definition hostnameCliPath (kv : string * JValue) : option (string * JValue) :=
  match kv.2 with
  | JStr s => if Js.isEmpty (Js.trim s) || bool_decide (kv.1 = Js.PROTO) then None
              else Some (kv.1, JStr (Js.trim s))
  | _ => None
  end.

(** [normalizeHostnameCliPaths(value)] *)
Definition normalizeHostnameCliPaths (value : option JValue) : JObject :=
  match value with
  | Some (JObj _ as v) | Some (JArr _ as v) => omap hostnameCliPath (ownEntries v)
  | _ => []
  end.

(* ===================================================================== *)
(** ** migrationConstants *)
(* ===================================================================== *)

Definition CLAUDIAN_ONLY_FIELDS : list string :=
  [ "userName";
    "enableBlocklist"; "blockedCommands"; "permissionMode"; "lastNonPlanPermissionMode";
    "model"; "thinkingBudget"; "enableAutoTitleGeneration"; "titleGenerationModel";
    "excludedTags"; "mediaFolder"; "systemPrompt"; "allowedExportPaths";
    "persistentExternalContextPaths";
    "environmentVariables"; "envSnippets";
    "keyboardNavigation";
    "claudeCliPath"; "claudeCliPaths"; "loadUserClaudeSettings";
    "allowedContextPaths"; "showToolUse"; "toolCallExpandedByDefault" ].

Definition envLine (kv : string * string) : string := kv.1 ++ "=" ++ kv.2.

(** The entries of [env] whose value is a string,
    [Object.entries(env).filter(([key, value]) => typeof value === 'string')]. *)
Definition stringEntries (env : JValue) : list (string * string) :=
  omap (fun kv => match kv.2 with
                  | JStr s => Some (kv.1, s)
                  | _ => None
                  end) (ownEntries env).

(** [convertEnvObjectToString(env)] *)
Definition convertEnvObjectToString (env : option JValue) : string :=
  match env with
  | Some (JObj _ as e) | Some (JArr _ as e) => Js.joinLines (envLine <$> stringEntries e)
  | _ => ""
  end.

(** One round of the loop body of [mergeEnvironmentVariables]: the line is
    trimmed, blank lines and comments are skipped, and a line with [=] past
    its first character sets the key. *)
Definition parseEnvLine (line : string) : option (string * string) :=
  let trimmed := Js.trim line in
  if Js.isEmpty trimmed || Js.startsWithChar "#" trimmed then None
  else match Js.indexOf "=" trimmed with
       | Some (S i) => Some (Js.sliceTo (S i) trimmed, Js.sliceFrom (S (S i)) trimmed)
       | _ => None
       end.

Definition setEnvLine (envMap : list (string * string)) (line : string)
  : list (string * string) :=
  match parseEnvLine line with
  | Some (key, value) => Obj.set key value envMap
  | None => envMap
  end.

(** The [Map] built by the two loops of [mergeEnvironmentVariables]. *)
Definition mergedEnvMap (existing additional : string) : list (string * string) :=
  fold_left setEnvLine (Js.splitLines additional)
    (fold_left setEnvLine (Js.splitLines existing) []).

(** [mergeEnvironmentVariables(existing, additional)] *)
Definition mergeEnvironmentVariables (existing additional : string) : string :=
  Js.joinLines (envLine <$> mergedEnvMap existing additional).

(* ===================================================================== *)
(** ** Permission rules *)
(* ===================================================================== *)

Record LegacyPermission := {
  toolName : string;
  pattern : string;
  approvedAt : Z;
  scope : string;
}.

Record CCPermissions := {
  allow : list string;
  deny : list string;
  ask : list string;
}.

(** The rule string in the words of the specification: the bare tool name
    for an empty pattern or the wildcard, and [ToolName(pattern)]
    otherwise. *)
Definition ruleAsSpecified (legacy : LegacyPermission) : string :=
  if Js.isEmpty (pattern legacy) || bool_decide (pattern legacy = "*")
  then toolName legacy
  else toolName legacy ++ "(" ++ pattern legacy ++ ")".

(** Modelled from the spec: [legacyPermissionToCCRule] is declared in
    [core/types/settings.ts], which is not part of the sources.  It is the
    rule of the specification, but for the patterns that the function takes
    for a serialised object of the legacy format, which give the bare tool
    name: the unit tests of the repository ('should return just tool name
    for JSON object pattern (legacy format)') show one such pattern.  Which
    patterns these are is decided in the missing file; [legacyObjectPattern]
    stands for that test, and the constantly false one gives the words of
    the specification. *)
Definition legacyPermissionToCCRule (legacyObjectPattern : string -> bool)
    (legacy : LegacyPermission) : string :=
  if legacyObjectPattern (pattern legacy) then toolName legacy
  else ruleAsSpecified legacy.

(** [if (!allow.includes(rule)) allow.push(rule)] *)
Definition pushUnique (acc : list string) (rule : string) : list string :=
  if bool_decide (rule ∈ acc) then acc else acc ++ [rule].

(** Modelled from the spec: [legacyPermissionsToCCPermissions] is not part
    of the sources.  Only records with scope [always] are kept, the rule
    strings are de-duplicated, and every rule goes to the allow list. *)
Definition legacyPermissionsToCCPermissions (legacyObjectPattern : string -> bool)
    (legacy : list LegacyPermission) : CCPermissions :=
  {| allow := fold_left pushUnique
                (legacyPermissionToCCRule legacyObjectPattern <$>
                   filter (fun p => scope p = "always") legacy) [];
     deny := [];
     ask := [] |}.

Definition permissionJson (p : LegacyPermission) : JValue :=
  JObj [("toolName", JStr (toolName p)); ("pattern", JStr (pattern p));
        ("approvedAt", JNum (approvedAt p)); ("scope", JStr (scope p))].

(** The reading of one array element at the declared type [LegacyPermission]. *)
Definition asLegacyPermission (v : JValue) : option LegacyPermission :=
  match prop "toolName" v, prop "pattern" v, prop "approvedAt" v, prop "scope" v with
  | Some (JStr t), Some (JStr p), Some (JNum a), Some (JStr sc) =>
      Some {| toolName := t; pattern := p; approvedAt := a; scope := sc |}
  | _, _, _, _ => None
  end.

Definition ccPermissionsJson (p : CCPermissions) : JObject :=
  [("allow", jstrings (allow p)); ("deny", jstrings (deny p)); ("ask", jstrings (ask p))].

(* ===================================================================== *)
(** ** The vault, the host and the monad of storage operations *)
(* ===================================================================== *)

(** The text of a file.  [Json v] is the text [JSON.stringify(v, null, 2)],
    which [JSON.parse] reads back as [v]; [Text s] is any text that
    [JSON.parse] rejects (a command in Markdown, a transcript in JSON lines,
    a damaged file). *)
Inductive Content : Type :=
  | Json (v : JValue)
  | Text (s : string).

Inductive Error : Type :=
  | SyntaxError                  (* JSON.parse *)
  | TypeError                    (* a property of null, a method of a non-string *)
  | IllTyped                     (* a value outside the declared TypeScript type *)
  | MissingFile (path : string)  (* adapter.read *)
  | WriteFailed (path : string)  (* adapter.write *)
  | VerificationFailed.          (* 'Failed to verify claudian-settings.json ...' *)

Inductive WriteOutcome : Type := Stored | Lost | Failed.

Inductive Event : Type :=
  | EvExists (path : string)
  | EvRead (path : string)
  | EvWrite (path : string) (c : Content) (o : WriteOutcome)
  | EvSaveData (v : JValue).

Record Vault := {
  files : gmap string Content;
  folders : gset string;
  (** what [plugin.loadData()] resolves to; [None] when it resolves to
      [null] or rejects *)
  data : option JValue;
  log : list Event;
}.

Definition record (e : Event) (s : Vault) : Vault :=
  {| files := files s; folders := folders s; data := data s; log := log s ++ [e] |}.

Definition withFiles (f : gmap string Content) (s : Vault) : Vault :=
  {| files := f; folders := folders s; data := data s; log := log s |}.

Definition withFolders (d : gset string) (s : Vault) : Vault :=
  {| files := files s; folders := d; data := data s; log := log s |}.

Definition withData (v : option JValue) (s : Vault) : Vault :=
  {| files := files s; folders := folders s; data := v; log := log s |}.

Inductive Outcome (A : Type) : Type :=
  | Ok (a : A) (s : Vault)
  | Throw (e : Error) (s : Vault).
Arguments Ok {A} a s.
Arguments Throw {A} e s.

Definition M (A : Type) : Type := Vault -> Outcome A.

Definition ret {A} (a : A) : M A := fun s => Ok a s.
Definition throw {A} (e : Error) : M A := fun s => Throw e s.
Definition bind {A B} (m : M A) (k : A -> M B) : M B :=
  fun s => match m s with
           | Ok a s' => k a s'
           | Throw e s' => Throw e s'
           end.

Notation "x <- m ;; k" := (bind m (fun x => k))
  (at level 100, m at next level, right associativity).
Notation "m ;;; k" := (bind m (fun _ => k))
  (at level 100, right associativity).

(** [try { body } catch { handler }] *)
Definition tryCatch {A} (body : M A) (handler : M A) : M A :=
  fun s => match body s with
           | Ok a s' => Ok a s'
           | Throw _ s' => handler s'
           end.

Definition when (b : bool) (m : M unit) : M unit := if b then m else ret tt.

Fixpoint foldM {A B} (f : B -> A -> M B) (l : list A) (b : B) : M B :=
  match l with
  | [] => ret b
  | x :: r => b' <- f b x ;; foldM f r b'
  end.

Definition stateOf {A} (o : Outcome A) : Vault :=
  match o with Ok _ s => s | Throw _ s => s end.

Definition valueOf {A} (o : Outcome A) : option A :=
  match o with Ok a _ => Some a | Throw _ _ => None end.

Definition isWrite (e : Event) : bool :=
  match e with EvWrite _ _ _ | EvSaveData _ => true | _ => false end.

(** The writes of a log: attempted file writes and saves of the blob. *)
Definition writes (l : list Event) : list Event := filter (fun e => isWrite e = true) l.

Definition storedOrRead (e : Event) : bool :=
  match e with EvWrite _ _ Lost | EvWrite _ _ Failed => false | _ => true end.

(** What the code takes from modules that are not part of the sources, and
    how the file system behaves. *)
Record Config := {
  (** [DEFAULT_SETTINGS] of [core/types/settings.ts] *)
  DEFAULT_SETTINGS : JObject;
  (** the result of [getDefaultBlockedCommands()] *)
  defaultBlockedCommands : PlatformBlockedCommands;
  DEFAULT_CC_PERMISSIONS : JObject;
  (** the slug [SlashCommandStorage.getFilePath] derives from a command *)
  commandSlug : JValue -> string;
  (** the file name [SessionStorage.getFilePath] derives from an id *)
  sessionName : option JValue -> string;
  (** the serialisations of a command and of a conversation *)
  commandText : JValue -> string;
  sessionText : JValue -> string;
  (** [CCSettingsStorage.load], a function of the file it reads *)
  ccLoad : option Content -> Error + JValue;
  (** the patterns [legacyPermissionToCCRule] takes for a serialised object
      of the legacy format *)
  legacyObjectPattern : string -> bool;
  (** paths at which [adapter.write] throws *)
  failWrite : string -> bool;
  (** paths at which [adapter.write] returns without having stored anything *)
  loseWrite : string -> bool;
}.

Definition CLAUDE_PATH := ".claude".
Definition CC_SETTINGS_PATH := ".claude/settings.json".
Definition CLAUDIAN_SETTINGS_PATH := ".claude/claudian-settings.json".
Definition COMMANDS_PATH := ".claude/commands".
Definition SESSIONS_PATH := ".claude/sessions".
Definition CC_SCHEMA := "https://json.schemastore.org/claude-code-settings.json".

Section Storage.
Variable cfg : Config.

(* --------------------------------------------------------------------- *)
(** *** VaultFileAdapter and the host *)

(** [adapter.exists(path)]; the paths asked for are paths of files, and a
    folder of the same name is not considered. *)
Definition adapterExists (path : string) : M bool :=
  fun s => Ok (bool_decide (is_Some (files s !! path))) (record (EvExists path) s).

(** [adapter.read(path)] *)
Definition adapterRead (path : string) : M Content :=
  fun s => match files s !! path with
           | Some c => Ok c (record (EvRead path) s)
           | None => Throw (MissingFile path) (record (EvRead path) s)
           end.

(** [adapter.write(path, content)] *)
Definition adapterWrite (path : string) (c : Content) : M unit :=
  fun s =>
    if failWrite cfg path then Throw (WriteFailed path) (record (EvWrite path c Failed) s)
    else if loseWrite cfg path then Ok tt (record (EvWrite path c Lost) s)
    else Ok tt (record (EvWrite path c Stored) (withFiles (<[path := c]> (files s)) s)).

(** Modelled from the spec: [adapter.ensureFolder] is not part of the
    sources; the file adapter creates the folder when it is missing and
    touches no file. *)
Definition ensureFolder (path : string) : M unit :=
  fun s => Ok tt (withFolders ({[path]} ∪ folders s) s).

(** [JSON.parse(content)] *)
Definition jsonParse (c : Content) : M JValue :=
  match c with
  | Json v => ret v
  | Text _ => throw SyntaxError
  end.

(** [plugin.saveData(v)] *)
Definition saveData (v : JValue) : M unit :=
  fun s => Ok tt (record (EvSaveData v) (withData (Some v) s)).

(** [data || null], and [null] when [loadData] rejects. *)
Definition blobOf (s : Vault) : option JValue :=
  match data s with
  | Some v => if truthy v then Some v else None
  | None => None
  end.

(** [loadDataJson()] *)
Definition loadDataJson : M (option JValue) := fun s => Ok (blobOf s) s.

(* --------------------------------------------------------------------- *)
(** *** ClaudianSettingsStorage *)

(** [getDefaults()]: [DEFAULT_SETTINGS] without [slashCommands]. *)
Definition getDefaults : JObject := Obj.del "slashCommands" (DEFAULT_SETTINGS cfg).

(** The record [load()] builds from the parsed file. *)
Definition loadedSettings (stored : JValue) : JObject :=
  let storedWithoutLegacy := Obj.del "activeConversationId" (ownEntries stored) in
  let blockedCommands :=
    normalizeBlockedCommands (defaultBlockedCommands cfg) (prop "blockedCommands" stored) in
  let hostnameCliPaths := normalizeHostnameCliPaths (prop "claudeCliPathsByHost" stored) in
  let legacyCliPath :=
    match prop "claudeCliPath" stored with Some (JStr p) => p | _ => "" end in
  Obj.spread (Obj.spread getDefaults storedWithoutLegacy)
    [("blockedCommands", blockedCommandsJson blockedCommands);
     ("claudeCliPath", JStr legacyCliPath);
     ("claudeCliPathsByHost", JObj hostnameCliPaths)].

(** [claudianSettings.load()] *)
Definition claudianLoad : M JObject :=
  present <- adapterExists CLAUDIAN_SETTINGS_PATH ;;
  if negb present then ret getDefaults
  else
    content <- adapterRead CLAUDIAN_SETTINGS_PATH ;;
    stored <- jsonParse content ;;
    match stored with
    | JNull => throw TypeError
    | _ => ret (loadedSettings stored)
    end.

(** [claudianSettings.save(settings)] *)
Definition claudianSave (settings : JObject) : M unit :=
  adapterWrite CLAUDIAN_SETTINGS_PATH (Json (JObj settings)).

(** [claudianSettings.exists()] *)
Definition claudianExists : M bool := adapterExists CLAUDIAN_SETTINGS_PATH.

(* --------------------------------------------------------------------- *)
(** *** CCSettingsStorage, SlashCommandStorage and SessionStorage *)

(** Modelled from the spec: [CCSettingsStorage] is not part of the sources.
    Its [exists] asks the adapter for the settings file. *)
Definition ccExists : M bool := adapterExists CC_SETTINGS_PATH.

(** Modelled from the spec: [ccSettings.save(settings, true)] overwrites the
    AgentSettings file with only the schema reference and the permissions. *)
Definition ccSave (permissions : JObject) : M unit :=
  adapterWrite CC_SETTINGS_PATH
    (Json (JObj [("$schema", JStr CC_SCHEMA); ("permissions", JObj permissions)])).

(** Modelled from the spec: [ccSettings.load()] reads the AgentSettings
    file and writes nothing. *)
Definition ccSettingsLoad : M JValue :=
  fun s => match ccLoad cfg (files s !! CC_SETTINGS_PATH) with
           | inr v => Ok v s
           | inl e => Throw e s
           end.

(** Modelled from the spec: one command per file, [commands/<slug>.md]. *)
Definition commandFilePath (command : JValue) : string :=
  COMMANDS_PATH ++ "/" ++ commandSlug cfg command ++ ".md".

(** Modelled from the spec: one conversation per file, [sessions/<id>.jsonl]. *)
Definition sessionFilePath (id : option JValue) : string :=
  SESSIONS_PATH ++ "/" ++ sessionName cfg id ++ ".jsonl".

(** Modelled from the spec: [commands.save] is a single-file write. *)
Definition commandSave (command : JValue) : M unit :=
  adapterWrite (commandFilePath command) (Text (commandText cfg command)).

(** Modelled from the spec: [sessions.saveConversation] is a single-file write. *)
Definition saveConversation (conversation : JValue) : M unit :=
  adapterWrite (sessionFilePath (prop "id" conversation)) (Text (sessionText cfg conversation)).

(* --------------------------------------------------------------------- *)
(** *** StorageService *)

(** [hasStateToMigrate(data)] *)
Definition hasStateToMigrate (d : JValue) : bool :=
  bool_decide (is_Some (prop "lastEnvHash" d))
  || bool_decide (is_Some (prop "lastClaudeModel" d))
  || bool_decide (is_Some (prop "lastCustomModel" d)).

(** The items of [data.slashCommands] and [data.conversations], for a blob
    that fits [wellTypedData] below.  Both fields are declared as arrays, and
    the code tests only [field && field.length > 0] before its [for-of]:
    [null], a number, a boolean, the empty string or an object without
    [length] has no positive [length] and is skipped by the code as by this
    definition.  A string that is not empty would be iterated by character,
    and an object with a positive [length] makes [for-of] throw outside the
    [try]; neither is modelled here, and [wellTypedData] names the blobs
    for which this definition is the iteration of the code. *)
Definition itemsOf (v : option JValue) : list JValue :=
  match v with Some (JArr l) => l | _ => [] end.

(** A blob whose two content fields fit their declaration
    [SlashCommand[]], [Conversation[]]: no string and no object with a
    [length] of its own stands in place of the array. *)
Definition fitsDeclaration (v : option JValue) : bool :=
  match v with
  | Some (JStr s) => Js.isEmpty s
  | Some (JObj o) => bool_decide (Obj.get "length" o = None)
  | _ => true
  end.

Definition wellTypedData (d : JValue) : bool :=
  fitsDeclaration (prop "slashCommands" d) && fitsDeclaration (prop "conversations" d).

(** [hasLegacyContentToMigrate(data)] *)
Definition hasLegacyContentToMigrate (d : JValue) : bool :=
  negb (bool_decide (itemsOf (prop "slashCommands" d) = []))
  || negb (bool_decide (itemsOf (prop "conversations" d) = [])).

(** [oldSettings.environmentVariables ?? ''] *)
Definition environmentVariablesOf (oldSettings : JValue) : JValue :=
  match nullish (prop "environmentVariables" oldSettings) (Some (JStr "")) with
  | Some v => v
  | None => JStr ""
  end.

(** The variable [environmentVariables] after the merge with
    [oldSettings.env]. *)
Definition mergedEnvironment (oldSettings : JValue) : M JValue :=
  let environmentVariables := environmentVariablesOf oldSettings in
  match prop "env" oldSettings with
  | Some (JObj _ as env) | Some (JArr _ as env) =>
      let envFromCC := convertEnvObjectToString (Some env) in
      if Js.isEmpty envFromCC then ret environmentVariables
      else match environmentVariables with
           | JStr existing => ret (JStr (mergeEnvironmentVariables existing envFromCC))
           | _ => throw TypeError
           end
  | _ => ret environmentVariables
  end.

(** The object literal [claudianFields]. *)
Definition claudianFields (oldSettings : JValue) (environmentVariables : JValue) : JObject :=
  let old k := prop k oldSettings in
  let def k := Obj.get k (DEFAULT_SETTINGS cfg) in
  let field k := (k, nullish (old k) (def k)) in
  literal
    [ field "userName";
      field "enableBlocklist";
      ("blockedCommands",
        Some (blockedCommandsJson
                (normalizeBlockedCommands (defaultBlockedCommands cfg) (old "blockedCommands"))));
      field "model";
      field "thinkingBudget";
      field "permissionMode";
      field "excludedTags";
      field "mediaFolder";
      ("environmentVariables", Some environmentVariables);
      field "envSnippets";
      field "systemPrompt";
      field "allowedExportPaths";
      ("persistentExternalContextPaths", def "persistentExternalContextPaths");
      field "keyboardNavigation";
      field "claudeCliPath";
      ("claudeCliPathsByHost", def "claudeCliPathsByHost");
      field "loadUserClaudeSettings";
      field "enableAutoTitleGeneration";
      field "titleGenerationModel";
      ("lastClaudeModel", def "lastClaudeModel");
      ("lastCustomModel", def "lastCustomModel");
      ("lastEnvHash", def "lastEnvHash") ].

(** Modelled from the spec: [isLegacyPermissionsFormat] is not part of the
    sources; the legacy shape is the flat array.  The three branches that
    derive [ccPermissions] from [oldSettings.permissions].  An array with an
    element that is no [LegacyPermission] is outside the declared type of the
    conversion and is given no meaning: the embedding stops with [IllTyped]. *)
Definition derivePermissions (oldSettings : JValue) : M JObject :=
  match prop "permissions" oldSettings with
  | Some (JArr records) =>
      match mapM asLegacyPermission records with
      | Some legacy =>
          ret (ccPermissionsJson
                 (legacyPermissionsToCCPermissions (legacyObjectPattern cfg) legacy))
      | None => throw IllTyped
      end
  | Some (JObj existingPerms) =>
      ret (literal
             [ ("allow", nullish (Obj.get "allow" existingPerms) (Some (JArr [])));
               ("deny", nullish (Obj.get "deny" existingPerms) (Some (JArr [])));
               ("ask", nullish (Obj.get "ask" existingPerms) (Some (JArr [])));
               ("defaultMode", Obj.get "defaultMode" existingPerms);
               ("additionalDirectories", Obj.get "additionalDirectories" existingPerms) ])
  | _ => ret (DEFAULT_CC_PERMISSIONS cfg)
  end.

(** The end of [migrateFromOldSettingsJson]: the permissions are derived
    and [settings.json] is rewritten with only the fields of the CLI. *)
Definition rewriteSettings (oldSettings : JValue) : M unit :=
  ccPermissions <- derivePermissions oldSettings ;;
  ccSave ccPermissions.

(** The read-back of the plugin settings and the check of [userName], which
    stand before the rewrite. *)
Definition verifyThenRewrite (oldSettings : JValue) : M unit :=
  savedClaudian <- claudianLoad ;;
  if bool_decide (Obj.get "userName" savedClaudian = None)
  then throw VerificationFailed
  else rewriteSettings oldSettings.

(** The body of [migrateFromOldSettingsJson] once the file is known to
    carry fields of the plugin: the plugin settings are saved FIRST. *)
Definition splitSettings (oldSettings : JValue) : M unit :=
  environmentVariables <- mergedEnvironment oldSettings ;;
  claudianSave (claudianFields oldSettings environmentVariables) ;;;
  verifyThenRewrite oldSettings.

(** [Array.from(CLAUDIAN_ONLY_FIELDS).some(field => oldSettings[field] !== undefined)] *)
Definition hasClaudianFields (oldSettings : JValue) : bool :=
  existsb (fun field => bool_decide (is_Some (prop field oldSettings))) CLAUDIAN_ONLY_FIELDS.

(** [migrateFromOldSettingsJson()] *)
Definition migrateFromOldSettingsJson : M unit :=
  content <- adapterRead CC_SETTINGS_PATH ;;
  oldSettings <- jsonParse content ;;
  match oldSettings with
  | JNull => throw TypeError
  | _ =>
      if negb (hasClaudianFields oldSettings) then ret tt
      else splitSettings oldSettings
  end.

(** One assignment of [migrateFromDataJson]:
    [if (dataJson.f !== undefined && !claudian.f) claudian.f = dataJson.f]. *)
Definition mergeStateField (d : JValue) (f : string) (claudian : JObject) : JObject :=
  match prop f d with
  | Some v => if falsy (Obj.get f claudian) then Obj.set f v claudian else claudian
  | None => claudian
  end.

Definition mergeState (d : JValue) (claudian : JObject) : JObject :=
  mergeStateField d "lastCustomModel"
    (mergeStateField d "lastClaudeModel"
       (mergeStateField d "lastEnvHash" claudian)).

(** [migrateFromDataJson(dataJson)] *)
Definition migrateFromDataJson (d : JValue) : M unit :=
  claudian <- claudianLoad ;;
  claudianSave (mergeState d claudian).

(** The body of the first loop of [migrateLegacyDataJsonContent]. *)
Definition migrateCommand (hadErrors : bool) (command : JValue) : M bool :=
  tryCatch
    (let filePath := commandFilePath command in
     present <- adapterExists filePath ;;
     if present then ret hadErrors
     else commandSave command ;;; ret hadErrors)
    (ret true).

(** The body of the second loop. *)
Definition migrateConversation (hadErrors : bool) (conversation : JValue) : M bool :=
  tryCatch
    (match conversation with
     | JNull => throw TypeError
     | _ =>
         let filePath := sessionFilePath (prop "id" conversation) in
         present <- adapterExists filePath ;;
         if present then ret hadErrors
         else saveConversation conversation ;;; ret hadErrors
     end)
    (ret true).

(** [migrateLegacyDataJsonContent(dataJson)], returning [hadErrors]. *)
Definition migrateLegacyDataJsonContent (d : JValue) : M bool :=
  hadErrors <- foldM migrateCommand (itemsOf (prop "slashCommands" d)) false ;;
  foldM migrateConversation (itemsOf (prop "conversations" d)) hadErrors.

Definition CLEARED_KEYS : list string :=
  [ "lastEnvHash"; "lastClaudeModel"; "lastCustomModel";
    "conversations"; "slashCommands"; "migrationVersion" ].

(** The object [cleaned] of [clearLegacyDataJson]. *)
Definition cleanedData (d : JValue) : JObject :=
  fold_left (fun cleaned k => Obj.del k cleaned) CLEARED_KEYS (ownEntries d).

(** [clearLegacyDataJson()] *)
Definition clearLegacyDataJson : M unit :=
  dataJson <- loadDataJson ;;
  match dataJson with
  | None => ret tt
  | Some d =>
      let cleaned := cleanedData d in
      if bool_decide (Obj.keys cleaned = []) then saveData (JObj [])
      else saveData (JObj cleaned)
  end.

(** The step [if (hasLegacyContent) { ... }] of [runMigrations], returning
    [legacyContentHadErrors]. *)
Definition contentStep (d : JValue) : M bool :=
  if hasLegacyContentToMigrate d then migrateLegacyDataJsonContent d else ret false.

(** The body of [if (dataJson) { ... }] in [runMigrations]. *)
Definition migrateBlob (d : JValue) : M unit :=
  let hasState := hasStateToMigrate d in
  let hasLegacyContent := hasLegacyContentToMigrate d in
  when hasState (migrateFromDataJson d) ;;;
  legacyContentHadErrors <- contentStep d ;;
  when ((hasState || hasLegacyContent) && negb legacyContentHadErrors)
    clearLegacyDataJson.

(** [runMigrations()] *)
Definition runMigrations : M unit :=
  ccExists <- ccExists ;;
  claudianExists <- claudianExists ;;
  dataJson <- loadDataJson ;;
  when (ccExists && negb claudianExists) migrateFromOldSettingsJson ;;;
  match dataJson with
  | None => ret tt
  | Some d => migrateBlob d
  end.

(** [ensureDirectories()] *)
Definition ensureDirectories : M unit :=
  ensureFolder CLAUDE_PATH ;;;
  ensureFolder COMMANDS_PATH ;;;
  ensureFolder SESSIONS_PATH.

(** [initialize()] *)
Definition initialize : M (JValue * JObject) :=
  ensureDirectories ;;;
  runMigrations ;;;
  cc <- ccSettingsLoad ;;
  claudian <- claudianLoad ;;
  ret (cc, claudian).

End Storage.

(* ===================================================================== *)
(** ** Vocabulary of the specification *)
(* ===================================================================== *)

(** The events a run appended to the log. *)
Definition newEvents (before after : Vault) : list Event :=
  drop (length (log before)) (log after).

Definition isSaveData (e : Event) : bool :=
  match e with EvSaveData _ => true | _ => false end.

Definition isFailedWrite (e : Event) : bool :=
  match e with EvWrite _ _ Failed => true | _ => false end.

(** The legacy blob was cleared: [saveData] was called. *)
Definition cleared (l : list Event) : bool := existsb isSaveData l.

(** Some write threw. *)
Definition someWriteFailed (l : list Event) : bool := existsb isFailedWrite l.

Definition isObject (v : JValue) : bool :=
  match v with JObj _ => true | _ => false end.

(** The blob inhabits [LegacyDataJson]: its two content fields are arrays of
    records when they are present. *)
Definition inhabitsLegacyDataJson (d : JValue) : bool :=
  wellTypedData d
  && forallb isObject (itemsOf (prop "slashCommands" d))
  && forallb isObject (itemsOf (prop "conversations" d)).

Definition blobWellTyped (s : Vault) : bool :=
  match data s with Some d => inhabitsLegacyDataJson d | None => true end.

(** Nothing is left to migrate: a settings file without its companion holds
    no field of the plugin, and the blob holds neither state nor content. *)
Definition Quiescent (s : Vault) : Prop :=
  (files s !! CLAUDIAN_SETTINGS_PATH = None →
   ∀ c, files s !! CC_SETTINGS_PATH = Some c →
        ∃ old, c = Json old ∧ old ≠ JNull ∧ hasClaudianFields old = false)
  ∧ (∀ d, data s = Some d → truthy d = true →
          hasStateToMigrate d = false ∧ hasLegacyContentToMigrate d = false).

(** The files and the blob are what the stored writes of the log made of
    them. *)
Definition replayFiles (ev : list Event) (f : gmap string Content) : gmap string Content :=
  fold_left (fun f e => match e with
                        | EvWrite p c Stored => <[p := c]> f
                        | _ => f
                        end) ev f.

Definition replayData (ev : list Event) (d : option JValue) : option JValue :=
  fold_left (fun d e => match e with
                        | EvSaveData v => Some v
                        | _ => d
                        end) ev d.

(** A run from [s] to [s'] appended the events [ev], and the vault changed
    as they say. *)
Definition Trace (s s' : Vault) (ev : list Event) : Prop :=
  log s' = (log s ++ ev)%list
  ∧ files s' = replayFiles ev (files s)
  ∧ data s' = replayData ev (data s)
  ∧ folders s' = folders s.

(** No write of [settings.json] before the plugin settings were written
    and then looked up again. *)
Definition verifiedBeforeRewrite (ev : list Event) : Prop :=
  ∀ i c o, ev !! i = Some (EvWrite CC_SETTINGS_PATH c o) →
    ∃ j k c1 o1, j < k ∧ k < i
      ∧ ev !! j = Some (EvWrite CLAUDIAN_SETTINGS_PATH c1 o1)
      ∧ ev !! k = Some (EvExists CLAUDIAN_SETTINGS_PATH).

Definition writesTo (path : string) (e : Event) : bool :=
  match e with EvWrite p _ _ => bool_decide (p = path) | _ => false end.

(** Every write of the log was stored. *)
Definition allStored (ev : list Event) : bool := forallb storedOrRead ev.

(** What a stretch of the content migration does, from [hadErrors = h] in
    vault [s] to [hadErrors = h'] in vault [s'], with the events [ev]: the
    blob and the folders stay, the flag is raised by a failed write and never
    lowered, a file that exists is left as it is, and the two settings files
    are not touched. *)
Definition ContentSummary (h : bool) (s : Vault) (h' : bool) (s' : Vault)
    (ev : list Event) : Prop :=
  log s' = (log s ++ ev)%list
  ∧ data s' = data s
  ∧ folders s' = folders s
  ∧ cleared ev = false
  ∧ (h = true ∨ someWriteFailed ev = true → h' = true)
  ∧ (∀ p x, files s !! p = Some x → files s' !! p = Some x)
  ∧ files s' !! CC_SETTINGS_PATH = files s !! CC_SETTINGS_PATH
  ∧ files s' !! CLAUDIAN_SETTINGS_PATH = files s !! CLAUDIAN_SETTINGS_PATH.

(** A step that leaves the blob, the folders and [settings.json] alone and
    removes no file. *)
Definition Keeps (s s' : Vault) (ev : list Event) : Prop :=
  log s' = (log s ++ ev)%list
  ∧ data s' = data s
  ∧ folders s' = folders s
  ∧ cleared ev = false
  ∧ (∀ p, is_Some (files s !! p) → is_Some (files s' !! p))
  ∧ files s' !! CC_SETTINGS_PATH = files s !! CC_SETTINGS_PATH.

(** The three bookkeeping fields of the blob. *)
Definition STATE_FIELDS : list string :=
  [ "lastEnvHash"; "lastClaudeModel"; "lastCustomModel" ].

(** The keys the specification calls consumed: the bookkeeping fields and
    the two content arrays. *)
Definition CONSUMED_KEYS : list string :=
  STATE_FIELDS ++ [ "conversations"; "slashCommands" ].

Fixpoint hasChar (c : ascii) (s : string) : bool :=
  match s with
  | EmptyString => false
  | String d r => bool_decide (c = d) || hasChar c r
  end.

(** A text of white space only: characters of white space, one behind the
    other. *)
Inductive WhiteSpaceOnly : string -> Prop :=
  | WhiteSpaceOnly_nil : WhiteSpaceOnly ""
  | WhiteSpaceOnly_cons (w r : string) :
      w ∈ Js.WHITE_SPACE -> WhiteSpaceOnly r -> WhiteSpaceOnly (w ++ r).

(** [x] is [s] without the white space at its two ends: white space only
    stands before and behind [x] in [s], and [x] neither starts nor ends
    with a character of white space. *)
Definition Trimmed (s x : string) : Prop :=
  ∃ a b, s = a ++ x ++ b ∧ WhiteSpaceOnly a ∧ WhiteSpaceOnly b
         ∧ (∀ w r, w ∈ Js.WHITE_SPACE → x ≠ w ++ r)
         ∧ (∀ w r, w ∈ Js.WHITE_SPACE → x ≠ r ++ w).

(** The byte occurs in a character of white space; it starts one. *)
Definition inWhiteSpace (c : ascii) : bool := existsb (hasChar c) Js.WHITE_SPACE.

Definition startsWhiteSpace (c : ascii) : bool :=
  existsb (fun w => match w with String d _ => bool_decide (c = d) | EmptyString => false end)
    Js.WHITE_SPACE.

(** The bucket of blocked commands in the words of the specification: of
    the entries of the list those that are strings, each without the white
    space at its two ends, the blank ones left out, in the order of the
    list.  The relation is stated on texts, without [trim]. *)
Inductive CommandsOf : list JValue → list string → Prop :=
  | CommandsOf_nil : CommandsOf [] []
  | CommandsOf_other (v : JValue) (l : list JValue) (r : list string) :
      (∀ s, v ≠ JStr s) → CommandsOf l r → CommandsOf (v :: l) r
  | CommandsOf_blank (s : string) (l : list JValue) (r : list string) :
      WhiteSpaceOnly s → CommandsOf l r → CommandsOf (JStr s :: l) r
  | CommandsOf_keep (s x : string) (l : list JValue) (r : list string) :
      ¬ WhiteSpaceOnly s → Trimmed s x → CommandsOf l r →
      CommandsOf (JStr s :: l) (x :: r).

(** A bucket of a platform-keyed object in the words of the specification:
    a list is validated as above, anything else gives the default. *)
Definition BucketOf (value : option JValue) (fallback result : list string) : Prop :=
  match value with
  | Some (JArr l) => CommandsOf l result
  | _ => result = fallback
  end.

(** A name of an environment variable as a line of the free text can spell
    it: not empty, no line feed, no equals sign, no white space or hash in
    front. *)
Definition plainKey (k : string) : bool :=
  negb (Js.isEmpty k)
  && negb (hasChar Js.LF k) && negb (hasChar "=" k)
  && bool_decide (Js.trimStart k = k) && negb (Js.startsWithChar "#" k).

(** A value a line can spell: no line feed, no white space at its end. *)
Definition plainValue (v : string) : bool :=
  negb (hasChar Js.LF v) && bool_decide (Js.trimEnd v = v).

Definition plainEntry (kv : string * string) : bool := plainKey kv.1 && plainValue kv.2.

(* ===================================================================== *)
(** ** Concrete configurations and vaults for the examples *)
(* ===================================================================== *)

Module Example.

Definition quote : string := String (ascii_of_nat 34) EmptyString.

Definition defaultBlocked : PlatformBlockedCommands :=
  {| unix := ["rm -rf"; "chmod 777"; "chmod -R 777"];
     windows := ["Remove-Item -Recurse -Force"; "Format-Volume"] |}.

(** A default table for the examples.  Where the unit tests state a default
    ([enableBlocklist], the blocked commands, [environmentVariables],
    [envSnippets], [lastClaudeModel], [lastCustomModel]) it is that value. *)
Definition defaults : JObject :=
  [ ("userName", JStr "");
    ("enableBlocklist", JBool true);
    ("blockedCommands", blockedCommandsJson defaultBlocked);
    ("model", JStr "haiku");
    ("thinkingBudget", JStr "off");
    ("permissionMode", JStr "yolo");
    ("excludedTags", JArr []);
    ("mediaFolder", JStr "");
    ("environmentVariables", JStr "");
    ("envSnippets", JArr []);
    ("systemPrompt", JStr "");
    ("allowedExportPaths", JArr []);
    ("persistentExternalContextPaths", JArr []);
    ("slashCommands", JArr []);
    ("keyboardNavigation", JObj []);
    ("claudeCliPath", JStr "");
    ("claudeCliPathsByHost", JObj []);
    ("loadUserClaudeSettings", JBool false);
    ("enableAutoTitleGeneration", JBool true);
    ("titleGenerationModel", JStr "");
    ("lastClaudeModel", JStr "haiku");
    ("lastCustomModel", JStr "");
    ("lastEnvHash", JStr "") ].

Definition defaultPermissions : JObject :=
  [("allow", JArr []); ("deny", JArr []); ("ask", JArr [])].

Definition textField (k : string) (v : JValue) : string :=
  match prop k v with Some (JStr s) => s | _ => "" end.

(** The pattern of the unit test 'should return just tool name for JSON
    object pattern (legacy format)'. *)
Definition objectPattern : string :=
  "{" ++ quote ++ "key" ++ quote ++ ":" ++ quote ++ "value" ++ quote ++ "}".

Definition reliable : Config :=
  {| DEFAULT_SETTINGS := defaults;
     defaultBlockedCommands := defaultBlocked;
     DEFAULT_CC_PERMISSIONS := defaultPermissions;
     commandSlug := textField "name";
     sessionName := fun id => match id with Some (JStr s) => s | _ => "" end;
     commandText := textField "content";
     sessionText := textField "title";
     ccLoad := fun c => match c with
                        | Some (Json v) => inr v
                        | Some (Text _) => inl SyntaxError
                        | None => inr (JObj [("permissions", JObj defaultPermissions)])
                        end;
     legacyObjectPattern := fun p => bool_decide (p = objectPattern);
     failWrite := fun _ => false;
     loseWrite := fun _ => false |}.

Definition withFailures (fails loses : string -> bool) (c : Config) : Config :=
  {| DEFAULT_SETTINGS := DEFAULT_SETTINGS c;
     defaultBlockedCommands := defaultBlockedCommands c;
     DEFAULT_CC_PERMISSIONS := DEFAULT_CC_PERMISSIONS c;
     commandSlug := commandSlug c;
     sessionName := sessionName c;
     commandText := commandText c;
     sessionText := sessionText c;
     ccLoad := ccLoad c;
     legacyObjectPattern := legacyObjectPattern c;
     failWrite := fails;
     loseWrite := loses |}.

Definition withDefaults (d : JObject) (c : Config) : Config :=
  {| DEFAULT_SETTINGS := d;
     defaultBlockedCommands := defaultBlockedCommands c;
     DEFAULT_CC_PERMISSIONS := DEFAULT_CC_PERMISSIONS c;
     commandSlug := commandSlug c;
     sessionName := sessionName c;
     commandText := commandText c;
     sessionText := sessionText c;
     ccLoad := ccLoad c;
     legacyObjectPattern := legacyObjectPattern c;
     failWrite := failWrite c;
     loseWrite := loseWrite c |}.

(** Writes under [.claude/commands/] throw, as in the test
    'does not clear data.json when legacy content migration fails'. *)
Definition commandsFail : Config :=
  withFailures (fun p => String.prefix ".claude/commands/" p) (fun _ => false) reliable.

(** The write of [claudian-settings.json] returns without storing anything. *)
Definition claudianLost : Config :=
  withFailures (fun _ => false)
    (fun p => bool_decide (p = CLAUDIAN_SETTINGS_PATH)) reliable.

(** A default table that lacks [userName]. *)
Definition noDefaults : Config := withDefaults [] reliable.

Definition vault (f : list (string * Content)) (d : option JValue) : Vault :=
  {| files := list_to_map f; folders := ∅; data := d; log := [] |}.

Definition reviewCommand : JValue :=
  JObj [("id", JStr "cmd-review"); ("name", JStr "review");
        ("content", JStr "Review the file.")].

Definition tabManagerState : JValue :=
  JObj [("openTabs", JArr [JObj [("tabId", JStr "tab-1"); ("conversationId", JStr "conv-1")]]);
        ("activeTabId", JStr "tab-1")].

(** The blob of the failing-write test, with a bookkeeping field added. *)
Definition stateAndCommand : JValue :=
  JObj [("lastEnvHash", JStr "hash"); ("slashCommands", JArr [reviewCommand])].

(** The combined legacy file of the end-to-end property. *)
Definition annSettings : JValue :=
  JObj [("userName", JStr "Ann");
        ("blockedCommands", JArr [JStr "rm -rf"]);
        ("permissions",
          JArr [permissionJson {| toolName := "Bash"; pattern := "git *";
                                  approvedAt := 1; scope := "always" |}])].


Definition twoLines (a b : string) : string := a ++ String Js.LF b.

(** A settings file whose free-text block repeats a key and whose
    structured environment map is empty. *)
Definition repeatedKey : JValue :=
  JObj [("environmentVariables", JStr (twoLines "A=1" "A=2")); ("env", JObj [])].

(** A blob with a bookkeeping field, a migration version and a key of the host. *)
Definition versionedBlob : JValue :=
  JObj [("lastEnvHash", JStr "hash"); ("migrationVersion", JNum 2);
        ("tabManagerState", tabManagerState)].

(** A blob with two bookkeeping fields. *)
Definition modelBlob : JValue :=
  JObj [("lastEnvHash", JStr "hash"); ("lastClaudeModel", JStr "opus")].

(** A plugin settings file that already holds an environment hash. *)
Definition keptSettings : JValue :=
  JObj [("lastEnvHash", JStr "kept"); ("lastCustomModel", JStr "")].

Definition keptVault : Vault :=
  vault [(CLAUDIAN_SETTINGS_PATH, Json keptSettings)] (Some modelBlob).




(** A settings file with a free-text block and a structured map that share
    the key [API_KEY]. *)
Definition sharedKey : JValue :=
  JObj [("environmentVariables", JStr (twoLines "API_KEY=old" "MODE=fast"));
        ("env", JObj [("API_KEY", JStr "new"); ("REGION", JStr "eu")])].

(** A combined settings file that names a model and no user. *)
Definition modelOnly : JValue := JObj [("model", JStr "opus")].

Definition modelOnlyVault : Vault := vault [(CC_SETTINGS_PATH, Json modelOnly)] None.

Definition annVault : Vault := vault [(CC_SETTINGS_PATH, Json annSettings)] None.

(** A vault with a combined settings file and a blob with state and a
    command. *)
Definition fullVault : Vault :=
  vault [(CC_SETTINGS_PATH, Json annSettings)] (Some stateAndCommand).

(** A vault with the same blob and no file. *)
Definition blobVault : Vault := vault [] (Some stateAndCommand).

End Example.

(* ===================================================================== *)
(** ** ApprovalManager: approved actions of the safe mode *)
(* ===================================================================== *)

(** More of the JavaScript strings, with the receiver first as in the
    method call. *)
Module Str.

Definition BACKSLASH : ascii := ascii_of_nat 92.

(** [s.startsWith(p)] *)
Fixpoint startsWith (s p : string) {struct p} : bool :=
  match p with
  | EmptyString => true
  | String a p' =>
      match s with
      | String b s' => bool_decide (a = b) && startsWith s' p'
      | EmptyString => false
      end
  end.

(** [s.endsWith(c)] for a one-character suffix. *)
Fixpoint endsWithChar (s : string) (c : ascii) : bool :=
  match s with
  | EmptyString => false
  | String d EmptyString => bool_decide (d = c)
  | String _ r => endsWithChar r c
  end.

(** [s.charAt(i) === c] *)
Definition charAtIs (s : string) (i : nat) (c : ascii) : bool :=
  bool_decide (String.get i s = Some c).

(** [value.replace(/\\/g, '/')] *)
Fixpoint replaceBackslashes (s : string) : string :=
  match s with
  | EmptyString => EmptyString
  | String c r =>
      String (if bool_decide (c = BACKSLASH) then "/"%char else c) (replaceBackslashes r)
  end.

End Str.

Module Approval.

(** The names of [core/tools/toolNames], a module that is not part of the
    sources. *)
Record ToolNames := {
  TOOL_BASH : string;
  TOOL_EDIT : string;
  TOOL_GLOB : string;
  TOOL_GREP : string;
  TOOL_NOTEBOOK_EDIT : string;
  TOOL_READ : string;
  TOOL_WRITE : string;
}.

Inductive Scope : Type := session | always.

(** The record [approveAction] builds. *)
Record Permission := {
  toolName : string;
  pattern : string;
  approvedAt : Z;
  scope : Scope;
}.

(** What an asynchronous call-back left behind: the state of its host, and
    whether its promise was fulfilled or rejected. *)
Inductive Settled (H : Type) : Type :=
  | Fulfilled (h : H)
  | Rejected (h : H).
Arguments Fulfilled {H} h.
Arguments Rejected {H} h.

Definition hostOf {H} (r : Settled H) : H :=
  match r with Fulfilled h | Rejected h => h end.

(** [normalizeMatchPattern(value)] *)
Definition normalizeMatchPattern (value : string) : string := Str.replaceBackslashes value.

(** [isPathPrefixMatch(actionPath, approvedPath)] *)
Definition isPathPrefixMatch (actionPath approvedPath : string) : bool :=
  if negb (Str.startsWith actionPath approvedPath) then false
  else if Str.endsWithChar approvedPath "/" then true
  else if Nat.eqb (String.length actionPath) (String.length approvedPath) then true
  else Str.charAtIs actionPath (String.length approvedPath) "/".

(** [(value as string) || rest]: a falsy value gives way to [rest]; a
    value that is truthy and no string lies outside the declared type of the
    tool input and is given no meaning ([None]). *)
Definition stringOr (value : option JValue) (rest : option string) : option string :=
  match value with
  | Some (JStr s) => if Js.isEmpty s then rest else Some s
  | Some v => if truthy v then None else rest
  | None => rest
  end.

Section Manager.
Variable names : ToolNames.
(** [JSON.stringify] and the text of a value in a template literal. *)
Variable stringify : JValue -> string.
Variable display : option JValue -> string.

Definition isFileTool (tool : string) : bool :=
  bool_decide (tool = TOOL_READ names)
  || bool_decide (tool = TOOL_WRITE names)
  || bool_decide (tool = TOOL_EDIT names)
  || bool_decide (tool = TOOL_NOTEBOOK_EDIT names).

(** [getActionPattern(toolName, input)] *)
Definition getActionPattern (tool : string) (input : JObject) : option string :=
  if bool_decide (tool = TOOL_BASH names) then
    match Obj.get "command" input with
    | Some (JStr command) => Some (Js.trim command)
    | _ => Some ""
    end
  else if bool_decide (tool = TOOL_READ names)
          || bool_decide (tool = TOOL_WRITE names)
          || bool_decide (tool = TOOL_EDIT names) then
    stringOr (Obj.get "file_path" input) (Some "*")
  else if bool_decide (tool = TOOL_NOTEBOOK_EDIT names) then
    stringOr (Obj.get "notebook_path" input)
      (stringOr (Obj.get "file_path" input) (Some "*"))
  else if bool_decide (tool = TOOL_GLOB names) then
    stringOr (Obj.get "pattern" input) (Some "*")
  else if bool_decide (tool = TOOL_GREP names) then
    stringOr (Obj.get "pattern" input) (Some "*")
  else Some (stringify (JObj input)).

(** [getActionDescription(toolName, input)] *)
Definition getActionDescription (tool : string) (input : JObject) : string :=
  if bool_decide (tool = TOOL_BASH names) then
    "Run command: " ++ display (Obj.get "command" input)
  else if bool_decide (tool = TOOL_READ names) then
    "Read file: " ++ display (Obj.get "file_path" input)
  else if bool_decide (tool = TOOL_WRITE names) then
    "Write to file: " ++ display (Obj.get "file_path" input)
  else if bool_decide (tool = TOOL_EDIT names) then
    "Edit file: " ++ display (Obj.get "file_path" input)
  else if bool_decide (tool = TOOL_GLOB names) then
    "Search files matching: " ++ display (Obj.get "pattern" input)
  else if bool_decide (tool = TOOL_GREP names) then
    "Search content matching: " ++ display (Obj.get "pattern" input)
  else tool ++ ": " ++ stringify (JObj input).

(** [matchesPattern(toolName, actionPattern, approvedPattern)] *)
Definition matchesPattern (tool actionPattern approvedPattern : string) : bool :=
  if bool_decide (tool = TOOL_BASH names) then bool_decide (actionPattern = approvedPattern)
  else
    let normalizedAction := normalizeMatchPattern actionPattern in
    let normalizedApproved := normalizeMatchPattern approvedPattern in
    if bool_decide (normalizedApproved = "*") then true
    else if bool_decide (normalizedAction = normalizedApproved) then true
    else if isFileTool tool then isPathPrefixMatch normalizedAction normalizedApproved
    else if Str.startsWith normalizedAction normalizedApproved then true
    else false.

(** The class [ApprovalManager]; [H] is the state behind its two
    call-backs. *)
Context {H : Type}.

Record ApprovalManager := {
  sessionApprovedActions : list Permission;
  persistCallback : option (Permission -> H -> Settled H);
  getPermanentApprovals : H -> list Permission;
}.

(** [new ApprovalManager(getPermanentApprovals)] *)
Definition newApprovalManager (getPermanent : H -> list Permission) : ApprovalManager :=
  {| sessionApprovedActions := [];
     persistCallback := None;
     getPermanentApprovals := getPermanent |}.

(** [setPersistCallback(callback)] *)
Definition setPersistCallback (callback : option (Permission -> H -> Settled H))
    (m : ApprovalManager) : ApprovalManager :=
  {| sessionApprovedActions := sessionApprovedActions m;
     persistCallback := callback;
     getPermanentApprovals := getPermanentApprovals m |}.

(** [action => action.toolName === toolName && matchesPattern(toolName, pattern, action.pattern)] *)
Definition approvedBy (tool actionPattern : string) (action : Permission) : bool :=
  bool_decide (toolName action = tool) && matchesPattern tool actionPattern (pattern action).

(** [isActionApproved(toolName, input)] *)
Definition isActionApproved (m : ApprovalManager) (h : H) (tool : string) (input : JObject)
  : option bool :=
  match getActionPattern tool input with
  | Some actionPattern =>
      let sessionApproved := existsb (approvedBy tool actionPattern) (sessionApprovedActions m) in
      if sessionApproved then Some true
      else Some (existsb (approvedBy tool actionPattern) (getPermanentApprovals m h))
  | None => None
  end.

(** [approveAction(toolName, input, scope)]; [now] is [Date.now()]. *)
Definition approveAction (now : Z) (m : ApprovalManager) (h : H) (tool : string)
    (input : JObject) (sc : Scope) : option (ApprovalManager * Settled H) :=
  match getActionPattern tool input with
  | Some actionPattern =>
      let action := {| toolName := tool; pattern := actionPattern;
                       approvedAt := now; scope := sc |} in
      match sc with
      | session =>
          Some ({| sessionApprovedActions := (sessionApprovedActions m ++ [action])%list;
                   persistCallback := persistCallback m;
                   getPermanentApprovals := getPermanentApprovals m |}, Fulfilled h)
      | always =>
          match persistCallback m with
          | Some callback => Some (m, callback action h)
          | None => Some (m, Fulfilled h)
          end
      end
  | None => None
  end.

(** [clearSessionApprovals()] *)
Definition clearSessionApprovals (m : ApprovalManager) : ApprovalManager :=
  {| sessionApprovedActions := [];
     persistCallback := persistCallback m;
     getPermanentApprovals := getPermanentApprovals m |}.

(** [getSessionApprovals()] *)
Definition getSessionApprovals (m : ApprovalManager) : list Permission :=
  sessionApprovedActions m.

(* --------------------------------------------------------------------- *)
(** *** ClaudianService: the call-back of the safe mode *)

Inductive Decision : Type := allow | allowAlways | denyIt.

Inductive PermissionResult : Type :=
  | Allow (updatedInput : JObject)
  | Deny (message : string) (interrupt : option bool).

(** [createSafeModeCallback()], applied to a tool call.  [approvalCallback]
    is the handler of the view, if one is set; it answers with a decision or
    rejects ([None]).  The notice to the tracker of file edits
    ([cancelFileEdit]) concerns another object and is left out. *)
Definition safeModeCallback (now : Z)
    (approvalCallback : option (string -> JObject -> string -> option Decision))
    (m : ApprovalManager) (h : H) (tool : string) (input : JObject)
  : option (PermissionResult * ApprovalManager * H) :=
  match isActionApproved m h tool input with
  | None => None
  | Some true => Some (Allow input, m, h)
  | Some false =>
      match approvalCallback with
      | None =>
          Some (Deny "No approval handler available. Please enable YOLO mode or configure permissions."
                  None, m, h)
      | Some ask =>
          let description := getActionDescription tool input in
          match ask tool input description with
          | None => Some (Deny "Approval request failed." (Some true), m, h)
          | Some denyIt => Some (Deny "User denied this action." (Some false), m, h)
          | Some allowAlways =>
              match approveAction now m h tool input always with
              | Some (m', Fulfilled h') => Some (Allow input, m', h')
              | Some (m', Rejected h') => Some (Deny "Approval request failed." (Some true), m', h')
              | None => None
              end
          | Some allow =>
              match approveAction now m h tool input session with
              | Some (m', Fulfilled h') => Some (Allow input, m', h')
              | Some (m', Rejected h') => Some (Deny "Approval request failed." (Some true), m', h')
              | None => None
              end
          end
      end
  end.

End Manager.

(** The manager as the constructor of [ClaudianService] sets it up: the
    permanent approvals are [plugin.settings.permissions], and the call-back
    pushes the action onto them and saves the settings; [saved] tells whether
    [saveSettings] succeeds. *)
Definition persistToSettings (saved : list Permission -> bool) (action : Permission)
    (permissions : list Permission) : Settled (list Permission) :=
  let permissions' := (permissions ++ [action])%list in
  if saved permissions' then Fulfilled permissions' else Rejected permissions'.

Definition serviceApprovalManager (saved : list Permission -> bool)
  : @ApprovalManager (list Permission) :=
  setPersistCallback (Some (persistToSettings saved)) (newApprovalManager (fun permissions => permissions)).

End Approval.

Module ApprovalExample.

Definition names : Approval.ToolNames :=
  {| Approval.TOOL_BASH := "Bash";
     Approval.TOOL_EDIT := "Edit";
     Approval.TOOL_GLOB := "Glob";
     Approval.TOOL_GREP := "Grep";
     Approval.TOOL_NOTEBOOK_EDIT := "NotebookEdit";
     Approval.TOOL_READ := "Read";
     Approval.TOOL_WRITE := "Write" |}.

(** Stand-ins for [JSON.stringify] and the template literal; the examples
    name no tool outside the table. *)
Definition stringify (v : JValue) : string := "{}".
Definition display (v : option JValue) : string :=
  match v with Some (JStr s) => s | _ => "undefined" end.

(** The manager of the service, with settings that can be saved. *)
Definition manager : @Approval.ApprovalManager (list Approval.Permission) :=
  Approval.serviceApprovalManager (fun _ => true).

Definition readNote : JObject := [("file_path", JStr "/vault/notes/a.md")].
Definition gitStatus : JObject := [("command", JStr "  git status ")].

End ApprovalExample.

(** The call-back of the manager stores the action it is given among the
    permanent approvals. *)
Definition Persists {H : Type} (m : @Approval.ApprovalManager H) : Prop :=
  ∃ callback, Approval.persistCallback m = Some callback
    ∧ ∀ action h, action ∈ Approval.getPermanentApprovals m (Approval.hostOf (callback action h)).

(* ===================================================================== *)
(** ** More of ClaudianSettingsStorage and StorageService *)
(* ===================================================================== *)

Definition ACTIVE_CONVERSATION_ID := "activeConversationId".
Definition TAB_MANAGER_STATE := "tabManagerState".

(** [TabManagerPersistedState] *)
Record TabEntry := {
  tabId : string;
  conversationId : option string;
}.

Record TabManagerPersistedState := {
  openTabs : list TabEntry;
  activeTabId : option string;
}.

(** A value of type [string | null] in JSON. *)
Definition nullableString (v : option string) : JValue :=
  match v with Some s => JStr s | None => JNull end.

(** The state as the host serialises it. *)
Definition tabEntryJson (tab : TabEntry) : JValue :=
  JObj [("tabId", JStr (tabId tab)); ("conversationId", nullableString (conversationId tab))].

Definition tabManagerStateJson (state : TabManagerPersistedState) : JValue :=
  JObj [("openTabs", JArr (tabEntryJson <$> openTabs state));
        ("activeTabId", nullableString (activeTabId state))].

(** [typeof v === 'string' ? v : null] *)
Definition stringOrNull (v : option JValue) : option string :=
  match v with Some (JStr s) => Some s | _ => None end.

(** One round of the loop of [validateTabManagerState]: an entry that is no
    object, or whose [tabId] is no string, is skipped. *)
Definition validateTab (tab : JValue) : option TabEntry :=
  match tab with
  | JObj _ | JArr _ =>
      match prop "tabId" tab with
      | Some (JStr id) =>
          Some {| tabId := id; conversationId := stringOrNull (prop "conversationId" tab) |}
      | _ => None
      end
  | _ => None
  end.

(** [validateTabManagerState(data)] *)
Definition validateTabManagerState (value : JValue) : option TabManagerPersistedState :=
  match value with
  | JObj _ | JArr _ =>
      match prop "openTabs" value with
      | Some (JArr tabs) =>
          Some {| openTabs := omap validateTab tabs;
                  activeTabId := stringOrNull (prop "activeTabId" value) |}
      | _ => None
      end
  | _ => None
  end.

(** [plugin.loadData()].  A host without data resolves to [null], or
    rejects when [data.json] cannot be read ([rejects]). *)
Definition loadData (rejects : bool) : M (option JValue) :=
  fun s => match data s with
           | Some v => Ok (Some v) s
           | None => if rejects then Throw SyntaxError s else Ok None s
           end.

(** [getTabManagerState()] *)
Definition getTabManagerState (rejects : bool) : M (option TabManagerPersistedState) :=
  tryCatch
    (loaded <- loadData rejects ;;
     match loaded with
     | Some d =>
         match prop TAB_MANAGER_STATE d with
         | Some state => if truthy state then ret (validateTabManagerState state) else ret None
         | None => ret None
         end
     | None => ret None
     end)
    (ret None).

(** [setTabManagerState(state)].  The assignment [data.tabManagerState =
    state] sets the property of an object; on an array it sets a property
    that the serialisation of the array leaves out; on a number, a string or
    [true] it throws in the strict mode of a class body.  Every error is
    caught and logged. *)
Definition setTabManagerState (rejects : bool) (state : TabManagerPersistedState) : M unit :=
  tryCatch
    (loaded <- loadData rejects ;;
     let d := match loaded with
              | Some v => if truthy v then v else JObj []
              | None => JObj []
              end in
     match d with
     | JObj o => saveData (JObj (Obj.set TAB_MANAGER_STATE (tabManagerStateJson state) o))
     | JArr l => saveData (JArr l)
     | _ => throw TypeError
     end)
    (ret tt).

Section MoreStorage.
Variable cfg : Config.

(** [claudianSettings.update(updates)].  A property of [updates] may hold
    [undefined] ([None]); the spread copies it, and [JSON.stringify] leaves
    the property out. *)
Definition claudianUpdate (updates : list (string * option JValue)) : M unit :=
  current <- claudianLoad cfg ;;
  claudianSave cfg
    (literal (Obj.spread ((fun kv => (kv.1, Some kv.2)) <$> current) updates)).

(** [claudianSettings.setLastModel(model, isCustom)] *)
Definition claudianSetLastModel (model : string) (isCustom : bool) : M unit :=
  if isCustom then claudianUpdate [("lastCustomModel", Some (JStr model))]
  else claudianUpdate [("lastClaudeModel", Some (JStr model))].

(** [claudianSettings.setLastEnvHash(hash)] *)
Definition claudianSetLastEnvHash (hash : string) : M unit :=
  claudianUpdate [("lastEnvHash", Some (JStr hash))].

(** [claudianSettings.getLegacyActiveConversationId()] *)
Definition claudianGetLegacyActiveConversationId : M (option string) :=
  present <- adapterExists CLAUDIAN_SETTINGS_PATH ;;
  if negb present then ret None
  else
    content <- adapterRead CLAUDIAN_SETTINGS_PATH ;;
    stored <- jsonParse content ;;
    match stored with
    | JNull => throw TypeError
    | _ => ret (stringOrNull (prop ACTIVE_CONVERSATION_ID stored))
    end.

(** [claudianSettings.clearLegacyActiveConversationId()].  The operator
    [in] throws on a value that is no object. *)
Definition claudianClearLegacyActiveConversationId : M unit :=
  present <- adapterExists CLAUDIAN_SETTINGS_PATH ;;
  if negb present then ret tt
  else
    content <- adapterRead CLAUDIAN_SETTINGS_PATH ;;
    stored <- jsonParse content ;;
    match stored with
    | JObj o =>
        if bool_decide (Obj.get ACTIVE_CONVERSATION_ID o = None) then ret tt
        else adapterWrite cfg CLAUDIAN_SETTINGS_PATH
               (Json (JObj (Obj.del ACTIVE_CONVERSATION_ID o)))
    | JArr _ => ret tt
    | _ => throw TypeError
    end.

(** The end of [storage.getLegacyActiveConversationId()]: the identifier
    the blob holds, when it is a string. *)
Definition legacyIdOfDataJson : M (option string) :=
  dataJson <- loadDataJson ;;
  match dataJson with
  | Some d => ret (stringOrNull (prop ACTIVE_CONVERSATION_ID d))
  | None => ret None
  end.

(** [storage.getLegacyActiveConversationId()] *)
Definition getLegacyActiveConversationId : M (option string) :=
  fromSettings <- claudianGetLegacyActiveConversationId ;;
  match fromSettings with
  | Some id => if negb (Js.isEmpty id) then ret (Some id) else legacyIdOfDataJson
  | None => legacyIdOfDataJson
  end.

(** [storage.clearLegacyActiveConversationId()] *)
Definition clearLegacyActiveConversationId : M unit :=
  claudianClearLegacyActiveConversationId ;;;
  dataJson <- loadDataJson ;;
  match dataJson with
  | None => ret tt
  | Some (JObj o) =>
      if bool_decide (Obj.get ACTIVE_CONVERSATION_ID o = None) then ret tt
      else saveData (JObj (Obj.del ACTIVE_CONVERSATION_ID o))
  | Some (JArr _) => ret tt
  | Some _ => throw TypeError
  end.

(** [storage.updateClaudianSettings], [saveClaudianSettings] and
    [loadClaudianSettings] hand over to the settings storage. *)
Definition updateClaudianSettings (updates : list (string * option JValue)) : M unit :=
  claudianUpdate updates.
Definition saveClaudianSettings (settings : JObject) : M unit := claudianSave cfg settings.
Definition loadClaudianSettings : M JObject := claudianLoad cfg.

End MoreStorage.

(* ===================================================================== *)
(** ** utils/env: the environment text and the models it names *)
(* ===================================================================== *)

Module Env.

Definition CR : ascii := ascii_of_nat 13.
Definition DOUBLE_QUOTE : ascii := ascii_of_nat 34.
Definition SINGLE_QUOTE : ascii := ascii_of_nat 39.

(** A carriage return at the end of a piece belongs to the separator
    [/\r?\n/] that follows the piece. *)
Fixpoint dropLastCR (s : string) : string :=
  match s with
  | EmptyString => EmptyString
  | String c EmptyString => if bool_decide (c = CR) then EmptyString else s
  | String c r => String c (dropLastCR r)
  end.

Fixpoint withoutSeparators (pieces : list string) : list string :=
  match pieces with
  | [] => []
  | [x] => [x]
  | x :: r => dropLastCR x :: withoutSeparators r
  end.

(** [input.split(/\r?\n/)] *)
Definition splitLineBreaks (input : string) : list string :=
  withoutSeparators (Js.splitLines input).

(** [value.slice(1, -1)] *)
Definition sliceInner (value : string) : string :=
  substring 1 (String.length value - 2) value.

(** The surrounding quotes of a value, single or double, are stripped. *)
Definition unquote (value : string) : string :=
  if (Js.startsWithChar DOUBLE_QUOTE value && Str.endsWithChar value DOUBLE_QUOTE)
     || (Js.startsWithChar SINGLE_QUOTE value && Str.endsWithChar value SINGLE_QUOTE)
  then sliceInner value
  else value.

(** One round of the loop of [parseEnvironmentVariables]. *)
Definition parseLine (line : string) : option (string * string) :=
  let trimmed := Js.trim line in
  if Js.isEmpty trimmed || Js.startsWithChar "#" trimmed then None
  else match Js.indexOf "=" trimmed with
       | Some (S i) =>
           let key := Js.trim (Js.sliceTo (S i) trimmed) in
           let value := unquote (Js.trim (Js.sliceFrom (S (S i)) trimmed)) in
           if Js.isEmpty key then None else Some (key, value)
       | _ => None
       end.

(** The assignment [result[key] = value] stores nothing under
    [__proto__]. *)
Definition setLine (result : list (string * string)) (line : string)
  : list (string * string) :=
  match parseLine line with
  | Some (key, value) =>
      if bool_decide (key = Js.PROTO) then result else Obj.set key value result
  | None => result
  end.

(** [parseEnvironmentVariables(input)]; the record is read by key only. *)
Definition parseEnvironmentVariables (input : string) : list (string * string) :=
  fold_left setLine (splitLineBreaks input) [].

(** [envVars[key]] where the code tests it for truth: an empty value
    counts as absent. *)
Definition truthyVar (envVars : list (string * string)) (key : string) : option string :=
  match Obj.get key envVars with
  | Some v => if Js.isEmpty v then None else Some v
  | None => None
  end.

Definition ANTHROPIC_MODEL := "ANTHROPIC_MODEL".
Definition ANTHROPIC_DEFAULT_OPUS_MODEL := "ANTHROPIC_DEFAULT_OPUS_MODEL".
Definition ANTHROPIC_DEFAULT_SONNET_MODEL := "ANTHROPIC_DEFAULT_SONNET_MODEL".
Definition ANTHROPIC_DEFAULT_HAIKU_MODEL := "ANTHROPIC_DEFAULT_HAIKU_MODEL".
Definition ANTHROPIC_BASE_URL := "ANTHROPIC_BASE_URL".

(** [getCurrentModelFromEnvironment(envVars)] *)
Definition getCurrentModelFromEnvironment (envVars : list (string * string)) : option string :=
  match truthyVar envVars ANTHROPIC_MODEL with
  | Some m => Some m
  | None =>
      match truthyVar envVars ANTHROPIC_DEFAULT_HAIKU_MODEL with
      | Some m => Some m
      | None =>
          match truthyVar envVars ANTHROPIC_DEFAULT_SONNET_MODEL with
          | Some m => Some m
          | None => truthyVar envVars ANTHROPIC_DEFAULT_OPUS_MODEL
          end
      end
  end.

Inductive ModelType : Type := model | opus | sonnet | haiku.

Definition typeName (t : ModelType) : string :=
  match t with
  | model => "model" | opus => "opus" | sonnet => "sonnet" | haiku => "haiku"
  end.

Definition typePriority (t : ModelType) : nat :=
  match t with
  | model => 4 | haiku => 3 | sonnet => 2 | opus => 1
  end.

Definition modelEnvEntries : list (ModelType * string) :=
  [ (model, ANTHROPIC_MODEL);
    (opus, ANTHROPIC_DEFAULT_OPUS_MODEL);
    (sonnet, ANTHROPIC_DEFAULT_SONNET_MODEL);
    (haiku, ANTHROPIC_DEFAULT_HAIKU_MODEL) ].

(** [\w] *)
Definition isWordChar (c : ascii) : bool :=
  let n := nat_of_ascii c in
  (Nat.leb 48 n && Nat.leb n 57) || (Nat.leb 65 n && Nat.leb n 90)
  || (Nat.leb 97 n && Nat.leb n 122) || Nat.eqb n 95.

Definition toUpperCase (c : ascii) : ascii :=
  let n := nat_of_ascii c in
  if Nat.leb 97 n && Nat.leb n 122 then ascii_of_nat (n - 32) else c.

(** [s.replace(/-/g, ' ')] *)
Fixpoint dashesToSpaces (s : string) : string :=
  match s with
  | EmptyString => EmptyString
  | String c r => String (if bool_decide (c = "-"%char) then " "%char else c) (dashesToSpaces r)
  end.

(** [s.replace(/\b\w/g, l => l.toUpperCase())]: a word character that
    follows no word character is put in upper case. *)
Fixpoint capitalizeWords (afterWord : bool) (s : string) : string :=
  match s with
  | EmptyString => EmptyString
  | String c r =>
      String (if isWordChar c && negb afterWord then toUpperCase c else c)
        (capitalizeWords (isWordChar c) r)
  end.

(** [s.split('/').pop()] *)
Fixpoint lastSegment (s : string) : string :=
  match s with
  | EmptyString => EmptyString
  | String c r =>
      if hasChar "/" r then lastSegment r
      else if bool_decide (c = "/"%char) then r
      else s
  end.

(** The label of a model value. *)
Definition modelLabel (modelValue : string) : string :=
  if hasChar "/" modelValue then
    (if Js.isEmpty (lastSegment modelValue) then modelValue else lastSegment modelValue)
  else capitalizeWords false (dashesToSpaces modelValue).

Record ModelInfo := {
  types : list ModelType;
  infoLabel : string;
}.

Record ModelOption := {
  value : string;
  label : string;
  description : string;
}.

(** One round of the loop that fills [modelMap]. *)
Definition addModel (envVars : list (string * string))
    (modelMap : list (string * ModelInfo)) (entry : ModelType * string)
  : list (string * ModelInfo) :=
  match truthyVar envVars entry.2 with
  | Some modelValue =>
      match Obj.get modelValue modelMap with
      | None =>
          Obj.set modelValue {| types := [entry.1]; infoLabel := modelLabel modelValue |} modelMap
      | Some info =>
          Obj.set modelValue
            {| types := types info ++ [entry.1]; infoLabel := infoLabel info |} modelMap
      end
  | None => modelMap
  end.

(** [Array.prototype.sort] with a comparator that orders by a number,
    largest first.  The sort is stable, so the result is the one
    arrangement in which the numbers fall and equal numbers keep their
    order: each element goes behind the elements that are not smaller. *)
Fixpoint insertDescending {A} (priority : A -> nat) (x : A) (sorted : list A) : list A :=
  match sorted with
  | [] => [x]
  | y :: r =>
      if Nat.ltb (priority y) (priority x) then x :: sorted
      else y :: insertDescending priority x r
  end.

Definition sortDescending {A} (priority : A -> nat) (l : list A) : list A :=
  fold_left (fun sorted x => insertDescending priority x sorted) l [].

(** [Math.max(...types.map(t => typePriority[t] || 0))] of a list that is
    not empty. *)
Definition maxPriority (ts : list ModelType) : nat :=
  foldr Nat.max 0 (typePriority <$> ts).

(** [types.join(', ')] *)
Fixpoint joinTypes (ts : list ModelType) : string :=
  match ts with
  | [] => EmptyString
  | [t] => typeName t
  | t :: r => typeName t ++ ", " ++ joinTypes r
  end.

(** [getModelsFromEnvironment(envVars)] *)
Definition getModelsFromEnvironment (envVars : list (string * string)) : list ModelOption :=
  let modelMap := fold_left (addModel envVars) modelEnvEntries [] in
  let sortedEntries := sortDescending (fun entry => maxPriority (types entry.2)) modelMap in
  (fun entry : string * ModelInfo =>
     let sortedTypes := sortDescending typePriority (types entry.2) in
     {| value := entry.1;
        label := infoLabel entry.2;
        description := "Custom model (" ++ joinTypes sortedTypes ++ ")" |}) <$> sortedEntries.

End Env.

(* ===================================================================== *)
(** ** main: the plugin as the caller of the storage *)
(* ===================================================================== *)

Module Main.

Inductive Role : Type := user | assistant.

(** The fields of [ImageAttachment], [ChatMessage] and [Conversation] that
    the plugin reads or writes here. *)
Record ImageAttachment := {
  cachePath : option string;
}.

Record ChatMessage := {
  role : Role;
  timestamp : Z;
  images : option (list ImageAttachment);
}.

Record Conversation := {
  id : string;
  lastResponseAt : option Z;
  sessionId : option string;
  messages : list ChatMessage;
}.

(** [getPreferredCustomModel(envVars, customModels)], for a list that is
    not empty; [None] stands for the error of reading [customModels[0]]
    in an empty list. *)
Definition getPreferredCustomModel (envVars : list (string * string))
    (customModels : list Env.ModelOption) : option string :=
  match Env.getCurrentModelFromEnvironment envVars with
  | Some envPreferred =>
      if existsb (fun m => bool_decide (Env.value m = envPreferred)) customModels
      then Some envPreferred
      else Env.value <$> head customModels
  | None => Env.value <$> head customModels
  end.

(** [a < b] on strings, by code unit. *)
Fixpoint stringLt (a b : string) : bool :=
  match a, b with
  | _, EmptyString => false
  | EmptyString, String _ _ => true
  | String x a', String y b' =>
      if Nat.ltb (nat_of_ascii x) (nat_of_ascii y) then true
      else if Nat.ltb (nat_of_ascii y) (nat_of_ascii x) then false
      else stringLt a' b'
  end.

(** [Array.prototype.sort()] of strings: each element goes behind the
    elements that are not greater. *)
Fixpoint insertString (x : string) (sorted : list string) : list string :=
  match sorted with
  | [] => [x]
  | y :: r => if stringLt x y then x :: sorted else y :: insertString x r
  end.

Definition sortStrings (l : list string) : list string :=
  fold_left (fun sorted x => insertString x sorted) l [].

(** [parts.join('|')] *)
Fixpoint joinBar (l : list string) : string :=
  match l with
  | [] => EmptyString
  | [x] => x
  | x :: r => x ++ "|" ++ joinBar r
  end.

Definition HASH_KEYS : list string :=
  [ Env.ANTHROPIC_MODEL; Env.ANTHROPIC_DEFAULT_OPUS_MODEL;
    Env.ANTHROPIC_DEFAULT_SONNET_MODEL; Env.ANTHROPIC_DEFAULT_HAIKU_MODEL;
    Env.ANTHROPIC_BASE_URL ].

(** [computeEnvHash(envText)] *)
Definition computeEnvHash (envText : string) : string :=
  let envVars := Env.parseEnvironmentVariables envText in
  joinBar (sortStrings
             (omap (fun key => match Env.truthyVar envVars key with
                               | Some v => Some (key ++ "=" ++ v)
                               | None => None
                               end) HASH_KEYS)).

(** The loop of [reconcileModelWithEnvironment] over the conversations:
    the session of each is cleared, and the conversations that had one are
    collected. *)
Definition clearSession (conv : Conversation) : Conversation :=
  {| id := id conv; lastResponseAt := lastResponseAt conv;
     sessionId := None; messages := messages conv |}.

Definition hasSession (conv : Conversation) : bool :=
  match sessionId conv with
  | Some sid => negb (Js.isEmpty sid)
  | None => false
  end.

Record Reconciled := {
  changed : bool;
  invalidatedConversations : list Conversation;
  settingsAfter : JObject;
  conversationsAfter : list Conversation;
}.

(** [reconcileModelWithEnvironment(envText)] on the settings and the
    conversations of the plugin; [defaultModel] is
    [DEFAULT_CLAUDE_MODELS[0].value].  The call [clearDiffState()] concerns
    the view and is left out. *)
Definition reconcileModelWithEnvironment (defaultModel : string) (envText : string)
    (settings : JObject) (conversations : list Conversation) : Reconciled :=
  let currentHash := computeEnvHash envText in
  let savedHash :=
    match Obj.get "lastEnvHash" settings with
    | Some v => if truthy v then v else JStr ""
    | None => JStr ""
    end in
  let unchanged :=           (* currentHash === savedHash *)
    match savedHash with
    | JStr saved => bool_decide (currentHash = saved)
    | _ => false
    end in
  if unchanged then
    {| changed := false; invalidatedConversations := [];
       settingsAfter := settings; conversationsAfter := conversations |}
  else
    let envVars := Env.parseEnvironmentVariables envText in
    let customModels := Env.getModelsFromEnvironment envVars in
    let chosen :=
      match customModels with
      | [] => Some defaultModel
      | _ => getPreferredCustomModel envVars customModels
      end in
    let withModel :=
      match chosen with
      | Some m => Obj.set "model" (JStr m) settings
      | None => settings
      end in
    {| changed := true;
       invalidatedConversations := clearSession <$> filter (fun c => hasSession c = true) conversations;
       settingsAfter := Obj.set "lastEnvHash" (JStr currentHash) withModel;
       conversationsAfter :=
         (fun c => if hasSession c then clearSession c else c) <$> conversations |}.

(** [if (!set.has(x)) set.add(x)] on a [Set] in insertion order. *)
Definition setAdd (set : list string) (x : string) : list string :=
  if bool_decide (x ∈ set) then set else (set ++ [x])%list.

(** The cache paths of the images of a conversation, [img.cachePath]
    where it is not empty, in the order of the messages. *)
Definition imagePaths (conv : Conversation) : list string :=
  mjoin ((fun message =>
            match images message with
            | Some imgs =>
                omap (fun img => match cachePath img with
                                 | Some p => if Js.isEmpty p then None else Some p
                                 | None => None
                                 end) imgs
            | None => []
            end) <$> messages conv).

(** [cleanupConversationImages(conversation)]: the paths handed to
    [deleteCachedImages]; the empty list stands for no call. *)
Definition cleanupConversationImages (conversations : list Conversation)
    (conversation : Conversation) : list string :=
  let cachePaths := fold_left setAdd (imagePaths conversation) [] in
  let inUseElsewhere :=
    fold_left
      (fun inUse conv =>
         if bool_decide (id conv = id conversation) then inUse
         else fold_left
                (fun inUse' p => if bool_decide (p ∈ cachePaths) then setAdd inUse' p else inUse')
                (imagePaths conv) inUse)
      conversations [] in
  filter (fun p => p ∉ inUseElsewhere) cachePaths.

(** The inner loop of [backfillConversationResponseTimestamps]: the
    time stamp of the last message of the assistant. *)
Definition isAssistant (message : ChatMessage) : bool :=
  match role message with assistant => true | user => false end.

Definition lastAssistantTimestamp (msgs : list ChatMessage) : option Z :=
  timestamp <$> head (filter (fun m => isAssistant m = true) (reverse msgs)).

(** One round of the outer loop: the conversation after it, and whether it
    was updated. *)
Definition backfill (conv : Conversation) : Conversation * bool :=
  match lastResponseAt conv with
  | Some _ => (conv, false)
  | None =>
      match lastAssistantTimestamp (messages conv) with
      | Some t =>
          ({| id := id conv; lastResponseAt := Some t;
              sessionId := sessionId conv; messages := messages conv |}, true)
      | None => (conv, false)
      end
  end.

(** [backfillConversationResponseTimestamps()]: the conversations after
    it, and the list [updated] it returns. *)
Definition backfillConversationResponseTimestamps (conversations : list Conversation)
  : list Conversation * list Conversation :=
  (fst <$> (backfill <$> conversations),
   fst <$> filter (fun r => r.2 = true) (backfill <$> conversations)).

End Main.

(** The pairs that [computeEnvHash] joins. *)
Definition hashPairs (envVars : list (string * string)) : list string :=
  omap (fun key => match Env.truthyVar envVars key with
                   | Some v => Some (key ++ "=" ++ v)
                   | None => None
                   end) Main.HASH_KEYS.

(* ===================================================================== *)
(** ** Objects: reading after writing *)
(* ===================================================================== *)

Section ObjFacts.
Context {V : Type}.
Implicit Types (o a b : list (string * V)) (k : string) (v : V).

Lemma get_set_eq k v o : Obj.get k (Obj.set k v o) = Some v.
Proof.
  induction o as [|[k' v'] r IH]; simpl.
  - by rewrite bool_decide_true.
  - destruct (decide (k = k')) as [->|Hne].
    + rewrite bool_decide_true by done. simpl. by rewrite bool_decide_true.
    + rewrite bool_decide_false by done. simpl. by rewrite bool_decide_false.
Qed.

Lemma get_set_ne k k' v o : k ≠ k' → Obj.get k (Obj.set k' v o) = Obj.get k o.
Proof.
  intros Hne. induction o as [|[k2 v2] r IH]; simpl.
  - by rewrite bool_decide_false.
  - destruct (decide (k' = k2)) as [->|Hne2].
    + rewrite bool_decide_true by done. simpl. by rewrite !bool_decide_false.
    + rewrite bool_decide_false by done. simpl. by rewrite IH.
Qed.

Lemma get_set k k' v o :
  Obj.get k (Obj.set k' v o) = if decide (k = k') then Some v else Obj.get k o.
Proof.
  destruct (decide (k = k')) as [->|Hne]; [apply get_set_eq | by apply get_set_ne].
Qed.

Lemma del_filter k o : Obj.del k o = filter (fun kv => kv.1 ≠ k) o.
Proof. done. Qed.

Lemma get_del_eq k o : Obj.get k (Obj.del k o) = None.
Proof.
  unfold Obj.del. induction o as [|[k' v'] r IH]; [done|].
  rewrite filter_cons. simpl. destruct (decide (k' ≠ k)) as [Hne|Heq]; [|done].
  simpl. by rewrite bool_decide_false.
Qed.

Lemma get_del_ne k k' o : k ≠ k' → Obj.get k (Obj.del k' o) = Obj.get k o.
Proof.
  intros Hne. unfold Obj.del. induction o as [|[k2 v2] r IH]; [done|].
  rewrite filter_cons. simpl. destruct (decide (k2 ≠ k')) as [Hne2|Heq].
  - simpl. by rewrite IH.
  - apply dec_stable in Heq as ->. by rewrite bool_decide_false.
Qed.

Lemma get_None_keys k o : Obj.get k o = None ↔ k ∉ Obj.keys o.
Proof.
  unfold Obj.keys. induction o as [|[k' v'] r IH]; simpl.
  - split; [intros _; apply not_elem_of_nil | done].
  - rewrite not_elem_of_cons. destruct (decide (k = k')) as [->|Hne].
    + rewrite bool_decide_true by done. split; [done | intros [? _]; done].
    + rewrite bool_decide_false by done. rewrite IH. tauto.
Qed.

Lemma keys_set k v o :
  Obj.keys (Obj.set k v o) = if decide (k ∈ Obj.keys o) then Obj.keys o else (Obj.keys o ++ [k])%list.
Proof.
  unfold Obj.keys. induction o as [|[k' v'] r IH].
  - destruct (decide (k ∈ [].*1)) as [Hin|Hin]; [by apply elem_of_nil in Hin | done].
  - cbn [Obj.set]. destruct (decide (k = k')) as [->|Hne].
    + rewrite bool_decide_true by done.
      rewrite !fmap_cons. simpl.
      destruct (decide (k' ∈ k' :: r.*1)) as [Hin|Hin]; [done|].
      exfalso. apply Hin. apply elem_of_cons; by left.
    + rewrite bool_decide_false by done. rewrite !fmap_cons, IH. simpl.
      destruct (decide (k ∈ r.*1)) as [Hin|Hin]; destruct (decide (k ∈ k' :: r.*1)) as [Hin'|Hin']; try done.
      * exfalso. apply Hin'. apply elem_of_cons; by right.
      * exfalso. apply elem_of_cons in Hin' as [?|?]; done.
Qed.

Lemma NoDup_keys_set k v o : NoDup (Obj.keys o) → NoDup (Obj.keys (Obj.set k v o)).
Proof.
  intros Hnd. rewrite keys_set. destruct (decide (k ∈ Obj.keys o)); [done|].
  apply NoDup_app. split_and!; [done | | by apply NoDup_singleton].
  intros x Hx Hx'. apply list_elem_of_singleton in Hx' as ->. done.
Qed.

Lemma get_spread k a b :
  Obj.get k (Obj.spread a b) =
    match Obj.get k (Obj.spread [] b) with Some v => Some v | None => Obj.get k a end.
Proof.
  unfold Obj.spread. revert a. induction b as [|[kb vb] b IH] using rev_ind; intros a.
  - done.
  - rewrite !fold_left_app. simpl. rewrite !get_set.
    destruct (decide (k = kb)); [done | apply IH].
Qed.

Lemma get_spread_is_Some k a b :
  is_Some (Obj.get k a) → is_Some (Obj.get k (Obj.spread a b)).
Proof.
  intros Ha. rewrite get_spread. destruct (Obj.get k (Obj.spread [] b)); [by eexists | done].
Qed.
End ObjFacts.

(* ===================================================================== *)
(** ** White space and trimming *)
(* ===================================================================== *)

Lemma append_nil (s : string) : "" ++ s = s.
Proof. reflexivity. Qed.

Lemma append_cons (c : ascii) (a b : string) : String c a ++ b = String c (a ++ b).
Proof. reflexivity. Qed.

Ltac unfold_append := rewrite ?append_cons, ?append_nil.

Lemma append_assoc (a b c : string) : (a ++ b) ++ c = a ++ (b ++ c).
Proof. induction a as [|x a IH]; unfold_append; [done | by rewrite IH]. Qed.

Lemma append_empty_r (a : string) : a ++ "" = a.
Proof. induction a as [|x a IH]; unfold_append; [done | by rewrite IH]. Qed.

Lemma append_length (a b : string) :
  String.length (a ++ b) = (String.length a + String.length b)%nat.
Proof. induction a as [|x a IH]; unfold_append; simpl; [done | by rewrite IH]. Qed.

Lemma append_inv_l (p r1 r2 : string) : p ++ r1 = p ++ r2 → r1 = r2.
Proof. induction p as [|x p IH]; unfold_append; [done|]. intros Heq. injection Heq as Heq. by apply IH. Qed.

Lemma append_eq_nil (a b : string) : a ++ b = "" → a = "" ∧ b = "".
Proof. destruct a; unfold_append; [done | discriminate]. Qed.

Lemma hasChar_app (c : ascii) (a b : string) :
  hasChar c (a ++ b) = hasChar c a || hasChar c b.
Proof. induction a as [|d a IH]; unfold_append; simpl; [done|]. by rewrite IH, orb_assoc. Qed.

(** Two prefixes of one string: one of them is a prefix of the other. *)
Lemma append_eq_split (a b c d : string) :
  a ++ b = c ++ d → (∃ m, c = a ++ m ∧ b = m ++ d) ∨ (∃ m, a = c ++ m ∧ d = m ++ b).
Proof.
  revert c. induction a as [|x a IH]; intros c; unfold_append.
  - intros ->. left. by exists c.
  - destruct c as [|y c]; unfold_append.
    + intros <-. right. by exists (String x a).
    + intros [= -> Heq]. destruct (IH c Heq) as [(m & -> & ->)|(m & -> & ->)].
      * left. by exists m.
      * right. by exists m.
Qed.

Lemma stripPrefix_spec (p s r : string) : Js.stripPrefix p s = Some r ↔ s = p ++ r.
Proof.
  revert s. induction p as [|a p IH]; intros s; unfold_append; cbn [Js.stripPrefix].
  - split; [by intros [= ->] | by intros ->].
  - destruct s as [|b s]; [done|]. case_bool_decide as Hab.
    + subst b. rewrite IH. split; [by intros -> | by intros [= ->]].
    + split; [done | intros [= ? _]; by subst].
Qed.

Lemma stripFirst_Some (ws : list string) (s r : string) :
  Js.stripFirst ws s = Some r → ∃ w, w ∈ ws ∧ s = w ++ r.
Proof.
  induction ws as [|w ws IH]; cbn [Js.stripFirst]; [done|].
  destruct (Js.stripPrefix w s) as [r'|] eqn:Hw.
  - intros [= <-]. apply stripPrefix_spec in Hw. exists w. split; [apply list_elem_of_here | done].
  - intros Hr. destruct (IH Hr) as (w' & Hin & Hs). exists w'. split; [by apply list_elem_of_further | done].
Qed.

Lemma stripFirst_None (ws : list string) (s : string) :
  Js.stripFirst ws s = None ↔ ∀ w r, w ∈ ws → s ≠ w ++ r.
Proof.
  induction ws as [|w ws IH]; cbn [Js.stripFirst].
  - split; [|done]. intros _ w r Hin. by apply elem_of_nil in Hin.
  - destruct (Js.stripPrefix w s) as [r'|] eqn:Hw.
    + split; [done|]. intros Hall. apply stripPrefix_spec in Hw.
      exfalso. by apply (Hall w r' (list_elem_of_here _ _)).
    + rewrite IH. split.
      * intros Hall w' r [->|Hin]%elem_of_cons; [|by apply Hall].
        intros Hs. apply stripPrefix_spec in Hs. congruence.
      * intros Hall w' r Hin. apply Hall. by apply list_elem_of_further.
Qed.

(** *** The table of white space *)

(** A character of white space is not empty. *)
Lemma whiteSpace_not_empty (w : string) : w ∈ Js.WHITE_SPACE → w ≠ "".
Proof.
  assert (Hall : forallb (fun w => negb (Js.isEmpty w)) Js.WHITE_SPACE = true) by reflexivity.
  rewrite forallb_forall in Hall. intros Hin ->.
  apply list_elem_of_In, Hall in Hin. done.
Qed.

(** No character of white space starts another one. *)
Lemma whiteSpace_prefix_free (w w' m : string) :
  w ∈ Js.WHITE_SPACE → w' ∈ Js.WHITE_SPACE → w' = w ++ m → m = "".
Proof.
  assert (Hall : forallb (fun w => forallb (fun w' =>
            match Js.stripPrefix w w' with Some m => Js.isEmpty m | None => true end)
          Js.WHITE_SPACE) Js.WHITE_SPACE = true) by (vm_compute; reflexivity).
  rewrite forallb_forall in Hall. intros Hw Hw' Heq.
  apply list_elem_of_In, Hall in Hw. rewrite forallb_forall in Hw.
  apply list_elem_of_In, Hw in Hw'. apply stripPrefix_spec in Heq. rewrite Heq in Hw'.
  by destruct m.
Qed.

(** The byte a character of white space starts with occurs in none of them
    behind the first byte: the characters are read off a text from either
    end. *)
Lemma whiteSpace_synchronised (w u v : string) (c : ascii) :
  w ∈ Js.WHITE_SPACE → w = u ++ String c v → u ≠ "" → startsWhiteSpace c = false.
Proof.
  assert (Hall : forallb (fun w =>
            match w with
            | String _ t => forallb (fun c => negb (startsWhiteSpace c)) (list_ascii_of_string t)
            | EmptyString => true
            end) Js.WHITE_SPACE = true) by (vm_compute; reflexivity).
  rewrite forallb_forall in Hall. intros Hw -> Hu.
  apply list_elem_of_In, Hall in Hw.
  destruct u as [|d u]; [done|]. rewrite append_cons in Hw.
  rewrite forallb_forall in Hw. apply negb_true_iff, Hw.
  clear. induction u as [|e u IH]; unfold_append; simpl; [by left | by right].
Qed.

Lemma startsWhiteSpace_head (w r : string) (c : ascii) :
  w ∈ Js.WHITE_SPACE → w = String c r → startsWhiteSpace c = true.
Proof.
  intros Hw ->. unfold startsWhiteSpace. apply existsb_exists.
  exists (String c r). split; [by apply list_elem_of_In | by apply bool_decide_eq_true].
Qed.

Lemma inWhiteSpace_elem (w : string) (c : ascii) :
  w ∈ Js.WHITE_SPACE → hasChar c w = true → inWhiteSpace c = true.
Proof.
  intros Hw Hc. unfold inWhiteSpace. apply existsb_exists. exists w.
  split; [by apply list_elem_of_In | done].
Qed.

(** *** White space only *)

Lemma WhiteSpaceOnly_one (w : string) : w ∈ Js.WHITE_SPACE → WhiteSpaceOnly w.
Proof.
  intros Hw. rewrite <- (append_empty_r w). apply WhiteSpaceOnly_cons; [done | constructor].
Qed.

Lemma WhiteSpaceOnly_app (a b : string) :
  WhiteSpaceOnly a → WhiteSpaceOnly b → WhiteSpaceOnly (a ++ b).
Proof.
  intros Ha Hb. induction Ha as [|w r Hw Hr IH]; [done|].
  rewrite append_assoc. by constructor.
Qed.

Lemma WhiteSpaceOnly_hasChar (s : string) (c : ascii) :
  WhiteSpaceOnly s → hasChar c s = true → inWhiteSpace c = true.
Proof.
  intros Hs. induction Hs as [|w r Hw Hr IH]; [done|].
  rewrite hasChar_app, orb_true_iff. intros [Hc|Hc]; [by eapply inWhiteSpace_elem | by apply IH].
Qed.

Lemma WhiteSpaceOnly_head (s r : string) (c : ascii) :
  WhiteSpaceOnly s → s = String c r → startsWhiteSpace c = true.
Proof.
  intros Hs. revert r. induction Hs as [|w r' Hw Hr IH]; intros r; [done|].
  destruct w as [|d t]; [by apply whiteSpace_not_empty in Hw|].
  rewrite append_cons. intros [= -> _]. by eapply startsWhiteSpace_head.
Qed.

(** *** Taking white space from the start *)

Lemma stripWhiteSpace_Some (s r : string) :
  Js.stripWhiteSpace s = Some r → ∃ w, w ∈ Js.WHITE_SPACE ∧ s = w ++ r.
Proof. apply stripFirst_Some. Qed.

Lemma stripWhiteSpace_None (s : string) :
  Js.stripWhiteSpace s = None ↔ ∀ w r, w ∈ Js.WHITE_SPACE → s ≠ w ++ r.
Proof. apply stripFirst_None. Qed.

Lemma stripWhiteSpace_shorter (s r : string) :
  Js.stripWhiteSpace s = Some r → (String.length r < String.length s)%nat.
Proof.
  intros (w & Hw & ->)%stripWhiteSpace_Some. rewrite append_length.
  apply whiteSpace_not_empty in Hw. destruct w; [done | simpl; lia].
Qed.

Lemma stripWhiteSpace_whiteSpace (w r : string) :
  w ∈ Js.WHITE_SPACE → Js.stripWhiteSpace (w ++ r) = Some r.
Proof.
  intros Hw. destruct (Js.stripWhiteSpace (w ++ r)) as [r'|] eqn:Hs.
  - apply stripWhiteSpace_Some in Hs as (w' & Hw' & Heq). f_equal.
    apply append_eq_split in Heq as [(m & -> & ->)|(m & -> & ->)].
    + by rewrite (whiteSpace_prefix_free w (w ++ m) m).
    + by rewrite (whiteSpace_prefix_free w' (w' ++ m) m).
  - exfalso. rewrite stripWhiteSpace_None in Hs. by apply (Hs w r).
Qed.

Lemma trimStartWithin_enough (n m : nat) (s : string) :
  (String.length s ≤ n)%nat → (String.length s ≤ m)%nat →
  Js.trimStartWithin n s = Js.trimStartWithin m s.
Proof.
  revert m s. induction n as [|n IH]; intros m s Hn Hm.
  - destruct s; [|simpl in Hn; lia]. by destruct m.
  - destruct m as [|m].
    + destruct s; [done | simpl in Hm; lia].
    + cbn [Js.trimStartWithin]. destruct (Js.stripWhiteSpace s) as [r|] eqn:Hs; [|done].
      apply stripWhiteSpace_shorter in Hs. apply IH; lia.
Qed.

Lemma trimStart_step (s : string) :
  Js.trimStart s =
    match Js.stripWhiteSpace s with Some r => Js.trimStart r | None => s end.
Proof.
  unfold Js.trimStart. destruct s as [|c s]; [done|].
  cbn [String.length Js.trimStartWithin].
  destruct (Js.stripWhiteSpace (String c s)) as [r|] eqn:Hs; [|done].
  apply stripWhiteSpace_shorter in Hs. simpl in Hs. apply trimStartWithin_enough; lia.
Qed.

(** Induction along the characters that [trimStart] takes. *)
Lemma trimStart_induction (P : string → string → Prop) :
  (∀ s, Js.stripWhiteSpace s = None → P s s) →
  (∀ s r, Js.stripWhiteSpace s = Some r → P r (Js.trimStart r) → P s (Js.trimStart r)) →
  ∀ s, P s (Js.trimStart s).
Proof.
  intros Hnone Hsome s. remember (String.length s) as n eqn:Hn. revert s Hn.
  induction n as [n IH] using lt_wf_ind. intros s ->.
  rewrite trimStart_step. destruct (Js.stripWhiteSpace s) as [r|] eqn:Hs; [|by apply Hnone].
  apply Hsome; [done|]. eapply IH; [|reflexivity]. by apply stripWhiteSpace_shorter.
Qed.

Lemma trimStart_decompose (s : string) :
  ∃ a, WhiteSpaceOnly a ∧ s = a ++ Js.trimStart s.
Proof.
  apply (trimStart_induction (fun s t => ∃ a, WhiteSpaceOnly a ∧ s = a ++ t)).
  - intros s0 _. exists "". split; [constructor | done].
  - intros s0 r (w & Hw & ->)%stripWhiteSpace_Some (a & Ha & Hr).
    exists (w ++ a). split; [by constructor|]. rewrite append_assoc. by rewrite <- Hr.
Qed.

Lemma trimStart_fixed (s : string) : Js.stripWhiteSpace (Js.trimStart s) = None.
Proof. by apply (trimStart_induction (fun _ t => Js.stripWhiteSpace t = None)). Qed.

Lemma trimStart_None (s : string) : Js.stripWhiteSpace s = None → Js.trimStart s = s.
Proof. intros Hs. by rewrite trimStart_step, Hs. Qed.

Lemma trimStart_idem (s : string) : Js.trimStart (Js.trimStart s) = Js.trimStart s.
Proof. apply trimStart_None, trimStart_fixed. Qed.

Lemma trimStart_length (s : string) : (String.length (Js.trimStart s) ≤ String.length s)%nat.
Proof.
  destruct (trimStart_decompose s) as (a & _ & Hs). rewrite Hs at 2.
  rewrite append_length. lia.
Qed.

Lemma trimStart_fixed_iff (s : string) : Js.trimStart s = s ↔ Js.stripWhiteSpace s = None.
Proof.
  split; [|apply trimStart_None]. intros Hs.
  destruct (Js.stripWhiteSpace s) as [r|] eqn:Hr; [|done]. exfalso.
  rewrite trimStart_step, Hr in Hs. apply stripWhiteSpace_shorter in Hr.
  pose proof (trimStart_length r) as Hlen. rewrite Hs in Hlen. lia.
Qed.

Lemma trimStart_whiteSpace (w r : string) :
  w ∈ Js.WHITE_SPACE → Js.trimStart (w ++ r) = Js.trimStart r.
Proof. intros Hw. by rewrite trimStart_step, stripWhiteSpace_whiteSpace. Qed.

Lemma trimStart_WhiteSpaceOnly (a r : string) :
  WhiteSpaceOnly a → Js.trimStart (a ++ r) = Js.trimStart r.
Proof.
  intros Ha. induction Ha as [|w a Hw Ha IH]; [done|].
  by rewrite append_assoc, trimStart_whiteSpace.
Qed.

Lemma trimStart_empty_iff (s : string) : Js.trimStart s = "" ↔ WhiteSpaceOnly s.
Proof.
  split.
  - intros Hs. destruct (trimStart_decompose s) as (a & Ha & Heq).
    rewrite Hs, append_empty_r in Heq. by subst.
  - intros Hs. rewrite <- (append_empty_r s). by rewrite trimStart_WhiteSpaceOnly.
Qed.

Lemma isEmpty_trimStart (s : string) : Js.isEmpty (Js.trimStart s) = true ↔ WhiteSpaceOnly s.
Proof. rewrite <- trimStart_empty_iff. by destruct (Js.trimStart s). Qed.

Lemma hasChar_trimStart (c : ascii) (s : string) :
  hasChar c s = false → hasChar c (Js.trimStart s) = false.
Proof.
  destruct (trimStart_decompose s) as (a & _ & Hs). rewrite Hs at 1.
  rewrite hasChar_app. by intros [_ ?]%orb_false_elim.
Qed.

(** *** Taking white space from the end *)

Lemma trimEnd_cons (c : ascii) (r : string) :
  Js.trimEnd (String c r) =
    if Js.isEmpty (Js.trimStart (String c r)) then "" else String c (Js.trimEnd r).
Proof. reflexivity. Qed.

Lemma trimEnd_WhiteSpaceOnly (s : string) : WhiteSpaceOnly s → Js.trimEnd s = "".
Proof.
  intros Hs. destruct s as [|c r]; [done|].
  rewrite trimEnd_cons. apply isEmpty_trimStart in Hs. by rewrite Hs.
Qed.

Lemma trimEnd_decompose (s : string) :
  ∃ b, WhiteSpaceOnly b ∧ s = Js.trimEnd s ++ b.
Proof.
  induction s as [|c r IH]; [exists ""; split; [constructor | done]|].
  rewrite trimEnd_cons. destruct (Js.isEmpty (Js.trimStart (String c r))) eqn:He.
  - exists (String c r). split; [by apply isEmpty_trimStart | done].
  - destruct IH as (b & Hb & Hr). exists b. split; [done|].
    rewrite append_cons. by rewrite <- Hr.
Qed.

Lemma hasChar_trimEnd (c : ascii) (s : string) :
  hasChar c s = false → hasChar c (Js.trimEnd s) = false.
Proof.
  destruct (trimEnd_decompose s) as (b & _ & Hs). rewrite Hs at 1.
  rewrite hasChar_app. by intros [? _]%orb_false_elim.
Qed.

Lemma trimEnd_head (c c' : ascii) (r r' : string) :
  Js.trimEnd (String c r) = String c' r' → c' = c.
Proof. rewrite trimEnd_cons. destruct (Js.isEmpty _); [done|]. by intros [= <- _]. Qed.

Lemma trimEnd_suffix (a b : string) : Js.trimEnd (a ++ b) = a ++ b → Js.trimEnd b = b.
Proof.
  induction a as [|c a IH]; unfold_append; [done|]. rewrite trimEnd_cons.
  destruct (Js.isEmpty _); [done|]. intros [= Heq]. by apply IH.
Qed.

(** A string that [trimEnd] leaves as it is does not end in white space. *)
Lemma trimEnd_fixed_suffix (a b : string) :
  Js.trimEnd (a ++ b) = a ++ b → b ≠ "" → ¬ WhiteSpaceOnly b.
Proof.
  intros Hfix Hb Hws. apply trimEnd_suffix in Hfix.
  rewrite trimEnd_WhiteSpaceOnly in Hfix by done. by subst.
Qed.

Lemma trimEnd_idem (s : string) : Js.trimEnd (Js.trimEnd s) = Js.trimEnd s.
Proof.
  induction s as [|c r IH]; [done|]. rewrite trimEnd_cons.
  destruct (Js.isEmpty (Js.trimStart (String c r))) eqn:He; [done|].
  rewrite trimEnd_cons, IH.
  destruct (Js.isEmpty (Js.trimStart (String c (Js.trimEnd r)))) eqn:He'; [|done].
  exfalso. apply isEmpty_trimStart in He'.
  destruct (trimEnd_decompose r) as (b & Hb & Hr).
  assert (Hall : WhiteSpaceOnly (String c r)).
  { rewrite Hr. rewrite <- append_cons. by apply WhiteSpaceOnly_app. }
  apply isEmpty_trimStart in Hall. congruence.
Qed.

(** *** Bytes that white space does not hold *)

Lemma stripWhiteSpace_sep (c : ascii) (k r : string) :
  inWhiteSpace c = false → Js.stripWhiteSpace k = None →
  Js.stripWhiteSpace (k ++ String c r) = None.
Proof.
  intros Hc Hk. apply stripWhiteSpace_None. intros w r' Hw Heq.
  rewrite stripWhiteSpace_None in Hk.
  apply append_eq_split in Heq as [(m & -> & Hm)|(m & -> & Hm)].
  - destruct m as [|d m].
    + rewrite append_empty_r in Hw. apply (Hk k "" Hw). by rewrite append_empty_r.
    + rewrite append_cons in Hm. injection Hm as <- _.
      assert (Hin : hasChar c (k ++ String c m) = true).
      { rewrite hasChar_app. cbn [hasChar]. rewrite bool_decide_true by done.
        by rewrite orb_true_r. }
      apply (inWhiteSpace_elem _ _ Hw) in Hin. congruence.
  - by apply (Hk w m Hw).
Qed.

Lemma trimStart_app_sep (c : ascii) (k r : string) :
  inWhiteSpace c = false → Js.trimStart k = k →
  Js.trimStart (k ++ String c r) = k ++ String c r.
Proof.
  intros Hc Hk. apply trimStart_None, stripWhiteSpace_sep; [done|].
  by apply trimStart_fixed_iff.
Qed.

Lemma trimEnd_app_sep (c : ascii) (a v : string) :
  inWhiteSpace c = false → Js.trimEnd v = v →
  Js.trimEnd (a ++ String c v) = a ++ String c v.
Proof.
  intros Hc Hv.
  assert (Hnot : ∀ a', Js.isEmpty (Js.trimStart (a' ++ String c v)) = false).
  { intros a'. destruct (Js.isEmpty _) eqn:He; [|done]. exfalso.
    apply isEmpty_trimStart in He.
    assert (Hin : hasChar c (a' ++ String c v) = true).
    { rewrite hasChar_app. cbn [hasChar]. rewrite bool_decide_true by done.
      by rewrite orb_true_r. }
    apply (WhiteSpaceOnly_hasChar _ _ He) in Hin. congruence. }
  induction a as [|d a IH]; unfold_append.
  - rewrite trimEnd_cons. pose proof (Hnot "") as Hne. rewrite append_nil in Hne.
    by rewrite Hne, Hv.
  - rewrite trimEnd_cons. pose proof (Hnot (String d a)) as Hne.
    rewrite append_cons in Hne. by rewrite Hne, IH.
Qed.

(** *** [trim] *)

Lemma trimStart_trim (s : string) : Js.trimStart (Js.trim s) = Js.trim s.
Proof.
  unfold Js.trim. apply trimStart_None, stripWhiteSpace_None. intros w r Hw Heq.
  destruct (trimEnd_decompose (Js.trimStart s)) as (b & _ & Ht).
  pose proof (trimStart_fixed s) as Hfix. rewrite stripWhiteSpace_None in Hfix.
  apply (Hfix w (r ++ b) Hw). rewrite Ht at 1. rewrite Heq. apply append_assoc.
Qed.

Lemma trim_idem (s : string) : Js.trim (Js.trim s) = Js.trim s.
Proof.
  unfold Js.trim at 1. rewrite trimStart_trim. unfold Js.trim. apply trimEnd_idem.
Qed.

Lemma trimEnd_of_trim (s : string) : Js.trim s = s → Js.trimEnd s = s.
Proof. intros Hs. rewrite <- Hs at 1. unfold Js.trim. rewrite trimEnd_idem. exact Hs. Qed.

Lemma trimStart_of_trim (s : string) : Js.trim s = s → Js.trimStart s = s.
Proof. intros Hs. rewrite <- Hs at 1. rewrite trimStart_trim. exact Hs. Qed.

(** [trim] gives the string without the white space at its ends. *)
Lemma trim_Trimmed (s : string) : Trimmed s (Js.trim s).
Proof.
  destruct (trimStart_decompose s) as (a & Ha & Hs).
  destruct (trimEnd_decompose (Js.trimStart s)) as (b & Hb & Ht).
  exists a, b. split_and!; try done.
  - rewrite Hs at 1. f_equal. exact Ht.
  - intros w r Hw Heq. pose proof (trimStart_trim s) as Hfix.
    apply trimStart_fixed_iff in Hfix. rewrite stripWhiteSpace_None in Hfix.
    by apply (Hfix w r Hw).
  - intros w r Hw Heq.
    assert (Hend : Js.trimEnd (Js.trim s) = Js.trim s) by apply trimEnd_idem.
    rewrite Heq in Hend.
    apply (trimEnd_fixed_suffix r w Hend); [by apply whiteSpace_not_empty|].
    by apply WhiteSpaceOnly_one.
Qed.

(** White space behind a string that does not end in white space: where
    the white space starts is read off the text. *)
Lemma WhiteSpaceOnly_ends (y b : string) :
  WhiteSpaceOnly (y ++ b) → WhiteSpaceOnly b → y ≠ "" →
  ∃ r w, w ∈ Js.WHITE_SPACE ∧ y = r ++ w.
Proof.
  intros Hyb. remember (y ++ b) as z eqn:Hz. revert y Hz.
  induction Hyb as [|w r Hw Hr IH]; intros y Hz Hb Hy.
  - symmetry in Hz. apply append_eq_nil in Hz as [-> _]. done.
  - symmetry in Hz. apply append_eq_split in Hz as [(m & -> & Hm)|(m & -> & Hm)].
    + destruct m as [|c m].
      * rewrite append_empty_r in Hw. by exists "", y.
      * exfalso. rewrite append_cons in Hm.
        pose proof (WhiteSpaceOnly_head _ _ _ Hb Hm) as Hstart.
        pose proof (whiteSpace_synchronised _ y m c Hw eq_refl Hy). congruence.
    + destruct (decide (m = "")) as [->|Hm'].
      * rewrite append_empty_r. by exists "", w.
      * destruct (IH m Hm Hb Hm') as (r' & w' & Hw' & ->).
        exists (w ++ r'), w'. split; [done|]. by rewrite append_assoc.
Qed.

Lemma trimStart_core (x b : string) :
  x ≠ "" → (∀ w r, w ∈ Js.WHITE_SPACE → x ≠ w ++ r) → WhiteSpaceOnly b →
  Js.trimStart (x ++ b) = x ++ b.
Proof.
  intros Hx Hstart Hb. apply trimStart_None, stripWhiteSpace_None. intros w r Hw Heq.
  apply append_eq_split in Heq as [(m & -> & Hm)|(m & -> & Hm)].
  - destruct m as [|c m].
    + rewrite append_empty_r in Hw. apply (Hstart x "" Hw). by rewrite append_empty_r.
    + pose proof (WhiteSpaceOnly_head _ _ _ Hb Hm) as Hc.
      pose proof (whiteSpace_synchronised _ x m c Hw eq_refl Hx). congruence.
  - by apply (Hstart w m Hw).
Qed.

Lemma trimEnd_core (x b : string) :
  (∀ w r, w ∈ Js.WHITE_SPACE → x ≠ r ++ w) → WhiteSpaceOnly b →
  Js.trimEnd (x ++ b) = x.
Proof.
  intros Hend Hb. induction x as [|d x IH]; unfold_append.
  - by apply trimEnd_WhiteSpaceOnly.
  - rewrite trimEnd_cons.
    destruct (Js.isEmpty (Js.trimStart (String d (x ++ b)))) eqn:He.
    + exfalso. apply isEmpty_trimStart in He. rewrite <- append_cons in He.
      destruct (WhiteSpaceOnly_ends _ _ He Hb) as (r & w & Hw & Heq); [done|].
      by apply (Hend w r Hw).
    + f_equal. apply IH. intros w r Hw ->. by apply (Hend w (String d r) Hw).
Qed.

(** The string without the white space at its ends is the one [trim]
    gives. *)
Lemma trim_unique (s x : string) : Trimmed s x → Js.trim s = x.
Proof.
  intros (a & b & -> & Ha & Hb & Hstart & Hend). unfold Js.trim.
  rewrite trimStart_WhiteSpaceOnly by done.
  destruct (decide (x = "")) as [->|Hx].
  - rewrite append_nil. apply trimStart_empty_iff in Hb. by rewrite Hb.
  - rewrite trimStart_core by done. by apply trimEnd_core.
Qed.

Lemma trim_spec (s x : string) : Trimmed s x ↔ x = Js.trim s.
Proof.
  split; [intros Hx; symmetry; by apply trim_unique | intros ->; apply trim_Trimmed].
Qed.

(** A string is blank, white space only, exactly when [trim] leaves
    nothing of it. *)
Lemma trim_empty_iff (s : string) : Js.trim s = "" ↔ WhiteSpaceOnly s.
Proof.
  split.
  - intros Hs. destruct (trim_Trimmed s) as (a & b & Heq & Ha & Hb & _).
    rewrite Hs, append_nil in Heq. rewrite Heq. by apply WhiteSpaceOnly_app.
  - intros Hs. unfold Js.trim. apply trimStart_empty_iff in Hs. by rewrite Hs.
Qed.

(* ===================================================================== *)
(** ** Blocked commands *)
(* ===================================================================== *)

Lemma isEmpty_false (s : string) : Js.isEmpty s = false ↔ s ≠ "".
Proof. destruct s; simpl; split; done. Qed.

Lemma stringItems_elem (l : list JValue) (s : string) : s ∈ stringItems l ↔ JStr s ∈ l.
Proof.
  unfold stringItems. rewrite list_elem_of_omap. split.
  - intros (v & Hv & Hs). destruct v; simplify_eq/=. done.
  - intros Hs. exists (JStr s). done.
Qed.

Lemma isEmpty_trim (s : string) : Js.isEmpty (Js.trim s) = true ↔ WhiteSpaceOnly s.
Proof.
  rewrite <- trim_empty_iff. destruct (Js.trim s); simpl; split; done.
Qed.

(** The list the code computes is a bucket in the words of the
    specification. *)
Lemma normalizeCommandList_CommandsOf (l : list JValue) (fallback : list string) :
  CommandsOf l (normalizeCommandList (Some (JArr l)) fallback).
Proof.
  cbn [normalizeCommandList]. induction l as [|v l IH]; [constructor|].
  destruct v as [| | |s| |];
    try (apply CommandsOf_other; [intros s; discriminate | exact IH]).
  change (stringItems (JStr s :: l)) with (s :: stringItems l).
  rewrite fmap_cons, filter_cons.
  destruct (decide (Js.isEmpty (Js.trim s) = false)) as [Hne|He].
  - apply CommandsOf_keep; [| apply trim_Trimmed | exact IH].
    intros Hs. apply isEmpty_trim in Hs. congruence.
  - apply CommandsOf_blank; [|exact IH].
    apply isEmpty_trim. by destruct (Js.isEmpty (Js.trim s)).
Qed.

(** There is one such bucket only. *)
Lemma CommandsOf_unique (l : list JValue) (r fallback : list string) :
  CommandsOf l r → r = normalizeCommandList (Some (JArr l)) fallback.
Proof.
  cbn [normalizeCommandList]. induction 1 as [|v l r Hv _ IH|s l r Hs _ IH|s x l r Hs Hx _ IH].
  - done.
  - destruct v; try exact IH. by destruct (Hv s).
  - change (stringItems (JStr s :: l)) with (s :: stringItems l).
    rewrite fmap_cons, filter_cons.
    apply isEmpty_trim in Hs. rewrite decide_False by congruence. exact IH.
  - change (stringItems (JStr s :: l)) with (s :: stringItems l).
    rewrite fmap_cons, filter_cons.
    apply trim_spec in Hx. subst x.
    rewrite decide_True; [by f_equal|].
    destruct (Js.isEmpty (Js.trim s)) eqn:He; [|done].
    apply isEmpty_trim in He. done.
Qed.

(** C9. [normalizeBlockedCommands] sends a flat list to the record whose
    windows bucket is the default one and whose unix bucket is the one
    bucket the specification describes: the string entries of the list,
    each without the white space at its two ends, the blank ones left
    out, in their order; an entry is in that bucket exactly when it is not
    empty and is a string entry of the list without the white space at its
    ends.  The list [["rm -rf", "  "]] gives [{unix: ["rm -rf"], windows:
    defaults}], and no-break spaces, an em space alone and a byte order
    mark are white space as blanks and tabs are.  Of a platform-keyed
    object each bucket is settled on its own, a list validated in the same
    way and anything else replaced by the default of that bucket; what is
    neither a list nor an object gives the defaults. *)
Theorem normalizeBlockedCommands_buckets (defaults : PlatformBlockedCommands) :
  (∀ l, CommandsOf l (unix (normalizeBlockedCommands defaults (Some (JArr l))))
        ∧ windows (normalizeBlockedCommands defaults (Some (JArr l))) = windows defaults)
  ∧ (∀ l r, CommandsOf l r → r = unix (normalizeBlockedCommands defaults (Some (JArr l))))
  ∧ (∀ l x, x ∈ unix (normalizeBlockedCommands defaults (Some (JArr l))) ↔
            x ≠ "" ∧ ∃ s, JStr s ∈ l ∧ Trimmed s x)
  ∧ normalizeBlockedCommands defaults (Some (JArr [JStr "rm -rf"; JStr "  "])) =
      {| unix := ["rm -rf"]; windows := windows defaults |}
  ∧ normalizeBlockedCommands defaults
      (Some (JArr [ JStr (Js.bytes [194; 160] ++ "rm -rf" ++ Js.bytes [194; 160]);
                    JStr (Js.bytes [226; 128; 131]);
                    JNum 7;
                    JStr (Js.bytes [239; 187; 191] ++ "ls");
                    JStr (Js.bytes [9] ++ "del /q" ++ Js.bytes [13; 10]) ])) =
      {| unix := ["rm -rf"; "ls"; "del /q"]; windows := windows defaults |}
  ∧ (∀ o, BucketOf (Obj.get "unix" o) (unix defaults)
                   (unix (normalizeBlockedCommands defaults (Some (JObj o))))
          ∧ BucketOf (Obj.get "windows" o) (windows defaults)
                     (windows (normalizeBlockedCommands defaults (Some (JObj o)))))
  ∧ (∀ v, (∀ l, v ≠ Some (JArr l)) → (∀ o, v ≠ Some (JObj o)) →
          normalizeBlockedCommands defaults v = defaults).
Proof.
  split_and!.
  - intros l. split; [apply normalizeCommandList_CommandsOf | done].
  - intros l r Hr. by apply CommandsOf_unique.
  - intros l x. simpl. rewrite list_elem_of_filter, list_elem_of_fmap, isEmpty_false.
    split.
    + intros [Hx (s & -> & Hs)]. split; [done|]. exists s.
      split; [by rewrite <- stringItems_elem | apply trim_Trimmed].
    + intros [Hx (s & Hs & Ht)]. split; [done|]. exists s.
      split; [by apply trim_spec in Ht | by rewrite stringItems_elem].
  - reflexivity.
  - vm_compute. reflexivity.
  - intros o. cbn [normalizeBlockedCommands unix windows]. unfold BucketOf. split.
    + destruct (Obj.get "unix" o) as [[]|] eqn:Hu; try done.
      apply normalizeCommandList_CommandsOf.
    + destruct (Obj.get "windows" o) as [[]|] eqn:Hw; try done.
      apply normalizeCommandList_CommandsOf.
  - intros v Harr Hobj. destruct v as [[| | | |l|o]|]; try done.
    + by destruct (Harr l).
    + by destruct (Hobj o).
Qed.

(* ===================================================================== *)
(** ** Clearing the legacy blob *)
(* ===================================================================== *)

Lemma fold_del_get (ks : list string) (o : JObject) (k : string) :
  Obj.get k (fold_left (fun cleaned k' => Obj.del k' cleaned) ks o) =
    if decide (k ∈ ks) then None else Obj.get k o.
Proof.
  revert o. induction ks as [|k' ks IH]; intros o; cbn [fold_left].
  - rewrite decide_False; [done | apply not_elem_of_nil].
  - rewrite IH. destruct (decide (k ∈ ks)) as [Hin|Hnin].
    + rewrite decide_True; [done | apply elem_of_cons; by right].
    + destruct (decide (k = k')) as [->|Hne].
      * rewrite decide_True; [apply get_del_eq | apply elem_of_cons; by left].
      * rewrite decide_False; [by apply get_del_ne|].
        rewrite not_elem_of_cons. done.
Qed.

Lemma fold_del_filter (ks : list string) (o : JObject) :
  fold_left (fun cleaned k' => Obj.del k' cleaned) ks o = filter (fun kv => kv.1 ∉ ks) o.
Proof.
  revert o. induction ks as [|k' ks IH]; intros o; cbn [fold_left].
  - induction o as [|x o IHo]; [done|].
    rewrite filter_cons_True; [by f_equal | apply not_elem_of_nil].
  - rewrite IH. unfold Obj.del. rewrite list_filter_filter.
    apply list_filter_iff. intros x. rewrite not_elem_of_cons. tauto.
Qed.

Lemma cleanedData_get (d : JValue) (k : string) :
  Obj.get k (cleanedData d) = if decide (k ∈ CLEARED_KEYS) then None else Obj.get k (ownEntries d).
Proof. apply fold_del_get. Qed.

Lemma clearLegacyDataJson_saves (s : Vault) (d : JValue) :
  data s = Some d → truthy d = true →
  clearLegacyDataJson s =
    Ok tt (record (EvSaveData (JObj (cleanedData d)))
             (withData (Some (JObj (cleanedData d))) s)).
Proof.
  intros Hd Ht. unfold clearLegacyDataJson, bind, loadDataJson, blobOf. rewrite Hd, Ht.
  case_bool_decide as Hk; [|done].
  destruct (cleanedData d) as [|kv r]; [done | discriminate Hk].
Qed.

(** C8, as amended.  [clearLegacyDataJson] saves the blob without the six
    keys [lastEnvHash], [lastClaudeModel], [lastCustomModel],
    [conversations], [slashCommands] and [migrationVersion]: what it saves
    is the blob filtered by key, in order; every other key keeps its value,
    and each of the six is absent from the result. *)
Theorem clearLegacyDataJson_frame (s : Vault) (d : JValue) :
  data s = Some d → truthy d = true →
  clearLegacyDataJson s =
    Ok tt (record (EvSaveData (JObj (cleanedData d)))
             (withData (Some (JObj (cleanedData d))) s))
  ∧ cleanedData d = filter (fun kv => kv.1 ∉ CLEARED_KEYS) (ownEntries d)
  ∧ (∀ k, k ∉ CLEARED_KEYS → Obj.get k (cleanedData d) = Obj.get k (ownEntries d))
  ∧ (∀ k, k ∈ CLEARED_KEYS → Obj.get k (cleanedData d) = None).
Proof.
  intros Hd Ht. split_and!.
  - by apply clearLegacyDataJson_saves.
  - apply fold_del_filter.
  - intros k Hk. rewrite cleanedData_get. by rewrite decide_False.
  - intros k Hk. rewrite cleanedData_get. by rewrite decide_True.
Qed.

Lemma clearLegacyDataJson_frame_witness :
  clearLegacyDataJson (Example.vault [] (Some Example.versionedBlob)) =
    Ok tt (record (EvSaveData (JObj [("tabManagerState", Example.tabManagerState)]))
             (withData (Some (JObj [("tabManagerState", Example.tabManagerState)]))
                (Example.vault [] (Some Example.versionedBlob))))
  ∧ Obj.get "tabManagerState" (cleanedData Example.versionedBlob) =
      Some Example.tabManagerState.
Proof.
  destruct (clearLegacyDataJson_frame
              (Example.vault [] (Some Example.versionedBlob)) Example.versionedBlob
              eq_refl eq_refl) as (Hrun & _ & Hkeep & _).
  split.
  - exact Hrun.
  - rewrite (Hkeep "tabManagerState"); [reflexivity|].
    unfold CLEARED_KEYS. rewrite !not_elem_of_cons. split_and!; try done. apply not_elem_of_nil.
Defined.

(** C8, the claim as stated fails: [migrationVersion] is none of the
    bookkeeping and content keys that the migrations consume, the blob holds
    it, and the cleared blob does not. *)
Lemma clearLegacyDataJson_drops_migrationVersion :
  ("migrationVersion" ∉ CONSUMED_KEYS)
  ∧ prop "migrationVersion" Example.versionedBlob = Some (JNum 2)
  ∧ data (stateOf (clearLegacyDataJson (Example.vault [] (Some Example.versionedBlob)))) =
      Some (JObj [("tabManagerState", Example.tabManagerState)]).
Proof.
  split_and!.
  - unfold CONSUMED_KEYS, STATE_FIELDS. simpl. rewrite !not_elem_of_cons.
    split_and!; try done. apply not_elem_of_nil.
  - reflexivity.
  - vm_compute. reflexivity.
Qed.

(* ===================================================================== *)
(** ** State of the blob merged into the plugin settings *)
(* ===================================================================== *)

Ltac in_list := rewrite ?elem_of_cons; auto 10.







(* ===================================================================== *)
(** ** Legacy permissions *)
(* ===================================================================== *)







(** The end-to-end property of the specification: the combined legacy file
    is split into the plugin settings and the permissions. *)
Lemma initialize_end_to_end :
  ∃ cc claudian s',
    initialize Example.reliable
      (Example.vault [(CC_SETTINGS_PATH, Json Example.annSettings)] None) = Ok (cc, claudian) s'
    ∧ Obj.get "userName" claudian = Some (JStr "Ann")
    ∧ Obj.get "blockedCommands" claudian =
        Some (JObj [("unix", JArr [JStr "rm -rf"]);
                    ("windows", jstrings (windows Example.defaultBlocked))])
    ∧ files s' !! CC_SETTINGS_PATH =
        Some (Json (JObj [("$schema", JStr CC_SCHEMA);
                          ("permissions",
                            JObj [("allow", JArr [JStr "Bash(git *)"]);
                                  ("deny", JArr []); ("ask", JArr [])])])).
Proof. do 3 eexists. split_and!; [vm_compute; reflexivity | reflexivity..]. Qed.

(* ===================================================================== *)
(** ** Strings: lines and trimming *)
(* ===================================================================== *)

Lemma indexOf_app (c : ascii) (k r : string) :
  hasChar c k = false → Js.indexOf c (k ++ String c r) = Some (String.length k).
Proof.
  induction k as [|d k IH]; unfold_append; simpl.
  - intros _. by rewrite bool_decide_true.
  - intros [Hd Hk]%orb_false_elim. rewrite Hd, IH by done. done.
Qed.

Lemma sliceTo_app (k r : string) : Js.sliceTo (String.length k) (k ++ r) = k.
Proof.
  unfold Js.sliceTo. induction k as [|d k IH]; unfold_append; simpl.
  - by destruct r.
  - by rewrite IH.
Qed.

Lemma substring_all (v : string) : substring 0 (String.length v) v = v.
Proof. induction v as [|d v IH]; simpl; [done | by rewrite IH]. Qed.

Lemma sliceFrom_app (k v : string) (c : ascii) :
  Js.sliceFrom (S (String.length k)) (k ++ String c v) = v.
Proof.
  unfold Js.sliceFrom. induction k as [|d k IH]; unfold_append; simpl.
  - rewrite Nat.sub_0_r. apply substring_all.
  - apply IH.
Qed.

Lemma splitLines_app (x r : string) :
  hasChar Js.LF x = false →
  Js.splitLines (x ++ String Js.LF r) = x :: Js.splitLines r.
Proof.
  induction x as [|d x IH]; unfold_append; cbn [Js.splitLines hasChar].
  - intros _. by rewrite bool_decide_true.
  - intros [Hd Hx]%orb_false_elim. rewrite IH by done.
    apply bool_decide_eq_false in Hd. rewrite bool_decide_false by done. done.
Qed.

Lemma splitLines_single (x : string) : hasChar Js.LF x = false → Js.splitLines x = [x].
Proof.
  induction x as [|d x IH]; cbn [Js.splitLines hasChar]; [done|].
  intros [Hd Hx]%orb_false_elim. rewrite IH by done.
  apply bool_decide_eq_false in Hd. rewrite bool_decide_false by done. done.
Qed.

Lemma splitLines_joinLines (ls : list string) :
  ls ≠ [] → Forall (fun x => hasChar Js.LF x = false) ls →
  Js.splitLines (Js.joinLines ls) = ls.
Proof.
  induction ls as [|x ls IH]; [done|]. intros _ Hall.
  apply Forall_cons in Hall as [Hx Hls].
  destruct ls as [|y ls].
  - simpl. by apply splitLines_single.
  - change (Js.joinLines (x :: y :: ls)) with (x ++ String Js.LF (Js.joinLines (y :: ls))).
    rewrite splitLines_app by done. f_equal. by apply IH.
Qed.

(** A plain entry is read back from the line that spells it. *)
Lemma parseEnvLine_envLine (kv : string * string) :
  plainEntry kv = true → parseEnvLine (envLine kv) = Some kv.
Proof.
  destruct kv as [k v]. unfold plainEntry, plainKey, plainValue, envLine. simpl.
  rewrite !andb_true_iff, !negb_true_iff, !bool_decide_eq_true.
  intros [((((Hne & Hlf) & Heq) & Hts) & Hhash) [Hvlf Hte]].
  unfold parseEnvLine.
  assert (Htrim : Js.trim (k ++ "=" ++ v) = k ++ "=" ++ v).
  { unfold Js.trim. change ("=" ++ v) with (String "=" v).
    rewrite trimStart_app_sep by done. by apply trimEnd_app_sep. }
  rewrite Htrim.
  destruct k as [|c k]; [done|].
  assert (Hempty : Js.isEmpty (String c k ++ "=" ++ v) = false) by done.
  rewrite Hempty. simpl in Hhash.
  assert (Hstart : Js.startsWithChar "#" (String c k ++ "=" ++ v) = false) by done.
  rewrite Hstart. cbn [orb].
  change ("=" ++ v) with (String "=" v).
  rewrite indexOf_app by done. cbn [String.length].
  change (S (String.length k)) with (String.length (String c k)).
  rewrite sliceTo_app, sliceFrom_app. done.
Qed.

Lemma envLine_no_LF (kv : string * string) :
  plainEntry kv = true → hasChar Js.LF (envLine kv) = false.
Proof.
  destruct kv as [k v]. unfold plainEntry, plainKey, plainValue, envLine. simpl.
  rewrite !andb_true_iff, !negb_true_iff.
  intros [((((Hne & Hlf) & Heq) & Hts) & Hhash) [Hvlf Hte]].
  rewrite !hasChar_app, Hlf, Hvlf. reflexivity.
Qed.

(* ===================================================================== *)
(** ** Environment variables of the two sources *)
(* ===================================================================== *)

Lemma setEnvLine_get (m : list (string * string)) (line k : string) :
  Obj.get k (setEnvLine m line) =
    match Obj.get k (setEnvLine [] line) with Some v => Some v | None => Obj.get k m end.
Proof.
  unfold setEnvLine. destruct (parseEnvLine line) as [[key value]|]; [|done].
  rewrite !get_set. by destruct (decide (k = key)).
Qed.

Lemma fold_setEnvLine_get (lines : list string) (m : list (string * string)) (k : string) :
  Obj.get k (fold_left setEnvLine lines m) =
    match Obj.get k (fold_left setEnvLine lines []) with
    | Some v => Some v
    | None => Obj.get k m
    end.
Proof.
  revert m. induction lines as [|line lines IH] using rev_ind; intros m; [done|].
  rewrite !fold_left_app. cbn [fold_left].
  rewrite setEnvLine_get, (setEnvLine_get (fold_left setEnvLine lines [])), IH.
  destruct (Obj.get k (setEnvLine [] line)); [done|].
  by destruct (Obj.get k (fold_left setEnvLine lines [])).
Qed.

Lemma fold_setEnvLine_NoDup (lines : list string) (m : list (string * string)) :
  NoDup (Obj.keys m) → NoDup (Obj.keys (fold_left setEnvLine lines m)).
Proof.
  revert m. induction lines as [|line lines IH]; intros m Hm; cbn [fold_left]; [done|].
  apply IH. unfold setEnvLine. destruct (parseEnvLine line) as [[key value]|]; [|done].
  by apply NoDup_keys_set.
Qed.

Lemma mergedEnvMap_alone_l (a : string) :
  mergedEnvMap a "" = fold_left setEnvLine (Js.splitLines a) [].
Proof. reflexivity. Qed.

Lemma mergedEnvMap_alone_r (b : string) :
  mergedEnvMap "" b = fold_left setEnvLine (Js.splitLines b) [].
Proof. reflexivity. Qed.

Lemma mergedEnvMap_get (a b k : string) :
  Obj.get k (mergedEnvMap a b) =
    match Obj.get k (mergedEnvMap "" b) with
    | Some v => Some v
    | None => Obj.get k (mergedEnvMap a "")
    end.
Proof.
  rewrite mergedEnvMap_alone_l, mergedEnvMap_alone_r. unfold mergedEnvMap.
  apply fold_setEnvLine_get.
Qed.

Lemma fold_setEnvLine_plain (entries m : list (string * string)) :
  Forall (fun kv => plainEntry kv = true) entries →
  fold_left setEnvLine (envLine <$> entries) m = Obj.spread m entries.
Proof.
  unfold Obj.spread. revert m. induction entries as [|kv entries IH]; intros m Hall; [done|].
  apply Forall_cons in Hall as [Hkv Hall]. rewrite fmap_cons. cbn [fold_left].
  rewrite IH by done. f_equal. unfold setEnvLine.
  rewrite parseEnvLine_envLine by done. by destruct kv.
Qed.

Lemma spread_get_None {V} (entries acc : list (string * V)) (k : string) :
  Obj.get k entries = None → Obj.get k acc = None →
  Obj.get k (Obj.spread acc entries) = None.
Proof.
  unfold Obj.spread. revert acc.
  induction entries as [|[k2 v2] entries IH]; intros acc Hent Hacc; [done|].
  simpl in Hent. case_bool_decide as Hk; [done|].
  cbn [fold_left]. apply IH; [done|]. simpl. by rewrite get_set_ne.
Qed.

Lemma spread_get_elem {V} (entries m : list (string * V)) (k : string) (v : V) :
  NoDup (Obj.keys entries) → (k, v) ∈ entries → Obj.get k (Obj.spread m entries) = Some v.
Proof.
  unfold Obj.keys. revert m. induction entries as [|[k' v'] entries IH]; intros m Hnd Hin.
  - by apply elem_of_nil in Hin.
  - rewrite fmap_cons in Hnd. apply NoDup_cons in Hnd as [Hk' Hnd].
    change (Obj.spread m ((k', v') :: entries)) with (Obj.spread (Obj.set k' v' m) entries).
    apply elem_of_cons in Hin as [Heq|Hin]; [|by apply IH].
    simplify_eq. rewrite get_spread.
    rewrite spread_get_None; [apply get_set_eq | | done].
    by apply get_None_keys.
Qed.

Lemma convert_object (o : JObject) :
  convertEnvObjectToString (Some (JObj o)) = Js.joinLines (envLine <$> stringEntries (JObj o)).
Proof. reflexivity. Qed.

Lemma mergedEnvMap_plain (a : string) (entries : list (string * string)) :
  Forall (fun kv => plainEntry kv = true) entries →
  mergedEnvMap a (Js.joinLines (envLine <$> entries)) =
    Obj.spread (mergedEnvMap a "") entries.
Proof.
  intros Hall. destruct entries as [|kv entries]; [done|].
  unfold mergedEnvMap at 1. rewrite splitLines_joinLines.
  - rewrite fold_setEnvLine_plain by done. done.
  - by rewrite fmap_cons.
  - apply Forall_fmap. eapply Forall_impl; [exact Hall|]. intros x Hx. by apply envLine_no_LF.
Qed.

Lemma mergedEnvironment_guard (oldSettings : JValue) (s : Vault) :
  mergedEnvironment oldSettings s =
    (if Js.isEmpty (convertEnvObjectToString (prop "env" oldSettings))
     then Ok (environmentVariablesOf oldSettings) s
     else match environmentVariablesOf oldSettings with
          | JStr existing =>
              Ok (JStr (mergeEnvironmentVariables existing
                          (convertEnvObjectToString (prop "env" oldSettings)))) s
          | _ => Throw TypeError s
          end).
Proof.
  unfold mergedEnvironment.
  destruct (prop "env" oldSettings) as [[]|]; try reflexivity;
    cbv zeta; (destruct (Js.isEmpty _); [reflexivity|]);
    by destruct (environmentVariablesOf oldSettings).
Qed.

(** C5, as amended.  When the structured map converts to a text that is not
    empty, [environmentVariables] is the merge of the free-text block with
    that text; otherwise (no map, or a map without string entries) the block
    is kept as it is.  The merge has one entry per key; for a key that both
    texts set, the entry is the one of the converted map, and a key of the
    block alone keeps its value; and for a map of plain entries the merged
    value of each of its keys is the value the map holds. *)
Theorem environment_merge (oldSettings : JValue) (s : Vault) :
  mergedEnvironment oldSettings s =
    (if Js.isEmpty (convertEnvObjectToString (prop "env" oldSettings))
     then Ok (environmentVariablesOf oldSettings) s
     else match environmentVariablesOf oldSettings with
          | JStr existing =>
              Ok (JStr (mergeEnvironmentVariables existing
                          (convertEnvObjectToString (prop "env" oldSettings)))) s
          | _ => Throw TypeError s
          end)
  ∧ (∀ a b, NoDup (Obj.keys (mergedEnvMap a b))
            ∧ mergeEnvironmentVariables a b = Js.joinLines (envLine <$> mergedEnvMap a b))
  ∧ (∀ a b k, Obj.get k (mergedEnvMap a b) =
                match Obj.get k (mergedEnvMap "" b) with
                | Some v => Some v
                | None => Obj.get k (mergedEnvMap a "")
                end)
  ∧ (∀ a o k v,
        Forall (fun kv => plainEntry kv = true) (stringEntries (JObj o)) →
        NoDup (Obj.keys (stringEntries (JObj o))) →
        (k, v) ∈ stringEntries (JObj o) →
        Obj.get k (mergedEnvMap a (convertEnvObjectToString (Some (JObj o)))) = Some v).
Proof.
  split_and!.
  - apply mergedEnvironment_guard.
  - intros a b. split; [|done]. unfold mergedEnvMap.
    do 2 apply fold_setEnvLine_NoDup. constructor.
  - apply mergedEnvMap_get.
  - intros a o k v Hplain Hnd Hin. rewrite convert_object, mergedEnvMap_plain by done.
    by apply spread_get_elem.
Qed.

(** The merge at work: the structured map overrides [API_KEY], the block
    keeps [MODE], and [REGION] is added. *)
Lemma environment_merge_example :
  mergedEnvironment Example.sharedKey (Example.vault [] None) =
    Ok (JStr (Js.joinLines ["API_KEY=new"; "MODE=fast"; "REGION=eu"])) (Example.vault [] None).
Proof. vm_compute. reflexivity. Qed.

(** C5, the claim as stated fails when the structured map is empty: the
    value is the free-text block itself, with its two lines for [A], and not
    the merge of the block with the converted map, which keeps one. *)
Lemma environment_not_merged_without_entries :
  prop "env" Example.repeatedKey = Some (JObj [])
  ∧ mergedEnvironment Example.repeatedKey (Example.vault [] None) =
      Ok (JStr (Example.twoLines "A=1" "A=2")) (Example.vault [] None)
  ∧ mergeEnvironmentVariables (Example.twoLines "A=1" "A=2")
      (convertEnvObjectToString (prop "env" Example.repeatedKey)) = "A=2"
  ∧ Example.twoLines "A=1" "A=2" ≠ "A=2".
Proof. split_and!; [reflexivity | vm_compute; reflexivity | vm_compute; reflexivity | done]. Qed.

(* ===================================================================== *)
(** ** Content migration *)
(* ===================================================================== *)

Lemma commandFilePath_not_settings (cfg : Config) (c : JValue) :
  commandFilePath cfg c ≠ CC_SETTINGS_PATH ∧ commandFilePath cfg c ≠ CLAUDIAN_SETTINGS_PATH.
Proof.
  unfold commandFilePath, COMMANDS_PATH, CC_SETTINGS_PATH, CLAUDIAN_SETTINGS_PATH.
  unfold_append. split; discriminate.
Qed.

Lemma sessionFilePath_not_settings (cfg : Config) (id : option JValue) :
  sessionFilePath cfg id ≠ CC_SETTINGS_PATH ∧ sessionFilePath cfg id ≠ CLAUDIAN_SETTINGS_PATH.
Proof.
  unfold sessionFilePath, SESSIONS_PATH, CC_SETTINGS_PATH, CLAUDIAN_SETTINGS_PATH.
  unfold_append. split; discriminate.
Qed.

Lemma settings_paths_differ : CC_SETTINGS_PATH ≠ CLAUDIAN_SETTINGS_PATH.
Proof. discriminate. Qed.

Lemma cleared_app (a b : list Event) : cleared (a ++ b) = cleared a || cleared b.
Proof. apply existsb_app. Qed.

Lemma someWriteFailed_app (a b : list Event) :
  someWriteFailed (a ++ b) = someWriteFailed a || someWriteFailed b.
Proof. apply existsb_app. Qed.

Lemma ContentSummary_refl (h : bool) (s : Vault) : ContentSummary h s h s [].
Proof.
  unfold ContentSummary. rewrite app_nil_r. split_and!; try done.
  intros [?|?]; done.
Qed.

Lemma ContentSummary_trans h1 s1 h2 s2 h3 s3 ev1 ev2 :
  ContentSummary h1 s1 h2 s2 ev1 → ContentSummary h2 s2 h3 s3 ev2 →
  ContentSummary h1 s1 h3 s3 (ev1 ++ ev2)%list.
Proof.
  intros (L1 & D1 & F1 & C1 & H1 & P1 & A1 & B1) (L2 & D2 & F2 & C2 & H2 & P2 & A2 & B2).
  unfold ContentSummary. split_and!.
  - by rewrite L2, L1, app_assoc.
  - congruence.
  - congruence.
  - by rewrite cleared_app, C1, C2.
  - rewrite someWriteFailed_app, orb_true_iff. intros [?|[?|?]]; auto.
  - intros p x Hp. eauto.
  - congruence.
  - congruence.
Qed.

(** The guarded write of both loops:
    [try { if (await exists(path)) continue; await write(path, text) }
     catch { hadErrors = true }]. *)
Lemma guarded_write (cfg : Config) (h : bool) (path : string) (c : Content) (s : Vault) :
  path ≠ CC_SETTINGS_PATH → path ≠ CLAUDIAN_SETTINGS_PATH →
  ∃ h' s' ev,
    tryCatch (present <- adapterExists path ;;
              if present then ret h else adapterWrite cfg path c ;;; ret h)
             (ret true) s = Ok h' s'
    ∧ ContentSummary h s h' s' ev
    ∧ (h' = true → h = true ∨ someWriteFailed ev = true)
    ∧ (is_Some (files s !! path) →
       h' = h ∧ s' = record (EvExists path) s).
Proof.
  intros Hcc Hcl. unfold tryCatch, bind, adapterExists, adapterWrite, ret.
  case_bool_decide as Hex; cbn [negb].
  - exists h, (record (EvExists path) s), [EvExists path].
    split_and!; try done; [|by left].
    unfold ContentSummary. split_and!; try done.
    intros [?|?]; done.
  - cbn [files record].
    destruct (failWrite cfg path) eqn:Hfail; [|destruct (loseWrite cfg path) eqn:Hlose].
    + eexists true, _, [EvExists path; EvWrite path c Failed].
      split_and!; try done; [|by right].
      unfold ContentSummary. simpl. rewrite <- app_assoc. split_and!; done.
    + eexists h, _, [EvExists path; EvWrite path c Lost].
      split_and!; try done; [|by left].
      unfold ContentSummary. simpl. rewrite <- app_assoc. split_and!; try done.
      intros [?|?]; done.
    + eexists h, _, [EvExists path; EvWrite path c Stored].
      split_and!; try done; [|by left].
      unfold ContentSummary. simpl. rewrite <- app_assoc. split_and!; try done.
      * intros [?|?]; done.
      * intros p x Hp. rewrite lookup_insert_ne; [done|].
        intros ->. apply Hex. by eexists.
      * by rewrite lookup_insert_ne.
      * by rewrite lookup_insert_ne.
Qed.

Lemma migrateCommand_summary (cfg : Config) (h : bool) (command : JValue) (s : Vault) :
  ∃ h' s' ev,
    migrateCommand cfg h command s = Ok h' s'
    ∧ ContentSummary h s h' s' ev
    ∧ (h' = true → h = true ∨ someWriteFailed ev = true)
    ∧ (is_Some (files s !! commandFilePath cfg command) →
       h' = h ∧ s' = record (EvExists (commandFilePath cfg command)) s).
Proof.
  destruct (commandFilePath_not_settings cfg command) as [Hcc Hcl].
  apply (guarded_write cfg h _ (Text (commandText cfg command)) s Hcc Hcl).
Qed.

Lemma migrateConversation_summary (cfg : Config) (h : bool) (conversation : JValue) (s : Vault) :
  ∃ h' s' ev,
    migrateConversation cfg h conversation s = Ok h' s'
    ∧ ContentSummary h s h' s' ev
    ∧ (conversation ≠ JNull → h' = true → h = true ∨ someWriteFailed ev = true)
    ∧ (conversation ≠ JNull →
       is_Some (files s !! sessionFilePath cfg (prop "id" conversation)) →
       h' = h ∧ s' = record (EvExists (sessionFilePath cfg (prop "id" conversation))) s).
Proof.
  destruct (sessionFilePath_not_settings cfg (prop "id" conversation)) as [Hcc Hcl].
  destruct (guarded_write cfg h _ (Text (sessionText cfg conversation)) s Hcc Hcl)
    as (h' & s' & ev & Hrun & Hsum & Hconv & Hskip).
  destruct conversation; try (exists h', s', ev; split_and!; by auto).
  exists true, s, []. split_and!; try done.
  destruct (ContentSummary_refl h s) as (L & D & F & C & H & P & A & B).
  unfold ContentSummary. split_and!; done.
Qed.

Lemma foldM_summary (f : bool → JValue → M bool) (good : JValue → Prop) :
  (∀ h x s, ∃ h' s' ev,
      f h x s = Ok h' s' ∧ ContentSummary h s h' s' ev
      ∧ (good x → h' = true → h = true ∨ someWriteFailed ev = true)) →
  ∀ items h s, ∃ h' s' ev,
      foldM f items h s = Ok h' s' ∧ ContentSummary h s h' s' ev
      ∧ (Forall good items → h' = true → h = true ∨ someWriteFailed ev = true).
Proof.
  intros Hf items. induction items as [|x items IH]; intros h s.
  - exists h, s, []. split_and!; [done | apply ContentSummary_refl | by left].
  - destruct (Hf h x s) as (h1 & s1 & ev1 & Hrun1 & Hsum1 & Hconv1).
    destruct (IH h1 s1) as (h2 & s2 & ev2 & Hrun2 & Hsum2 & Hconv2).
    exists h2, s2, (ev1 ++ ev2)%list. split_and!.
    + cbn [foldM]. unfold bind. by rewrite Hrun1.
    + by eapply ContentSummary_trans.
    + intros [Hx Hitems]%Forall_cons Hh2. rewrite someWriteFailed_app, orb_true_iff.
      destruct (Hconv2 Hitems Hh2) as [Hh1|?]; [|by auto].
      destruct (Hconv1 Hx Hh1); auto.
Qed.

Lemma migrateLegacyDataJsonContent_summary (cfg : Config) (d : JValue) (s : Vault) :
  ∃ h s' ev,
    migrateLegacyDataJsonContent cfg d s = Ok h s'
    ∧ ContentSummary false s h s' ev
    ∧ (Forall (fun c => c ≠ JNull) (itemsOf (prop "conversations" d)) →
       h = true → someWriteFailed ev = true).
Proof.
  destruct (foldM_summary (migrateCommand cfg) (fun _ => True)) with
    (items := itemsOf (prop "slashCommands" d)) (h := false) (s := s)
    as (h1 & s1 & ev1 & Hrun1 & Hsum1 & Hconv1).
  { intros h x s0. destruct (migrateCommand_summary cfg h x s0) as (h' & s' & ev & ? & ? & ? & ?).
    exists h', s', ev. auto. }
  destruct (foldM_summary (migrateConversation cfg) (fun c => c ≠ JNull)) with
    (items := itemsOf (prop "conversations" d)) (h := h1) (s := s1)
    as (h2 & s2 & ev2 & Hrun2 & Hsum2 & Hconv2).
  { intros h x s0. destruct (migrateConversation_summary cfg h x s0) as (h' & s' & ev & ? & ? & ? & ?).
    exists h', s', ev. auto. }
  exists h2, s2, (ev1 ++ ev2)%list. split_and!.
  - unfold migrateLegacyDataJsonContent, bind. by rewrite Hrun1.
  - by eapply ContentSummary_trans.
  - intros Hgood Hh2. rewrite someWriteFailed_app, orb_true_iff.
    destruct (Hconv2 Hgood Hh2) as [Hh1|?]; [|by auto].
    destruct Hconv1 as [?|?]; auto. { by apply Forall_true. } done.
Qed.

Lemma newEvents_app (s s' : Vault) (ev : list Event) :
  log s' = (log s ++ ev)%list → newEvents s s' = ev.
Proof. intros Hl. unfold newEvents. rewrite Hl. by rewrite drop_app_length. Qed.

Lemma foldM_all_present (f : bool → JValue → M bool) (path : JValue → string)
    (good : JValue → Prop) :
  (∀ h x s, good x → is_Some (files s !! path x) →
            f h x s = Ok h (record (EvExists (path x)) s)) →
  ∀ items h s,
    Forall (fun x => good x ∧ is_Some (files s !! path x)) items →
    ∃ s' ev, foldM f items h s = Ok h s' ∧ files s' = files s
             ∧ log s' = (log s ++ ev)%list ∧ writes ev = [].
Proof.
  intros Hf items. induction items as [|x items IH]; intros h s Hall.
  - exists s, []. by rewrite app_nil_r.
  - apply Forall_cons in Hall as [[Hx Hp] Hall].
    destruct (IH h (record (EvExists (path x)) s)) as (s' & ev & Hrun & Hfiles & Hlog & Hw); [done|].
    exists s', (EvExists (path x) :: ev). split_and!.
    + cbn [foldM]. unfold bind. by rewrite Hf.
    + done.
    + rewrite Hlog. simpl. by rewrite <- app_assoc.
    + done.
Qed.

(** C7.  A slash command or a conversation whose target file exists is
    skipped: its step returns normally with [hadErrors] as it was and with
    the vault as it was but for the record of the existence check; for a
    blob whose content fields fit their declaration, the whole content
    migration returns normally and leaves every file that existed before it
    with its contents, whatever else it migrates; and when every target
    exists it reports no error and writes nothing. *)
Theorem content_migration_skips_existing (cfg : Config) :
  (∀ h command s,
      is_Some (files s !! commandFilePath cfg command) →
      migrateCommand cfg h command s =
        Ok h (record (EvExists (commandFilePath cfg command)) s))
  ∧ (∀ h conversation s,
      conversation ≠ JNull →
      is_Some (files s !! sessionFilePath cfg (prop "id" conversation)) →
      migrateConversation cfg h conversation s =
        Ok h (record (EvExists (sessionFilePath cfg (prop "id" conversation))) s))
  ∧ (∀ d s,
      wellTypedData d = true →
      ∃ h s',
        migrateLegacyDataJsonContent cfg d s = Ok h s'
        ∧ ∀ p x, files s !! p = Some x → files s' !! p = Some x)
  ∧ (∀ d s,
      wellTypedData d = true →
      Forall (fun c => is_Some (files s !! commandFilePath cfg c))
             (itemsOf (prop "slashCommands" d)) →
      Forall (fun c => c ≠ JNull ∧ is_Some (files s !! sessionFilePath cfg (prop "id" c)))
             (itemsOf (prop "conversations" d)) →
      ∃ s', migrateLegacyDataJsonContent cfg d s = Ok false s'
            ∧ files s' = files s
            ∧ writes (newEvents s s') = []).
Proof.
  assert (Hcmd : ∀ h command s,
      is_Some (files s !! commandFilePath cfg command) →
      migrateCommand cfg h command s =
        Ok h (record (EvExists (commandFilePath cfg command)) s)).
  { intros h command s Hp.
    destruct (migrateCommand_summary cfg h command s) as (h' & s' & ev & Hrun & _ & _ & Hskip).
    destruct (Hskip Hp) as [-> ->]. done. }
  assert (Hconv : ∀ h conversation s,
      conversation ≠ JNull →
      is_Some (files s !! sessionFilePath cfg (prop "id" conversation)) →
      migrateConversation cfg h conversation s =
        Ok h (record (EvExists (sessionFilePath cfg (prop "id" conversation))) s)).
  { intros h conversation s Hnn Hp.
    destruct (migrateConversation_summary cfg h conversation s)
      as (h' & s' & ev & Hrun & _ & _ & Hskip).
    destruct (Hskip Hnn Hp) as [-> ->]. done. }
  split_and!; [exact Hcmd | exact Hconv | |].
  - intros d s _.
    destruct (migrateLegacyDataJsonContent_summary cfg d s)
      as (h & s' & ev & Hrun & (_ & _ & _ & _ & _ & Hkeep & _) & _).
    by exists h, s'.
  - intros d s _ Hcs Hvs.
    destruct (foldM_all_present (migrateCommand cfg) (commandFilePath cfg) (fun _ => True))
      with (items := itemsOf (prop "slashCommands" d)) (h := false) (s := s)
      as (s1 & ev1 & Hrun1 & Hf1 & Hl1 & Hw1).
    { intros h x s0 _. apply Hcmd. }
    { eapply Forall_impl; [exact Hcs|]. intros c Hc. by split. }
    destruct (foldM_all_present (migrateConversation cfg)
                (fun c => sessionFilePath cfg (prop "id" c)) (fun c => c ≠ JNull))
      with (items := itemsOf (prop "conversations" d)) (h := false) (s := s1)
      as (s2 & ev2 & Hrun2 & Hf2 & Hl2 & Hw2).
    { intros h x s0. apply Hconv. }
    { eapply Forall_impl; [exact Hvs|]. intros c [? ?]. by rewrite Hf1. }
    exists s2. split_and!.
    + unfold migrateLegacyDataJsonContent, bind. by rewrite Hrun1.
    + congruence.
    + rewrite (newEvents_app s s2 (ev1 ++ ev2)%list).
      * unfold writes in *. by rewrite filter_app, Hw1, Hw2.
      * by rewrite Hl2, Hl1, app_assoc.
Qed.

(** The command of the unit test, migrated into a vault that already holds
    its file: the file keeps its text and no error is reported. *)
Lemma content_migration_skips_existing_example :
  ∃ s', migrateLegacyDataJsonContent Example.reliable
          (JObj [("slashCommands", JArr [Example.reviewCommand])])
          (Example.vault [(".claude/commands/review.md", Text "mine")] None) = Ok false s'
        ∧ files s' !! ".claude/commands/review.md" = Some (Text "mine").
Proof. eexists. split; [vm_compute; reflexivity | reflexivity]. Qed.

(* ===================================================================== *)
(** ** Traces of the storage operations *)
(* ===================================================================== *)

Lemma replayFiles_app (a b : list Event) (f : gmap string Content) :
  replayFiles (a ++ b) f = replayFiles b (replayFiles a f).
Proof. apply fold_left_app. Qed.

Lemma replayData_app (a b : list Event) (d : option JValue) :
  replayData (a ++ b) d = replayData b (replayData a d).
Proof. apply fold_left_app. Qed.

Lemma Trace_refl (s : Vault) : Trace s s [].
Proof. unfold Trace. by rewrite app_nil_r. Qed.

Lemma Trace_trans (s1 s2 s3 : Vault) (ev1 ev2 : list Event) :
  Trace s1 s2 ev1 → Trace s2 s3 ev2 → Trace s1 s3 (ev1 ++ ev2).
Proof.
  intros (L1 & F1 & D1 & O1) (L2 & F2 & D2 & O2). unfold Trace. split_and!.
  - by rewrite L2, L1, app_assoc.
  - by rewrite replayFiles_app, <- F1.
  - by rewrite replayData_app, <- D1.
  - congruence.
Qed.

Lemma Trace_cons (s1 s2 s3 : Vault) (e : Event) (ev : list Event) :
  Trace s1 s2 [e] → Trace s2 s3 ev → Trace s1 s3 (e :: ev).
Proof. apply (Trace_trans s1 s2 s3 [e] ev). Qed.

Lemma Trace_exists (p : string) (s : Vault) : Trace s (record (EvExists p) s) [EvExists p].
Proof. done. Qed.

Lemma Trace_read (p : string) (s : Vault) : Trace s (record (EvRead p) s) [EvRead p].
Proof. done. Qed.

(** [adapter.write] appends one event; it throws exactly when the event
    says [Failed]. *)
Lemma adapterWrite_trace (cfg : Config) (p : string) (c : Content) (s : Vault) :
  ∃ o, Trace s (stateOf (adapterWrite cfg p c s)) [EvWrite p c o]
       ∧ match o with
         | Failed => adapterWrite cfg p c s =
                       Throw (WriteFailed p) (stateOf (adapterWrite cfg p c s))
         | _ => adapterWrite cfg p c s = Ok tt (stateOf (adapterWrite cfg p c s))
         end.
Proof.
  unfold adapterWrite.
  destruct (failWrite cfg p); [by exists Failed|].
  destruct (loseWrite cfg p); [by exists Lost | by exists Stored].
Qed.

(** [claudianSettings.load()] looks the file up and reads it when it is
    there; it writes nothing. *)
Lemma claudianLoad_trace (cfg : Config) (s : Vault) :
  ∃ ev, Trace s (stateOf (claudianLoad cfg s)) ev
        ∧ (ev = [EvExists CLAUDIAN_SETTINGS_PATH]
           ∨ ev = [EvExists CLAUDIAN_SETTINGS_PATH; EvRead CLAUDIAN_SETTINGS_PATH]).
Proof.
  unfold claudianLoad, bind, adapterExists, adapterRead.
  case_bool_decide as Hex; cbn [negb files record].
  - destruct Hex as [c Hc]. rewrite Hc.
    exists [EvExists CLAUDIAN_SETTINGS_PATH; EvRead CLAUDIAN_SETTINGS_PATH].
    split; [|by right].
    destruct c as [[]|]; unfold Trace; simpl; rewrite <- app_assoc; done.
  - exists [EvExists CLAUDIAN_SETTINGS_PATH]. split; [done | by left].
Qed.

Lemma verifiedBeforeRewrite_no_rewrite (ev : list Event) :
  existsb (writesTo CC_SETTINGS_PATH) ev = false → verifiedBeforeRewrite ev.
Proof.
  intros Hno i c o Hi. exfalso.
  assert (Hin : existsb (writesTo CC_SETTINGS_PATH) ev = true).
  { apply existsb_exists. exists (EvWrite CC_SETTINGS_PATH c o). split.
    - apply list_elem_of_In. by eapply list_elem_of_lookup_2.
    - reflexivity. }
  congruence.
Qed.

Lemma mergedEnvironment_pure (oldSettings : JValue) (s : Vault) :
  (∃ v, mergedEnvironment oldSettings s = Ok v s)
  ∨ mergedEnvironment oldSettings s = Throw TypeError s.
Proof.
  rewrite mergedEnvironment_guard.
  destruct (Js.isEmpty _); [left; by eexists|].
  destruct (environmentVariablesOf oldSettings); (by right) || (left; by eexists).
Qed.

Lemma derivePermissions_pure (cfg : Config) (oldSettings : JValue) (s : Vault) :
  (∃ p, derivePermissions cfg oldSettings s = Ok p s)
  ∨ derivePermissions cfg oldSettings s = Throw IllTyped s.
Proof.
  unfold derivePermissions.
  destruct (prop "permissions" oldSettings) as [[]|]; try (left; by eexists).
  destruct (mapM asLegacyPermission items); [left; by eexists | by right].
Qed.

Lemma claudianLoad_error (cfg : Config) (s s' : Vault) (e : Error) :
  claudianLoad cfg s = Throw e s' → e ≠ VerificationFailed.
Proof.
  unfold claudianLoad, bind, adapterExists, adapterRead.
  case_bool_decide as Hex; cbn [negb files record]; [|done].
  destruct Hex as [c Hc]. rewrite Hc.
  destruct c as [[]|]; intros Heq; unfold jsonParse, throw, ret in Heq;
    simplify_eq/=; intros ?; discriminate.
Qed.

Lemma migrateFromOldSettingsJson_unfold (cfg : Config) (s : Vault) (old : JValue) :
  files s !! CC_SETTINGS_PATH = Some (Json old) → old ≠ JNull →
  migrateFromOldSettingsJson cfg s =
    (if negb (hasClaudianFields old) then ret tt else splitSettings cfg old)
      (record (EvRead CC_SETTINGS_PATH) s).
Proof.
  intros Hf Hnn. unfold migrateFromOldSettingsJson, bind, adapterRead. rewrite Hf.
  by destruct old.
Qed.

Lemma rewriteSettings_facts (cfg : Config) (old : JValue) (s : Vault) :
  ∃ ev, Trace s (stateOf (rewriteSettings cfg old s)) ev
    ∧ (ev = [] ∨ ∃ c o, ev = [EvWrite CC_SETTINGS_PATH c o])
    ∧ (∀ s', rewriteSettings cfg old s = Ok tt s' → someWriteFailed ev = false)
    ∧ (∀ s', rewriteSettings cfg old s ≠ Throw VerificationFailed s')
    ∧ (ev = [] → ∀ s', rewriteSettings cfg old s ≠ Ok tt s').
Proof.
  unfold rewriteSettings, bind.
  destruct (derivePermissions_pure cfg old s) as [[p ->]| ->].
  - unfold ccSave.
    destruct (adapterWrite_trace cfg CC_SETTINGS_PATH
                (Json (JObj [("$schema", JStr CC_SCHEMA); ("permissions", JObj p)])) s)
      as (o & Htr & Ho).
    eexists. split; [exact Htr|]. split; [right; by eauto|].
    destruct o; rewrite Ho; split_and!; intros; try done.
  - exists []. split; [apply Trace_refl|]. split; [by left|]. split_and!; done.
Qed.

Lemma verifyThenRewrite_facts (cfg : Config) (old : JValue) (s : Vault) :
  ∃ evl evr, Trace s (stateOf (verifyThenRewrite cfg old s)) (evl ++ evr)
    ∧ (evl = [EvExists CLAUDIAN_SETTINGS_PATH]
       ∨ evl = [EvExists CLAUDIAN_SETTINGS_PATH; EvRead CLAUDIAN_SETTINGS_PATH])
    ∧ (evr = [] ∨ ∃ c o, evr = [EvWrite CC_SETTINGS_PATH c o])
    ∧ (∀ s', verifyThenRewrite cfg old s = Ok tt s' → someWriteFailed evr = false)
    ∧ (∀ s', verifyThenRewrite cfg old s = Throw VerificationFailed s' → evr = []).
Proof.
  unfold verifyThenRewrite, bind.
  destruct (claudianLoad_trace cfg s) as (evl & Htr & Hevl).
  destruct (claudianLoad cfg s) as [saved s1|e s1] eqn:Hload; cbn [stateOf] in Htr.
  - case_bool_decide as Hname.
    + exists evl, []. rewrite app_nil_r. split_and!; try done; by left.
    + destruct (rewriteSettings_facts cfg old s1) as (evr & Htr2 & Hevr & Hok & Hnv & _).
      exists evl, evr. split_and!; try done.
      * by eapply Trace_trans.
      * intros s' Hv. by apply Hnv in Hv.
  - exists evl, []. rewrite app_nil_r. split_and!; try done; by left.
Qed.

Lemma verifiedBeforeRewrite_split (c : Content) (o : WriteOutcome) (evl evr : list Event) :
  evl = [EvExists CLAUDIAN_SETTINGS_PATH]
  ∨ evl = [EvExists CLAUDIAN_SETTINGS_PATH; EvRead CLAUDIAN_SETTINGS_PATH] →
  (evr = [] ∨ ∃ c' o', evr = [EvWrite CC_SETTINGS_PATH c' o']) →
  verifiedBeforeRewrite
    (EvRead CC_SETTINGS_PATH :: EvWrite CLAUDIAN_SETTINGS_PATH c o :: evl ++ evr).
Proof.
  intros Hl Hr i c2 o2 Hi.
  assert (Hjk : 1 < 2) by lia.
  destruct Hl as [->| ->]; destruct Hr as [->|(c' & o' & ->)]; simpl in Hi;
    repeat (destruct i as [|i]; simpl in Hi; try discriminate Hi);
    exists 1, 2, c, o; split_and!; try done; lia.
Qed.

Lemma existsb_writesTo_settings (c : Content) (o : WriteOutcome) (evl : list Event) :
  evl = [EvExists CLAUDIAN_SETTINGS_PATH]
  ∨ evl = [EvExists CLAUDIAN_SETTINGS_PATH; EvRead CLAUDIAN_SETTINGS_PATH] →
  existsb (writesTo CC_SETTINGS_PATH)
    (EvRead CC_SETTINGS_PATH :: EvWrite CLAUDIAN_SETTINGS_PATH c o :: evl) = false
  ∧ cleared (EvRead CC_SETTINGS_PATH :: EvWrite CLAUDIAN_SETTINGS_PATH c o :: evl) = false
  ∧ someWriteFailed evl = false.
Proof. intros [->| ->]; done. Qed.

(** The split migration, summarised by its events. *)
Lemma migrateFromOldSettingsJson_facts (cfg : Config) (s : Vault) :
  ∃ ev, Trace s (stateOf (migrateFromOldSettingsJson cfg s)) ev
    ∧ verifiedBeforeRewrite ev
    ∧ cleared ev = false
    ∧ (∀ s', migrateFromOldSettingsJson cfg s = Ok tt s' → someWriteFailed ev = false)
    ∧ (∀ s', migrateFromOldSettingsJson cfg s = Throw VerificationFailed s' →
             existsb (writesTo CC_SETTINGS_PATH) ev = false)
    ∧ (∀ s', migrateFromOldSettingsJson cfg s = Ok tt s' →
             (ev = [EvRead CC_SETTINGS_PATH]
              ∧ ∃ old, files s !! CC_SETTINGS_PATH = Some (Json old) ∧ old ≠ JNull
                       ∧ hasClaudianFields old = false)
             ∨ existsb (writesTo CLAUDIAN_SETTINGS_PATH) ev = true).
Proof.
  assert (Hunread : ∀ e, e ≠ VerificationFailed →
            migrateFromOldSettingsJson cfg s = Throw e (record (EvRead CC_SETTINGS_PATH) s) →
            ∃ ev, Trace s (stateOf (migrateFromOldSettingsJson cfg s)) ev
              ∧ verifiedBeforeRewrite ev ∧ cleared ev = false
              ∧ (∀ s', migrateFromOldSettingsJson cfg s = Ok tt s' → someWriteFailed ev = false)
              ∧ (∀ s', migrateFromOldSettingsJson cfg s = Throw VerificationFailed s' →
                       existsb (writesTo CC_SETTINGS_PATH) ev = false)
              ∧ (∀ s', migrateFromOldSettingsJson cfg s = Ok tt s' →
                       (ev = [EvRead CC_SETTINGS_PATH]
                        ∧ ∃ old, files s !! CC_SETTINGS_PATH = Some (Json old) ∧ old ≠ JNull
                                 ∧ hasClaudianFields old = false)
                       ∨ existsb (writesTo CLAUDIAN_SETTINGS_PATH) ev = true)).
  { intros e He ->. exists [EvRead CC_SETTINGS_PATH].
    split_and!; try done. by apply verifiedBeforeRewrite_no_rewrite. }
  destruct (files s !! CC_SETTINGS_PATH) as [[old|t]|] eqn:Hfile.
  2: { apply (Hunread SyntaxError); [done|].
       unfold migrateFromOldSettingsJson, bind, adapterRead. by rewrite Hfile. }
  2: { apply (Hunread (MissingFile CC_SETTINGS_PATH)); [done|].
       unfold migrateFromOldSettingsJson, bind, adapterRead. by rewrite Hfile. }
  assert (Hnull : old = JNull ∨ old ≠ JNull) by (destruct old; auto).
  destruct Hnull as [->|Hnn].
  { apply (Hunread TypeError); [done|].
    unfold migrateFromOldSettingsJson, bind, adapterRead. by rewrite Hfile. }
  rewrite (migrateFromOldSettingsJson_unfold cfg s old Hfile Hnn).
  destruct (hasClaudianFields old) eqn:Hfields; cbn [negb].
  2: { exists [EvRead CC_SETTINGS_PATH].
       split_and!; try done; [by apply verifiedBeforeRewrite_no_rewrite|].
       intros s' _. left. split; [done|]. by exists old. }
  set (s1 := record (EvRead CC_SETTINGS_PATH) s).
  unfold splitSettings, bind.
  destruct (mergedEnvironment_pure old s1) as [[env ->]| ->].
  2: { exists [EvRead CC_SETTINGS_PATH].
       split_and!; try done. by apply verifiedBeforeRewrite_no_rewrite. }
  unfold claudianSave.
  destruct (adapterWrite_trace cfg CLAUDIAN_SETTINGS_PATH
              (Json (JObj (claudianFields cfg old env))) s1) as (o & Htr & Ho).
  set (c := Json (JObj (claudianFields cfg old env))) in *.
  set (s2 := stateOf (adapterWrite cfg CLAUDIAN_SETTINGS_PATH c s1)) in *.
  assert (Htr1 : Trace s s2 [EvRead CC_SETTINGS_PATH; EvWrite CLAUDIAN_SETTINGS_PATH c o]).
  { eapply Trace_cons; [apply Trace_read | exact Htr]. }
  destruct o.
  3: { rewrite Ho. cbn [stateOf]. eexists. split; [exact Htr1|].
       split_and!; try done. by apply verifiedBeforeRewrite_no_rewrite. }
  all: rewrite Ho;
    destruct (verifyThenRewrite_facts cfg old s2) as (evl & evr & Htr2 & Hevl & Hevr & Hok & Hver);
    destruct (existsb_writesTo_settings c ltac:(first [exact Stored | exact Lost]) evl Hevl)
      as (Hcc & Hcl & Hfl).
  all: eexists; split;
    [ eapply (Trace_trans s s2 _ [EvRead CC_SETTINGS_PATH; EvWrite CLAUDIAN_SETTINGS_PATH c _]);
      [exact Htr1 | exact Htr2] |].
  all: cbn [app]; split_and!.
  all: try (by apply verifiedBeforeRewrite_split).
  all: try (intros s' Hrun; specialize (Hok s' Hrun);
            cbn [someWriteFailed existsb isFailedWrite orb];
            fold (someWriteFailed (evl ++ evr)); by rewrite someWriteFailed_app, Hfl, Hok).
  all: try (intros s' Hrun; rewrite (Hver s' Hrun), app_nil_r;
            by destruct Hevl as [->| ->]).
  all: try (intros s' Hrun; by right).
  all: destruct Hevl as [->| ->]; destruct Hevr as [->|(c' & o' & ->)]; done.
Qed.

Lemma replayFiles_lookup_ne (ev : list Event) (f : gmap string Content) (p : string) :
  existsb (writesTo p) ev = false → replayFiles ev f !! p = f !! p.
Proof.
  revert f. induction ev as [|e ev IH]; intros f Hno; [done|].
  cbn [existsb] in Hno. apply orb_false_elim in Hno as [He Hev].
  unfold replayFiles. cbn [fold_left]. fold (replayFiles ev).
  rewrite IH by done. destruct e as [| |q c o|]; try done.
  destruct o; try done. simpl in He. apply bool_decide_eq_false in He.
  by rewrite lookup_insert_ne.
Qed.

Lemma claudianLoad_files (cfg : Config) (s : Vault) :
  files (stateOf (claudianLoad cfg s)) = files s
  ∧ data (stateOf (claudianLoad cfg s)) = data s
  ∧ folders (stateOf (claudianLoad cfg s)) = folders s.
Proof.
  destruct (claudianLoad_trace cfg s) as (ev & (_ & Hf & Hd & Ho) & [->| ->]); done.
Qed.

(** C2.  In the split migration every write of [settings.json] comes after
    the write of [claudian-settings.json] and after the look-up that reads
    it back; whenever the record read back has no [userName], the fatal
    error is thrown there and then, with the files as they were when the
    read-back began; and a run that ends in this error has written nothing
    to [settings.json], which holds what it held before the migration. *)
Theorem split_verification_gate (cfg : Config) (s : Vault) :
  verifiedBeforeRewrite (newEvents s (stateOf (migrateFromOldSettingsJson cfg s)))
  ∧ (∀ old s2 saved s3,
        claudianLoad cfg s2 = Ok saved s3 → Obj.get "userName" saved = None →
        verifyThenRewrite cfg old s2 = Throw VerificationFailed s3 ∧ files s3 = files s2)
  ∧ (∀ s', migrateFromOldSettingsJson cfg s = Throw VerificationFailed s' →
        files s' !! CC_SETTINGS_PATH = files s !! CC_SETTINGS_PATH
        ∧ existsb (writesTo CC_SETTINGS_PATH) (newEvents s s') = false).
Proof.
  destruct (migrateFromOldSettingsJson_facts cfg s)
    as (ev & Htr & Hord & _ & _ & Hgate & _).
  pose proof Htr as (Hlog & Hfiles & _ & _).
  rewrite (newEvents_app _ _ _ Hlog). split_and!.
  - exact Hord.
  - intros old s2 saved s3 Hload Hname. split.
    + unfold verifyThenRewrite, bind. rewrite Hload. by rewrite bool_decide_true.
    + pose proof (claudianLoad_files cfg s2) as (Hf & _). by rewrite Hload in Hf.
  - intros s' Hrun. specialize (Hgate s' Hrun). rewrite Hrun in Hlog, Hfiles.
    cbn [stateOf] in Hlog, Hfiles. rewrite (newEvents_app _ _ _ Hlog). split; [|done].
    rewrite Hfiles. by apply replayFiles_lookup_ne.
Qed.

Lemma split_verification_gate_witness :
  migrateFromOldSettingsJson Example.noDefaults Example.modelOnlyVault =
    Throw VerificationFailed
      (stateOf (migrateFromOldSettingsJson Example.noDefaults Example.modelOnlyVault))
  ∧ files (stateOf (migrateFromOldSettingsJson Example.noDefaults Example.modelOnlyVault))
      !! CC_SETTINGS_PATH = Some (Json Example.modelOnly).
Proof.
  assert (Hrun : migrateFromOldSettingsJson Example.noDefaults Example.modelOnlyVault =
            Throw VerificationFailed
              (stateOf (migrateFromOldSettingsJson Example.noDefaults Example.modelOnlyVault))).
  { vm_compute. reflexivity. }
  split; [exact Hrun|].
  destruct (split_verification_gate Example.noDefaults Example.modelOnlyVault)
    as (_ & _ & Hgate).
  destruct (Hgate _ Hrun) as [-> _]. reflexivity.
Defined.

(* ===================================================================== *)
(** ** The read-back of the plugin settings *)
(* ===================================================================== *)

Lemma claudianLoad_userName (cfg : Config) (s s' : Vault) (saved : JObject) :
  is_Some (Obj.get "userName" (DEFAULT_SETTINGS cfg)) →
  claudianLoad cfg s = Ok saved s' → is_Some (Obj.get "userName" saved).
Proof.
  intros Hdef.
  assert (Hget : is_Some (Obj.get "userName" (getDefaults cfg))).
  { unfold getDefaults. by rewrite get_del_ne. }
  unfold claudianLoad, bind, adapterExists, adapterRead.
  case_bool_decide as Hex; cbn [negb files record].
  - destruct Hex as [c Hc]. rewrite Hc.
    destruct c as [v|]; [|done].
    intros Heq. unfold jsonParse, ret, throw in Heq.
    assert (Hsaved : saved = loadedSettings cfg v) by (destruct v; simplify_eq/=; done).
    subst saved. unfold loadedSettings. by do 2 apply get_spread_is_Some.
  - intros Heq. unfold ret in Heq. by simplify_eq.
Qed.

Lemma verifyThenRewrite_passes (cfg : Config) (old : JValue) (s s' : Vault) :
  is_Some (Obj.get "userName" (DEFAULT_SETTINGS cfg)) →
  verifyThenRewrite cfg old s ≠ Throw VerificationFailed s'.
Proof.
  intros Hdef. unfold verifyThenRewrite, bind.
  destruct (claudianLoad cfg s) as [saved s1|e s1] eqn:Hload.
  - destruct (claudianLoad_userName cfg s s1 saved Hdef Hload) as [v Hv].
    rewrite bool_decide_false by congruence.
    destruct (rewriteSettings_facts cfg old s1) as (_ & _ & _ & _ & Hnv & _). apply Hnv.
  - apply claudianLoad_error in Hload. congruence.
Qed.

(** C10.  When the default table defines [userName], every record that
    [load()] returns defines it; so the split migration never ends in the
    verification error; and when the plugin settings file is absent at the
    read-back (a write that was lost), the migration goes on to rewrite
    [settings.json] all the same. *)
Theorem verification_cannot_fail (cfg : Config) :
  is_Some (Obj.get "userName" (DEFAULT_SETTINGS cfg)) →
  (∀ s saved s', claudianLoad cfg s = Ok saved s' → is_Some (Obj.get "userName" saved))
  ∧ (∀ s s', migrateFromOldSettingsJson cfg s ≠ Throw VerificationFailed s')
  ∧ (∀ old s, files s !! CLAUDIAN_SETTINGS_PATH = None →
        verifyThenRewrite cfg old s =
          rewriteSettings cfg old (record (EvExists CLAUDIAN_SETTINGS_PATH) s)).
Proof.
  intros Hdef. split_and!.
  - intros s saved s'. by apply claudianLoad_userName.
  - intros s s'.
    unfold migrateFromOldSettingsJson, bind, adapterRead.
    destruct (files s !! CC_SETTINGS_PATH) as [[old|t]|]; try done.
    assert (Hsplit : ∀ s1, splitSettings cfg old s1 ≠ Throw VerificationFailed s').
    { intros s1. unfold splitSettings, bind.
      destruct (mergedEnvironment_pure old s1) as [[env ->]| ->]; [|done].
      unfold claudianSave.
      destruct (adapterWrite_trace cfg CLAUDIAN_SETTINGS_PATH
                  (Json (JObj (claudianFields cfg old env))) s1) as (o & _ & Ho).
      destruct o; rewrite Ho; try done; by apply verifyThenRewrite_passes. }
    unfold jsonParse, ret, throw.
    destruct old; try done; destruct (negb _); try done; apply Hsplit.
  - intros old s Habsent. unfold verifyThenRewrite, claudianLoad, bind, adapterExists.
    rewrite bool_decide_false by (rewrite Habsent; by intros [? ?]).
    cbn [negb]. unfold ret.
    destruct (Obj.get "userName" (getDefaults cfg)) eqn:Hget.
    + by rewrite bool_decide_false.
    + exfalso. unfold getDefaults in Hget. rewrite get_del_ne in Hget by done.
      rewrite Hget in Hdef. by destruct Hdef.
Qed.

Lemma verification_cannot_fail_witness :
  migrateFromOldSettingsJson Example.claudianLost Example.annVault ≠
    Throw VerificationFailed
      (stateOf (migrateFromOldSettingsJson Example.claudianLost Example.annVault))
  ∧ (∃ s', migrateFromOldSettingsJson Example.claudianLost Example.annVault = Ok tt s'
           ∧ files s' !! CLAUDIAN_SETTINGS_PATH = None
           ∧ files s' !! CC_SETTINGS_PATH =
               Some (Json (JObj [("$schema", JStr CC_SCHEMA);
                                 ("permissions",
                                   JObj [("allow", JArr [JStr "Bash(git *)"]);
                                         ("deny", JArr []); ("ask", JArr [])])]))).
Proof.
  destruct (verification_cannot_fail Example.claudianLost) as (_ & Hnv & _).
  - by eexists.
  - split; [apply Hnv|]. eexists. split_and!; [vm_compute; reflexivity | reflexivity..].
Defined.

(* ===================================================================== *)
(** ** The migration of the blob *)
(* ===================================================================== *)

Lemma replayData_not_cleared (ev : list Event) (d : option JValue) :
  cleared ev = false → replayData ev d = d.
Proof.
  revert d. induction ev as [|e ev IH]; intros d Hc; [done|].
  cbn [cleared existsb] in Hc. apply orb_false_elim in Hc as [He Hev].
  unfold replayData. cbn [fold_left]. fold (replayData ev).
  rewrite IH by done. by destruct e.
Qed.

Lemma replayFiles_mono (ev : list Event) (f : gmap string Content) (p : string) :
  is_Some (f !! p) → is_Some (replayFiles ev f !! p).
Proof.
  revert f. induction ev as [|e ev IH]; intros f Hp; [done|].
  unfold replayFiles. cbn [fold_left]. fold (replayFiles ev). apply IH.
  destruct e as [| |q c o|]; try done. destruct o; try done.
  destruct (decide (q = p)) as [->|Hne].
  - rewrite lookup_insert_eq. by eexists.
  - by rewrite lookup_insert_ne.
Qed.

Lemma replayFiles_stored (ev : list Event) (f : gmap string Content) (p : string) :
  allStored ev = true → existsb (writesTo p) ev = true → is_Some (replayFiles ev f !! p).
Proof.
  revert f. induction ev as [|e ev IH]; intros f Hall Hw; [done|].
  cbn [allStored forallb] in Hall. apply andb_true_iff in Hall as [He Hall].
  cbn [existsb] in Hw. unfold replayFiles. cbn [fold_left]. fold (replayFiles ev).
  apply orb_true_iff in Hw as [Hw|Hw]; [|by apply IH].
  destruct e as [| |q c o|]; try done. destruct o; try done.
  simpl in Hw. apply bool_decide_eq_true in Hw as ->.
  apply replayFiles_mono. rewrite lookup_insert_eq. by eexists.
Qed.

Lemma Trace_Keeps (s s' : Vault) (ev : list Event) :
  Trace s s' ev → cleared ev = false → existsb (writesTo CC_SETTINGS_PATH) ev = false →
  Keeps s s' ev.
Proof.
  intros (Hl & Hf & Hd & Ho) Hc Hcc. unfold Keeps. split_and!; try done.
  - rewrite Hd. by apply replayData_not_cleared.
  - intros p Hp. rewrite Hf. by apply replayFiles_mono.
  - rewrite Hf. by apply replayFiles_lookup_ne.
Qed.

Lemma Keeps_refl (s : Vault) : Keeps s s [].
Proof. unfold Keeps. by rewrite app_nil_r. Qed.

Lemma Keeps_trans (s1 s2 s3 : Vault) (ev1 ev2 : list Event) :
  Keeps s1 s2 ev1 → Keeps s2 s3 ev2 → Keeps s1 s3 (ev1 ++ ev2).
Proof.
  intros (L1 & D1 & O1 & C1 & M1 & F1) (L2 & D2 & O2 & C2 & M2 & F2).
  unfold Keeps. split_and!.
  - by rewrite L2, L1, app_assoc.
  - congruence.
  - congruence.
  - by rewrite cleared_app, C1, C2.
  - auto.
  - congruence.
Qed.

Lemma ContentSummary_Keeps (h h' : bool) (s s' : Vault) (ev : list Event) :
  ContentSummary h s h' s' ev → Keeps s s' ev.
Proof.
  intros (L & D & O & C & _ & P & A & _). unfold Keeps. split_and!; try done.
  intros p [x Hx]. exists x. by apply P.
Qed.

(** The state migration, summarised by its events. *)
Lemma migrateFromDataJson_facts (cfg : Config) (d : JValue) (s : Vault) :
  ∃ ev, Trace s (stateOf (migrateFromDataJson cfg d s)) ev
    ∧ cleared ev = false
    ∧ existsb (writesTo CC_SETTINGS_PATH) ev = false
    ∧ (∀ s', migrateFromDataJson cfg d s = Ok tt s' →
             someWriteFailed ev = false
             ∧ existsb (writesTo CLAUDIAN_SETTINGS_PATH) ev = true).
Proof.
  unfold migrateFromDataJson, bind.
  destruct (claudianLoad_trace cfg s) as (evl & Htr & Hevl).
  destruct (claudianLoad cfg s) as [claudian s1|e s1]; cbn [stateOf] in Htr.
  - unfold claudianSave.
    destruct (adapterWrite_trace cfg CLAUDIAN_SETTINGS_PATH
                (Json (JObj (mergeState d claudian))) s1) as (o & Htr2 & Ho).
    eexists. split; [by eapply Trace_trans|].
    destruct Hevl as [->| ->]; destruct o; rewrite Ho; split_and!; done.
  - exists evl. split; [done|]. destruct Hevl as [->| ->]; split_and!; done.
Qed.

Lemma allStored_app (a b : list Event) : allStored (a ++ b) = allStored a && allStored b.
Proof. apply forallb_app. Qed.

Lemma stateStep_facts (cfg : Config) (d : JValue) (s : Vault) :
  ∃ ev, Keeps s (stateOf (when (hasStateToMigrate d) (migrateFromDataJson cfg d) s)) ev
    ∧ (∀ s', when (hasStateToMigrate d) (migrateFromDataJson cfg d) s = Ok tt s' →
             someWriteFailed ev = false
             ∧ (hasStateToMigrate d = true → allStored ev = true →
                is_Some (files s' !! CLAUDIAN_SETTINGS_PATH))).
Proof.
  unfold when. destruct (hasStateToMigrate d).
  - destruct (migrateFromDataJson_facts cfg d s) as (ev & Htr & Hc & Hcc & Hok).
    exists ev. split; [by apply Trace_Keeps|].
    intros s' Hrun. destruct (Hok s' Hrun) as [Hnf Hcl]. split; [done|].
    intros _ Hall. rewrite Hrun in Htr. cbn [stateOf] in Htr. destruct Htr as (_ & -> & _).
    by apply replayFiles_stored.
  - exists []. split; [apply Keeps_refl|]. intros s' _. split; done.
Qed.

Lemma contentStep_facts (cfg : Config) (d : JValue) (s : Vault) :
  ∃ h s' ev,
    contentStep cfg d s = Ok h s'
    ∧ ContentSummary false s h s' ev
    ∧ (Forall (fun c => c ≠ JNull) (itemsOf (prop "conversations" d)) →
       h = true → someWriteFailed ev = true).
Proof.
  unfold contentStep. destruct (hasLegacyContentToMigrate d).
  - apply migrateLegacyDataJsonContent_summary.
  - exists false, s, []. split_and!; [done | apply ContentSummary_refl | done].
Qed.

(** The body of [if (dataJson) { ... }], summarised by its events; [h] is
    the flag the content step returned. *)
Lemma migrateBlob_facts (cfg : Config) (d : JValue) (s : Vault) :
  data s = Some d → truthy d = true →
  ∃ ev, log (stateOf (migrateBlob cfg d s)) = (log s ++ ev)%list
    ∧ folders (stateOf (migrateBlob cfg d s)) = folders s
    ∧ (someWriteFailed ev = true → cleared ev = false)
    ∧ (∀ p, is_Some (files s !! p) → is_Some (files (stateOf (migrateBlob cfg d s)) !! p))
    ∧ files (stateOf (migrateBlob cfg d s)) !! CC_SETTINGS_PATH = files s !! CC_SETTINGS_PATH
    ∧ (∀ s', migrateBlob cfg d s = Ok tt s' → ∃ h,
         (∃ s1 s2, when (hasStateToMigrate d) (migrateFromDataJson cfg d) s = Ok tt s1
                   ∧ contentStep cfg d s1 = Ok h s2)
         ∧ cleared ev = (hasStateToMigrate d || hasLegacyContentToMigrate d) && negb h
         ∧ (someWriteFailed ev = true → h = true)
         ∧ (Forall (fun c => c ≠ JNull) (itemsOf (prop "conversations" d)) →
            h = true → someWriteFailed ev = true)
         ∧ data s' = (if cleared ev then Some (JObj (cleanedData d)) else Some d)
         ∧ (hasStateToMigrate d = true → allStored ev = true →
            is_Some (files s' !! CLAUDIAN_SETTINGS_PATH))).
Proof.
  intros Hd Ht. unfold migrateBlob, bind. cbv zeta.
  destruct (stateStep_facts cfg d s) as (ev1 & Hk1 & Hok1).
  destruct (when (hasStateToMigrate d) (migrateFromDataJson cfg d) s) as [[] s1|e s1];
    cbn [stateOf] in Hk1.
  2: { destruct Hk1 as (L & D & O & C & M & F). exists ev1. split_and!; try done. }
  destruct (Hok1 s1 eq_refl) as [Hnf1 Hcl1]. clear Hok1.
  destruct (contentStep_facts cfg d s1) as (h & s2 & ev2 & Hrun2 & Hsum2 & Hconv2).
  rewrite Hrun2.
  pose proof (ContentSummary_Keeps _ _ _ _ _ Hsum2) as Hk2.
  pose proof (Keeps_trans _ _ _ _ _ Hk1 Hk2) as Hk12.
  destruct Hsum2 as (_ & _ & _ & _ & Hraise & Hpres & _ & Hcl2).
  destruct Hk12 as (L & D & O & C & M & F).
  assert (Hfail12 : someWriteFailed (ev1 ++ ev2) = someWriteFailed ev2).
  { by rewrite someWriteFailed_app, Hnf1. }
  unfold when.
  destruct ((hasStateToMigrate d || hasLegacyContentToMigrate d) && negb h) eqn:Hgate.
  - assert (Hd2 : data s2 = Some d) by congruence.
    rewrite (clearLegacyDataJson_saves s2 d Hd2 Ht). cbn [stateOf].
    apply andb_true_iff in Hgate as [Hany Hh]. apply negb_true_iff in Hh. subst h.
    assert (Hnf2 : someWriteFailed ev2 = false).
    { destruct (someWriteFailed ev2) eqn:Hf; [|done]. by specialize (Hraise (or_intror eq_refl)). }
    exists ((ev1 ++ ev2) ++ [EvSaveData (JObj (cleanedData d))])%list.
    assert (Hcleared : cleared ((ev1 ++ ev2) ++ [EvSaveData (JObj (cleanedData d))]) = true).
    { rewrite cleared_app. by rewrite orb_true_r. }
    assert (Hfailed : someWriteFailed ((ev1 ++ ev2) ++ [EvSaveData (JObj (cleanedData d))]) = false).
    { by rewrite someWriteFailed_app, Hfail12, Hnf2. }
    split_and!.
    + simpl. by rewrite L, !app_assoc.
    + done.
    + by rewrite Hfailed.
    + done.
    + done.
    + intros s' Heq. simplify_eq. exists false. rewrite Hcleared, Hfailed, Hany.
      split_and!; try done; [by exists s1, s2|].
      intros Hs Hall. cbn [files record withData].
      rewrite !allStored_app in Hall. apply andb_true_iff in Hall as [Hall _].
      apply andb_true_iff in Hall as [Hall1 _].
      destruct Hk2 as (_ & _ & _ & _ & M2 & _). apply M2. by apply Hcl1.
  - exists (ev1 ++ ev2)%list. unfold ret. cbn [stateOf]. split_and!; try done.
    intros s' Heq. simplify_eq. exists h. rewrite C, Hfail12. split_and!; try done.
    + by exists s1, s'.
    + intros Hf. apply Hraise. by right.
    + by rewrite <- Hd, D.
    + intros Hs Hall. rewrite allStored_app in Hall. apply andb_true_iff in Hall as [Hall1 _].
      destruct Hk2 as (_ & _ & _ & _ & M2 & _). apply M2. by apply Hcl1.
Qed.

Lemma blobOf_Some (s : Vault) (d : JValue) :
  blobOf s = Some d ↔ data s = Some d ∧ truthy d = true.
Proof.
  unfold blobOf. destruct (data s) as [v|].
  - destruct (truthy v) eqn:Hv; split.
    + by intros [= ->].
    + by intros [[= ->] _].
    + done.
    + intros [[= ->] Ht]. congruence.
  - split; [done | by intros [? _]].
Qed.

(** The vault after the two existence checks that open [runMigrations]. *)
Lemma runMigrations_unfold (cfg : Config) (s : Vault) :
  runMigrations cfg s =
    match when (bool_decide (is_Some (files s !! CC_SETTINGS_PATH))
                && negb (bool_decide (is_Some (files s !! CLAUDIAN_SETTINGS_PATH))))
               (migrateFromOldSettingsJson cfg)
               (record (EvExists CLAUDIAN_SETTINGS_PATH) (record (EvExists CC_SETTINGS_PATH) s))
    with
    | Ok _ s1 => match blobOf s with
                 | Some d => migrateBlob cfg d s1
                 | None => Ok tt s1
                 end
    | Throw e s1 => Throw e s1
    end.
Proof.
  unfold runMigrations, bind, ccExists, claudianExists, adapterExists, loadDataJson.
  cbn [files record]. 
  destruct (when _ _ _) as [[] s1|e s1]; [|done].
  unfold blobOf. cbn [data record]. by destruct (data s) as [v|]; [destruct (truthy v)|].
Qed.

Lemma splitStep_facts (cfg : Config) (b : bool) (s : Vault) :
  ∃ ev, Trace s (stateOf (when b (migrateFromOldSettingsJson cfg) s)) ev
    ∧ cleared ev = false
    ∧ (∀ s', when b (migrateFromOldSettingsJson cfg) s = Ok tt s' → someWriteFailed ev = false)
    ∧ (∀ s', when b (migrateFromOldSettingsJson cfg) s = Ok tt s' → b = true →
             (ev = [EvRead CC_SETTINGS_PATH]
              ∧ ∃ old, files s !! CC_SETTINGS_PATH = Some (Json old) ∧ old ≠ JNull
                       ∧ hasClaudianFields old = false)
             ∨ existsb (writesTo CLAUDIAN_SETTINGS_PATH) ev = true)
    ∧ (b = false → ev = []).
Proof.
  unfold when. destruct b.
  - destruct (migrateFromOldSettingsJson_facts cfg s) as (ev & Htr & _ & Hc & Hok & _ & Hcases).
    exists ev. split_and!; try done. intros s' Hrun _. exact (Hcases s' Hrun).
  - exists []. split_and!; try done. apply Trace_refl.
Qed.

(** [runMigrations], summarised by its events: the two existence checks,
    the events [evS] of the split migration and the events [evB] of the
    blob migration. *)
Lemma runMigrations_events (cfg : Config) (s : Vault) :
  ∃ evS evB,
    log (stateOf (runMigrations cfg s)) =
      (log s ++ [EvExists CC_SETTINGS_PATH; EvExists CLAUDIAN_SETTINGS_PATH] ++ evS ++ evB)%list
    ∧ cleared evS = false
    ∧ (someWriteFailed evB = true → cleared evB = false)
    ∧ (someWriteFailed evS = true → evB = [])
    ∧ (∀ s', runMigrations cfg s = Ok tt s' →
         someWriteFailed evS = false
         ∧ match blobOf s with
           | None => evB = []
           | Some d => ∃ h s1 s2 s3,
               cleared evB = (hasStateToMigrate d || hasLegacyContentToMigrate d) && negb h
               ∧ (someWriteFailed evB = true → h = true)
               ∧ (Forall (fun c => c ≠ JNull) (itemsOf (prop "conversations" d)) →
                  h = true → someWriteFailed evB = true)
               ∧ migrateBlob cfg d s1 = Ok tt s'
               ∧ newEvents s1 s' = evB
               ∧ when (hasStateToMigrate d) (migrateFromDataJson cfg d) s1 = Ok tt s2
               ∧ contentStep cfg d s2 = Ok h s3
           end).
Proof.
  rewrite runMigrations_unfold.
  set (s0 := record (EvExists CLAUDIAN_SETTINGS_PATH) (record (EvExists CC_SETTINGS_PATH) s)).
  set (b := bool_decide _ && negb _).
  assert (Hlog0 : log s0 = (log s ++ [EvExists CC_SETTINGS_PATH; EvExists CLAUDIAN_SETTINGS_PATH])%list).
  { subst s0. simpl. by rewrite <- app_assoc. }
  destruct (splitStep_facts cfg b s0) as (evS & Htr & Hc & Hok & _ & _).
  destruct Htr as (HlogS & _ & HdataS & _).
  destruct (when b (migrateFromOldSettingsJson cfg) s0) as [[] s1|e s1]; cbn [stateOf] in *.
  2: { exists evS, []. split_and!; try done.
       by rewrite HlogS, Hlog0, app_nil_r, <- !app_assoc. }
  specialize (Hok s1 eq_refl).
  destruct (blobOf s) as [d|] eqn:Hblob.
  2: { exists evS, []. cbn [stateOf]. split_and!; try done.
       by rewrite HlogS, Hlog0, app_nil_r, <- !app_assoc. }
  apply blobOf_Some in Hblob as [Hd Ht].
  assert (Hd1 : data s1 = Some d).
  { rewrite HdataS, replayData_not_cleared by done. done. }
  destruct (migrateBlob_facts cfg d s1 Hd1 Ht) as (evB & HlogB & _ & Hfc & _ & _ & HokB).
  exists evS, evB. split_and!; try done.
  - by rewrite HlogB, HlogS, Hlog0, <- !app_assoc.
  - intros Hf. congruence.
  - intros s' Hrun. split; [done|].
    destruct (HokB s' Hrun) as (h & (s2 & s3 & Hrun2 & Hrun3) & Hcl & Hraise & Hconv & _).
    exists h, s1, s2, s3. split_and!; try done.
    apply newEvents_app. rewrite Hrun in HlogB. done.
Qed.

Lemma inhabits_conversations (d : JValue) :
  inhabitsLegacyDataJson d = true →
  Forall (fun c => c ≠ JNull) (itemsOf (prop "conversations" d)).
Proof.
  unfold inhabitsLegacyDataJson. rewrite !andb_true_iff. intros [_ Hconv].
  rewrite forallb_forall in Hconv. apply Forall_forall. intros c Hc.
  apply list_elem_of_In, Hconv in Hc. by destruct c.
Qed.

(** C1.  During [runMigrations] the blob is cleared ([saveData] is called)
    only when no write threw; when [runMigrations] returns, the blob is
    cleared if and only if there is a blob with state or content to
    migrate and no write threw; and, in terms of the flag itself, the blob
    migration clears if and only if state or content was there to migrate
    and the content step returned [hadErrors = false]. *)
Theorem clear_gate (cfg : Config) (s : Vault) :
  (someWriteFailed (newEvents s (stateOf (runMigrations cfg s))) = true →
   cleared (newEvents s (stateOf (runMigrations cfg s))) = false)
  ∧ (∀ s', runMigrations cfg s = Ok tt s' → blobWellTyped s = true →
       (cleared (newEvents s s') = true ↔
        ∃ d, data s = Some d ∧ truthy d = true
             ∧ hasStateToMigrate d || hasLegacyContentToMigrate d = true
             ∧ someWriteFailed (newEvents s s') = false))
  ∧ (∀ s', runMigrations cfg s = Ok tt s' →
       ∀ d, blobOf s = Some d →
       ∃ s1 s2 hadErrors s3,
         when (hasStateToMigrate d) (migrateFromDataJson cfg d) s1 = Ok tt s2
         ∧ contentStep cfg d s2 = Ok hadErrors s3
         ∧ migrateBlob cfg d s1 = Ok tt s'
         ∧ (cleared (newEvents s s') = true ↔
            (hasStateToMigrate d || hasLegacyContentToMigrate d) && negb hadErrors = true)).
Proof.
  destruct (runMigrations_events cfg s) as (evS & evB & Hlog & HcS & Hfc & Hstop & Hok).
  pose proof (newEvents_app _ _ _ Hlog) as Hev.
  rewrite Hev.
  assert (Hcl : cleared ([EvExists CC_SETTINGS_PATH; EvExists CLAUDIAN_SETTINGS_PATH] ++ evS ++ evB)
                = cleared evB).
  { by rewrite !cleared_app, HcS. }
  assert (Hfl : someWriteFailed
                  ([EvExists CC_SETTINGS_PATH; EvExists CLAUDIAN_SETTINGS_PATH] ++ evS ++ evB)
                = someWriteFailed evS || someWriteFailed evB).
  { by rewrite !someWriteFailed_app. }
  split_and!.
  - rewrite Hcl, Hfl. intros [Hf|Hf]%orb_true_iff; [by rewrite Hstop | by apply Hfc].
  - intros s' Hrun Hwt.
    rewrite Hrun in Hev. cbn [stateOf] in Hev. rewrite Hev, Hcl, Hfl.
    destruct (Hok s' Hrun) as [HfS Hblob]. rewrite HfS. cbn [orb].
    destruct (blobOf s) as [d|] eqn:Hb.
    + apply blobOf_Some in Hb as [Hd Ht].
      destruct Hblob as (h & s1 & s2 & s3 & Hc & Hraise & Hconv & _).
      assert (Hnn : Forall (fun c => c ≠ JNull) (itemsOf (prop "conversations" d))).
      { apply inhabits_conversations. unfold blobWellTyped in Hwt. by rewrite Hd in Hwt. }
      rewrite Hc. split.
      * intros [Hany Hh]%andb_true_iff. apply negb_true_iff in Hh. exists d.
        split_and!; try done. destruct (someWriteFailed evB); [|done]. by rewrite Hraise in Hh.
      * intros (d' & Hd' & _ & Hany & Hnf). assert (d' = d) as -> by congruence.
        rewrite Hany. cbn [andb]. apply negb_true_iff.
        destruct h; [|done]. rewrite Hconv in Hnf; done.
    + subst evB. split; [done|]. intros (d & Hd & Ht & _).
      assert (Hsome : blobOf s = Some d) by (by apply blobOf_Some). congruence.
  - intros s' Hrun d Hb. rewrite Hrun in Hev. cbn [stateOf] in Hev.
    rewrite Hev, Hcl. destruct (Hok s' Hrun) as [_ Hblob]. rewrite Hb in Hblob.
    destruct Hblob as (h & s1 & s2 & s3 & Hc & _ & _ & Hblob & _ & Hstate & Hcontent).
    exists s1, s2, h, s3. split_and!; try done. by rewrite Hc.
Qed.

Lemma clear_gate_witness :
  cleared (newEvents (Example.vault [] (Some Example.stateAndCommand))
             (stateOf (runMigrations Example.commandsFail
                         (Example.vault [] (Some Example.stateAndCommand))))) = false
  ∧ data (stateOf (runMigrations Example.commandsFail
                     (Example.vault [] (Some Example.stateAndCommand)))) =
      Some Example.stateAndCommand.
Proof.
  destruct (clear_gate Example.commandsFail (Example.vault [] (Some Example.stateAndCommand)))
    as (Hfailed & _ & _).
  split; [apply Hfailed; vm_compute; reflexivity | vm_compute; reflexivity].
Defined.

(** The two tests of the repository: a migrated command clears the blob, a
    failing write leaves it. *)
Lemma clear_gate_examples :
  cleared (newEvents (Example.vault [] (Some (JObj [("slashCommands", JArr [Example.reviewCommand])])))
             (stateOf (runMigrations Example.reliable
                (Example.vault [] (Some (JObj [("slashCommands", JArr [Example.reviewCommand])]))))))
    = true
  ∧ data (stateOf (runMigrations Example.reliable
            (Example.vault [] (Some (JObj [("slashCommands", JArr [Example.reviewCommand])])))))
    = Some (JObj [])
  ∧ cleared (newEvents (Example.vault [] (Some (JObj [("slashCommands", JArr [Example.reviewCommand])])))
             (stateOf (runMigrations Example.commandsFail
                (Example.vault [] (Some (JObj [("slashCommands", JArr [Example.reviewCommand])]))))))
    = false.
Proof. split_and!; vm_compute; reflexivity. Qed.

(* ===================================================================== *)
(** ** A second start *)
(* ===================================================================== *)

Lemma migrateBlob_nothing (cfg : Config) (d : JValue) (s : Vault) :
  hasStateToMigrate d = false → hasLegacyContentToMigrate d = false →
  migrateBlob cfg d s = Ok tt s.
Proof.
  intros Hs Hc. unfold migrateBlob, contentStep, bind. cbv zeta. by rewrite Hs, Hc.
Qed.

(** With nothing left to migrate, [runMigrations] checks and reads, and
    writes nothing. *)
Lemma runMigrations_quiescent (cfg : Config) (s : Vault) :
  Quiescent s →
  ∃ s', runMigrations cfg s = Ok tt s'
        ∧ files s' = files s ∧ data s' = data s ∧ folders s' = folders s
        ∧ writes (newEvents s s') = [].
Proof.
  intros [Hq1 Hq2]. rewrite runMigrations_unfold.
  set (s0 := record (EvExists CLAUDIAN_SETTINGS_PATH) (record (EvExists CC_SETTINGS_PATH) s)).
  assert (Hblob : ∀ s1, match blobOf s with
                        | Some d => migrateBlob cfg d s1
                        | None => Ok tt s1
                        end = Ok tt s1).
  { intros s1. destruct (blobOf s) as [d|] eqn:Hb; [|done].
    apply blobOf_Some in Hb as [Hd Ht]. destruct (Hq2 d Hd Ht) as [Hs Hc].
    by apply migrateBlob_nothing. }
  unfold when.
  destruct (bool_decide (is_Some (files s !! CC_SETTINGS_PATH))
            && negb (bool_decide (is_Some (files s !! CLAUDIAN_SETTINGS_PATH)))) eqn:Hb.
  - apply andb_true_iff in Hb as [Hcc Hcl].
    apply bool_decide_eq_true in Hcc as [c Hc].
    apply negb_true_iff, bool_decide_eq_false in Hcl.
    assert (Hnone : files s !! CLAUDIAN_SETTINGS_PATH = None).
    { destruct (files s !! CLAUDIAN_SETTINGS_PATH) eqn:Heq; [|done]. exfalso. apply Hcl. by eexists. }
    destruct (Hq1 Hnone c Hc) as (old & -> & Hnn & Hclean).
    rewrite (migrateFromOldSettingsJson_unfold cfg s0 old) by done.
    rewrite Hclean. cbn [negb]. unfold ret. rewrite Hblob.
    eexists. split; [done|]. split_and!; try done.
    unfold newEvents. simpl. rewrite <- !app_assoc. by rewrite drop_app_length.
  - unfold ret. rewrite Hblob. eexists. split; [done|]. split_and!; try done.
    unfold newEvents. simpl. rewrite <- !app_assoc. by rewrite drop_app_length.
Qed.

Lemma allStored_no_failure (ev : list Event) :
  allStored ev = true → someWriteFailed ev = false.
Proof.
  induction ev as [|e ev IH]; [done|]. cbn [allStored forallb].
  intros [He Hev]%andb_true_iff. cbn [someWriteFailed existsb].
  rewrite orb_false_iff. split; [|by apply IH].
  destruct e as [| |p c o|]; try done. by destruct o.
Qed.

Lemma cleanedData_nothing (d : JValue) :
  hasStateToMigrate (JObj (cleanedData d)) = false
  ∧ hasLegacyContentToMigrate (JObj (cleanedData d)) = false.
Proof.
  assert (Hnone : ∀ k, k ∈ CLEARED_KEYS → prop k (JObj (cleanedData d)) = None).
  { intros k Hk. simpl. rewrite cleanedData_get. by rewrite decide_True. }
  unfold hasStateToMigrate, hasLegacyContentToMigrate.
  rewrite !Hnone by (unfold CLEARED_KEYS; in_list).
  split; [|done]. rewrite !bool_decide_false; [done | by intros [? ?]..].
Qed.

(** After a run whose writes were all stored, nothing is left to migrate. *)
Lemma runMigrations_settles (cfg : Config) (s s' : Vault) :
  runMigrations cfg s = Ok tt s' →
  allStored (newEvents s s') = true → blobWellTyped s = true →
  Quiescent s' ∧ folders s' = folders s.
Proof.
  intros Hrun Hall Hwt.
  rewrite runMigrations_unfold in Hrun.
  set (s0 := record (EvExists CLAUDIAN_SETTINGS_PATH) (record (EvExists CC_SETTINGS_PATH) s)) in *.
  assert (Hlog0 : log s0 = (log s ++ [EvExists CC_SETTINGS_PATH; EvExists CLAUDIAN_SETTINGS_PATH])%list).
  { subst s0. simpl. by rewrite <- app_assoc. }
  set (b := bool_decide _ && negb _) in *.
  destruct (splitStep_facts cfg b s0) as (evS & HtrS & HcS & _ & HcaseS & HskipS).
  destruct (when b (migrateFromOldSettingsJson cfg) s0) as [[] sS|e sS] eqn:Hsplit; [|done].
  cbn [stateOf] in HtrS. specialize (HcaseS sS eq_refl).
  destruct HtrS as (HlogS & HfilesS & HdataS & HfoldS).
  rewrite replayData_not_cleared in HdataS by done.
  change (files s0) with (files s) in *. change (data s0) with (data s) in HdataS.
  change (folders s0) with (folders s) in HfoldS.
  (* the blob migration, or none *)
  assert (Hblob : ∃ evB,
            log s' = (log sS ++ evB)%list ∧ folders s' = folders sS
            ∧ (∀ p, is_Some (files sS !! p) → is_Some (files s' !! p))
            ∧ files s' !! CC_SETTINGS_PATH = files sS !! CC_SETTINGS_PATH
            ∧ (allStored evB = true →
               (∀ d, data s' = Some d → truthy d = true →
                     hasStateToMigrate d = false ∧ hasLegacyContentToMigrate d = false)
               ∧ (files s' !! CLAUDIAN_SETTINGS_PATH = None → True))).
  { destruct (blobOf s) as [d|] eqn:Hb.
    - apply blobOf_Some in Hb as [Hd Ht].
      assert (HdS : data sS = Some d) by congruence.
      destruct (migrateBlob_facts cfg d sS HdS Ht) as (evB & HlogB & HfoldB & _ & Hmono & Hcc & HokB).
      rewrite Hrun in HlogB, HfoldB, Hmono, Hcc. cbn [stateOf] in HlogB, HfoldB, Hmono, Hcc.
      exists evB. split_and!; try done. intros HallB. split; [|done].
      destruct (HokB s' Hrun) as (h & _ & Hcl & _ & Hconv & Hdata & _).
      assert (Hh : h = false).
      { destruct h; [|done].
        pose proof (allStored_no_failure evB HallB) as Hnf.
        rewrite Hconv in Hnf; try done.
        apply inhabits_conversations. unfold blobWellTyped in Hwt. by rewrite Hd in Hwt. }
      subst h. rewrite andb_true_r in Hcl.
      intros d1 Hd1 Ht1. rewrite Hd1 in Hdata.
      destruct (cleared evB).
      + simplify_eq. apply cleanedData_nothing.
      + simplify_eq. symmetry in Hcl. by apply orb_false_elim in Hcl.
    - simplify_eq. exists []. rewrite app_nil_r. split_and!; try done.
      intros _. split; [|done]. intros d Hd Ht.
      assert (Hsome : blobOf s = Some d) by (apply blobOf_Some; split; congruence).
      congruence. }
  destruct Hblob as (evB & HlogB & HfoldB & Hmono & Hcc & Hsettled).
  assert (Hnew : newEvents s s' =
            ([EvExists CC_SETTINGS_PATH; EvExists CLAUDIAN_SETTINGS_PATH] ++ evS ++ evB)%list).
  { apply newEvents_app. by rewrite HlogB, HlogS, Hlog0, <- !app_assoc. }
  rewrite Hnew, !allStored_app in Hall.
  apply andb_true_iff in Hall as [_ [HallS HallB]%andb_true_iff].
  destruct (Hsettled HallB) as [Hq2 _].
  split; [|congruence]. split; [|exact Hq2].
  intros Hcl c Hc. rewrite Hcc in Hc.
  assert (HclS : files sS !! CLAUDIAN_SETTINGS_PATH = None).
  { destruct (files sS !! CLAUDIAN_SETTINGS_PATH) eqn:Heq; [|done].
    destruct (Hmono CLAUDIAN_SETTINGS_PATH) as [x Hx]; [by eexists | congruence]. }
  destruct b eqn:Hb.
  - destruct HcaseS as [[-> Hclean]|Hwritten]; [done| |].
    + simpl in HfilesS. rewrite HfilesS in Hc.
      destruct Hclean as (old & Hold & Hnn & Hcf). exists old. split; [congruence | done].
    + exfalso. rewrite HfilesS in HclS.
      destruct (replayFiles_stored evS (files s) CLAUDIAN_SETTINGS_PATH HallS Hwritten) as [x Hx].
      congruence.
  - exfalso. rewrite (HskipS eq_refl) in HfilesS. simpl in HfilesS. rewrite HfilesS in Hc, HclS.
    subst b. apply andb_false_iff in Hb as [Hb|Hb].
    + apply bool_decide_eq_false in Hb. apply Hb. by eexists.
    + apply negb_false_iff, bool_decide_eq_true in Hb as [x Hx]. congruence.
Qed.

Lemma ensureDirectories_eq (s : Vault) :
  ensureDirectories s =
    Ok tt (withFolders ({[SESSIONS_PATH]} ∪ ({[COMMANDS_PATH]} ∪ ({[CLAUDE_PATH]} ∪ folders s))) s).
Proof. reflexivity. Qed.

Lemma ensureDirectories_again (s : Vault) (f : gset string) :
  folders s = {[SESSIONS_PATH]} ∪ ({[COMMANDS_PATH]} ∪ ({[CLAUDE_PATH]} ∪ f)) →
  ensureDirectories s = Ok tt s.
Proof.
  intros Hf. rewrite ensureDirectories_eq. f_equal. destruct s as [fi fo da lo].
  unfold withFolders. simpl in *. f_equal. rewrite Hf.
  apply set_eq. intros x. rewrite !elem_of_union. tauto.
Qed.

(** [load()] returns what the file says: two vaults with the same files
    give the same record, or the same error. *)
Lemma claudianLoad_same_files (cfg : Config) (x y : Vault) :
  files x = files y →
  match claudianLoad cfg x, claudianLoad cfg y with
  | Ok a _, Ok b _ => a = b
  | Throw e _, Throw e' _ => e = e'
  | _, _ => False
  end.
Proof.
  intros Hf. unfold claudianLoad, bind, adapterExists, adapterRead.
  cbn [files record]. rewrite Hf.
  case_bool_decide as Hex; cbn [negb files record]; [|done].
  rewrite ?Hf. destruct Hex as [c Hc]. rewrite Hc. destruct c as [[]|]; done.
Qed.

Lemma writes_app (a b : list Event) : writes (a ++ b) = (writes a ++ writes b)%list.
Proof. apply filter_app. Qed.

Lemma writes_load (evl : list Event) :
  evl = [EvExists CLAUDIAN_SETTINGS_PATH]
  ∨ evl = [EvExists CLAUDIAN_SETTINGS_PATH; EvRead CLAUDIAN_SETTINGS_PATH] →
  writes evl = [].
Proof. by intros [->| ->]. Qed.

(** C3, as amended.  When [initialize()] has returned and every write it
    made was stored, a second call right after it returns the same
    AgentSettings and PluginSettings, leaves every file, the blob and the
    folders as they are, and writes nothing: no file and no blob. *)
Theorem initialize_idempotent (cfg : Config) (s s1 : Vault) (r : JValue * JObject) :
  initialize cfg s = Ok r s1 →
  allStored (newEvents s s1) = true →
  blobWellTyped s = true →
  ∃ s2, initialize cfg s1 = Ok r s2
        ∧ files s2 = files s1 ∧ data s2 = data s1 ∧ folders s2 = folders s1
        ∧ writes (newEvents s1 s2) = [].
Proof.
  intros Hinit Hall Hwt.
  unfold initialize, bind in Hinit. rewrite ensureDirectories_eq in Hinit.
  set (sA := withFolders _ s) in Hinit.
  destruct (runMigrations cfg sA) as [[] sB|e sB] eqn:Hrun; [|done].
  unfold ccSettingsLoad in Hinit.
  destruct (ccLoad cfg (files sB !! CC_SETTINGS_PATH)) as [e|cc] eqn:Hcc; [done|].
  destruct (claudianLoad_trace cfg sB) as (evl & (HlogL & HfilesL & HdataL & HfoldL) & Hevl).
  destruct (claudianLoad cfg sB) as [cl sC|e sC] eqn:Hload; [|done].
  unfold ret in Hinit. simplify_eq. cbn [stateOf] in *.
  assert (HfilesC : files s1 = files sB).
  { rewrite HfilesL. by destruct Hevl as [->| ->]. }
  assert (HdataC : data s1 = data sB).
  { rewrite HdataL. by destruct Hevl as [->| ->]. }
  (* the first run settles the vault *)
  assert (Hnew : newEvents s s1 = (newEvents sA sB ++ evl)%list).
  { destruct (runMigrations_events cfg sA) as (evS & evB & Hev & _).
    rewrite Hrun in Hev. cbn [stateOf] in Hev. change (log sA) with (log s) in Hev.
    rewrite (newEvents_app sA sB _ Hev).
    apply newEvents_app. by rewrite HlogL, Hev, <- !app_assoc. }
  rewrite Hnew, allStored_app in Hall. apply andb_true_iff in Hall as [Hall _].
  destruct (runMigrations_settles cfg sA sB Hrun Hall Hwt) as [[Hq1 Hq2] HfoldB].
  assert (Hq : Quiescent s1).
  { split; [rewrite HfilesC; exact Hq1 | rewrite HdataC; exact Hq2]. }
  (* the second run *)
  unfold initialize, bind.
  rewrite (ensureDirectories_again s1 (folders s)) by (rewrite HfoldL, HfoldB; done).
  destruct (runMigrations_quiescent cfg s1 Hq) as (sD & HrunD & HfilesD & HdataD & HfoldD & HwD).
  rewrite HrunD. unfold ccSettingsLoad. rewrite HfilesD, HfilesC, Hcc.
  pose proof (claudianLoad_same_files cfg sB sD) as Hsame.
  rewrite Hload in Hsame.
  destruct (claudianLoad_trace cfg sD) as (evl' & (HlogL' & HfilesL' & HdataL' & HfoldL') & Hevl').
  destruct (claudianLoad cfg sD) as [cl' sE|e sE] eqn:Hload';
    [|exfalso; apply Hsame; congruence].
  rewrite <- Hsame by congruence. cbn [stateOf] in *.
  exists sE. unfold ret. split; [done|].
  assert (HlogD : log sD = (log s1 ++ newEvents s1 sD)%list).
  { destruct (runMigrations_events cfg s1) as (evS & evB & Hev & _).
    rewrite HrunD in Hev. cbn [stateOf] in Hev.
    by rewrite (newEvents_app s1 sD _ Hev). }
  split_and!.
  - rewrite HfilesL', HfilesD. by destruct Hevl' as [->| ->].
  - rewrite HdataL', HdataD. by destruct Hevl' as [->| ->].
  - congruence.
  - rewrite (newEvents_app s1 sE (newEvents s1 sD ++ evl')).
    + by rewrite writes_app, HwD, (writes_load evl' Hevl').
    + by rewrite HlogL', HlogD, app_assoc.
Qed.

Lemma initialize_idempotent_witness :
  ∃ r s2,
    valueOf (initialize Example.reliable Example.fullVault) = Some r
    ∧ initialize Example.reliable (stateOf (initialize Example.reliable Example.fullVault)) =
        Ok r s2
    ∧ files s2 = files (stateOf (initialize Example.reliable Example.fullVault))
    ∧ writes (newEvents (stateOf (initialize Example.reliable Example.fullVault)) s2) = [].
Proof.
  destruct (initialize Example.reliable Example.fullVault) as [r s1|e s1] eqn:Hfirst.
  - destruct (initialize_idempotent Example.reliable Example.fullVault s1 r Hfirst)
      as (s2 & Hsecond & Hfiles & _ & _ & Hwrites).
    + vm_compute in Hfirst. injection Hfirst as <- <-. vm_compute. reflexivity.
    + reflexivity.
    + exists r, s2. cbn [stateOf valueOf]. split_and!; done.
  - vm_compute in Hfirst. discriminate Hfirst.
Defined.

(** C3, the claim as stated fails after a start in which a write threw: the
    first call returns (the error of the command file is caught) and leaves
    the blob uncleared; the second call, with nothing changed in between,
    returns the same settings but runs the state migration again and
    rewrites [claudian-settings.json]. *)
Lemma initialize_rewrites_after_failed_write :
  ∃ r s1 s2,
    initialize Example.commandsFail Example.blobVault = Ok r s1
    ∧ initialize Example.commandsFail s1 = Ok r s2
    ∧ data s1 = data Example.blobVault
    ∧ existsb (writesTo CLAUDIAN_SETTINGS_PATH) (newEvents s1 s2) = true
    ∧ writes (newEvents s1 s2) ≠ [].
Proof.
  destruct (initialize Example.commandsFail Example.blobVault) as [r s1|e s1] eqn:Hfirst;
    [|vm_compute in Hfirst; discriminate Hfirst].
  destruct (initialize Example.commandsFail s1) as [r' s2|e s2] eqn:Hsecond.
  - exists r, s1, s2.
    vm_compute in Hfirst. injection Hfirst as <- <-.
    vm_compute in Hsecond. injection Hsecond as <- <-.
    split_and!; try reflexivity. vm_compute. discriminate.
  - exfalso. vm_compute in Hfirst. injection Hfirst as <- <-.
    vm_compute in Hsecond. discriminate Hsecond.
Qed.

(* ===================================================================== *)
(** ** Strings: prefixes and separators *)
(* ===================================================================== *)

Lemma startsWith_spec (s p : string) : Str.startsWith s p = true ↔ ∃ r, s = p ++ r.
Proof.
  revert s. induction p as [|a p IH]; intros s; simpl.
  - split; [intros _; exists s; reflexivity | reflexivity].
  - destruct s as [|b s].
    + split; [done | intros [r Hr]; discriminate Hr].
    + rewrite andb_true_iff, bool_decide_eq_true, IH. split.
      * intros [-> [r ->]]. by exists r.
      * intros [r Hr]. injection Hr as -> ->. split; [done | by exists r].
Qed.

Lemma get_after_prefix (p r : string) :
  String.get (String.length p) (p ++ r) =
    match r with String c _ => Some c | EmptyString => None end.
Proof. induction p as [|x p IH]; unfold_append; simpl; [by destruct r | exact IH]. Qed.

Lemma endsWithChar_app (p r : string) (c : ascii) :
  r ≠ "" → Str.endsWithChar (p ++ r) c = Str.endsWithChar r c.
Proof.
  intros Hr. induction p as [|x p IH]; unfold_append; [done|].
  simpl. rewrite IH. destruct (p ++ r) eqn:Hpr; [|done].
  destruct p; [by rewrite append_nil in Hpr | discriminate Hpr].
Qed.

Lemma replaceBackslashes_app (a b : string) :
  Str.replaceBackslashes (a ++ b) = Str.replaceBackslashes a ++ Str.replaceBackslashes b.
Proof. induction a as [|x a IH]; unfold_append; simpl; [done | by rewrite IH]. Qed.

Lemma replaceBackslashes_idem (a : string) :
  Str.replaceBackslashes (Str.replaceBackslashes a) = Str.replaceBackslashes a.
Proof.
  induction a as [|x a IH]; simpl; [done|]. rewrite IH. f_equal.
  destruct (decide (x = Str.BACKSLASH)) as [Hx|Hx].
  - rewrite (bool_decide_true _ Hx). by destruct (bool_decide _).
  - rewrite !(bool_decide_false _ Hx). done.
Qed.

(** The path-boundary test, in words: the approved path is a prefix of the
    action path, and it ends with a slash, or nothing follows it, or a slash
    follows it. *)
Lemma isPathPrefixMatch_spec (a p : string) :
  Approval.isPathPrefixMatch a p = true ↔
    ∃ r, a = p ++ r
         ∧ (Str.endsWithChar p "/" = true ∨ r = "" ∨ ∃ r', r = String "/" r').
Proof.
  unfold Approval.isPathPrefixMatch. split.
  - destruct (Str.startsWith a p) eqn:Hsw; [|done]. cbn [negb].
    apply startsWith_spec in Hsw as [r ->]. intros Hm. exists r. split; [done|].
    destruct (Str.endsWithChar p "/"); [by left | right].
    rewrite append_length in Hm.
    destruct r as [|c r]; [by left | right].
    replace (String.length p + String.length (String c r) =? String.length p)%nat
      with false in Hm by (symmetry; apply Nat.eqb_neq; simpl; lia).
    unfold Str.charAtIs in Hm. rewrite get_after_prefix in Hm.
    apply bool_decide_eq_true in Hm. injection Hm as ->. by exists r.
  - intros (r & -> & Hcond).
    assert (Hsw : Str.startsWith (p ++ r) p = true) by (apply startsWith_spec; by exists r).
    rewrite Hsw. cbn [negb].
    destruct (Str.endsWithChar p "/"); [done|].
    destruct Hcond as [?|[->|[r' ->]]]; [done | |].
    + by rewrite append_empty_r, Nat.eqb_refl.
    + destruct (_ =? _)%nat; [done|].
      unfold Str.charAtIs. rewrite get_after_prefix. by apply bool_decide_eq_true.
Qed.

Lemma isPathPrefixMatch_trans (a q p : string) :
  Approval.isPathPrefixMatch a q = true → Approval.isPathPrefixMatch q p = true →
  Approval.isPathPrefixMatch a p = true.
Proof.
  rewrite !isPathPrefixMatch_spec.
  intros (r1 & -> & H1) (r2 & -> & H2). exists (r2 ++ r1).
  split; [apply append_assoc|].
  destruct H2 as [?|[->|[r' ->]]]; [by left | | right; right; by exists (r' ++ r1)].
  rewrite append_empty_r in H1. rewrite append_nil. exact H1.
Qed.

Lemma startsWith_trans (a q p : string) :
  Str.startsWith a q = true → Str.startsWith q p = true → Str.startsWith a p = true.
Proof.
  rewrite !startsWith_spec. intros [r1 ->] [r2 ->]. exists (r2 ++ r1). apply append_assoc.
Qed.

(* ===================================================================== *)
(** ** Approved actions *)
(* ===================================================================== *)

(** X1.  For every tool, [matchesPattern] is a preorder on patterns: a
    pattern approves itself, and when [p] approves [q] and [q] approves [a],
    then [p] approves [a]. *)
Theorem matchesPattern_preorder (names : Approval.ToolNames) (tool : string) :
  (∀ a, Approval.matchesPattern names tool a a = true)
  ∧ (∀ a q p,
        Approval.matchesPattern names tool a q = true →
        Approval.matchesPattern names tool q p = true →
        Approval.matchesPattern names tool a p = true).
Proof.
  split.
  - intros a. unfold Approval.matchesPattern.
    case_bool_decide; [by apply bool_decide_eq_true|].
    cbv zeta. case_bool_decide; [done|]. by rewrite bool_decide_true.
  - intros a q p. unfold Approval.matchesPattern.
    case_bool_decide as Hbash.
    { rewrite !bool_decide_eq_true. congruence. }
    cbv zeta.
    set (na := Approval.normalizeMatchPattern a).
    set (nq := Approval.normalizeMatchPattern q).
    set (np := Approval.normalizeMatchPattern p).
    destruct (decide (np = "*")) as [Hp|Hp]; [by rewrite (bool_decide_true _ Hp)|].
    rewrite (bool_decide_false _ Hp).
    destruct (decide (nq = np)) as [Hqp|Hqp].
    { rewrite Hqp. rewrite (bool_decide_false _ Hp). intros H1 _. exact H1. }
    rewrite (bool_decide_false (nq = np)) by done.
    destruct (decide (nq = "*")) as [Hq|Hq].
    { rewrite (bool_decide_true _ Hq). intros _. rewrite Hq.
      destruct (Approval.isFileTool names tool).
      - rewrite isPathPrefixMatch_spec. intros (r & Hr & Hcond). exfalso.
        destruct np as [|c np]; [|].
        + rewrite append_nil in Hr. subst r.
          destruct Hcond as [?|[?|[? ?]]]; done.
        + injection Hr as <- Hr. destruct np; [by rewrite Hq in Hqp | discriminate Hr].
      - destruct (Str.startsWith "*" np) eqn:Hsw; [|done]. intros _.
        apply startsWith_spec in Hsw as [r Hr].
        destruct np as [|c np].
        + assert (Hany : Str.startsWith na "" = true) by done.
          rewrite Hany. by destruct (bool_decide _).
        + injection Hr as <- Hr. destruct np; [by rewrite Hq in Hqp | discriminate Hr]. }
    rewrite (bool_decide_false _ Hq).
    destruct (decide (na = nq)) as [Haq|Haq].
    { rewrite (bool_decide_true _ Haq), Haq. intros _.
      by rewrite (bool_decide_false (nq = np)). }
    rewrite (bool_decide_false _ Haq).
    destruct (Approval.isFileTool names tool).
    + intros H1 H2. rewrite (isPathPrefixMatch_trans _ _ _ H1 H2). by destruct (bool_decide _).
    + destruct (Str.startsWith na nq) eqn:H1; [|done].
      destruct (Str.startsWith nq np) eqn:H2; [|done]. intros _ _.
      rewrite (startsWith_trans _ _ _ H1 H2). by destruct (bool_decide _).
Qed.

(** X2.  For a file tool the approved pattern is a path: it approves an
    action path when it is the wildcard, or when it is a prefix of the
    action path that ends at a path boundary (the approved path ends with a
    slash, or the action path ends there, or a slash follows).  So an
    approved folder never approves a sibling whose name merely starts with
    the name of the folder. *)
Theorem matchesPattern_path_boundary (names : Approval.ToolNames) (tool a p : string) :
  tool ≠ Approval.TOOL_BASH names →
  Approval.isFileTool names tool = true →
  (Approval.matchesPattern names tool a p = true ↔
     Approval.normalizeMatchPattern p = "*"
     ∨ ∃ r, Approval.normalizeMatchPattern a = Approval.normalizeMatchPattern p ++ r
            ∧ (Str.endsWithChar (Approval.normalizeMatchPattern p) "/" = true
               ∨ r = "" ∨ ∃ r', r = String "/" r'))
  ∧ (∀ c r,
        Approval.normalizeMatchPattern p ≠ "*" →
        Str.endsWithChar (Approval.normalizeMatchPattern p) "/" = false →
        c ≠ "/"%char → c ≠ Str.BACKSLASH →
        Approval.matchesPattern names tool (p ++ String c r) p = false).
Proof.
  intros Hbash Hfile.
  assert (Hiff : ∀ a', Approval.matchesPattern names tool a' p = true ↔
     Approval.normalizeMatchPattern p = "*"
     ∨ ∃ r, Approval.normalizeMatchPattern a' = Approval.normalizeMatchPattern p ++ r
            ∧ (Str.endsWithChar (Approval.normalizeMatchPattern p) "/" = true
               ∨ r = "" ∨ ∃ r', r = String "/" r')).
  { intros a'. unfold Approval.matchesPattern.
    rewrite (bool_decide_false _ Hbash), Hfile. cbv zeta.
    set (na := Approval.normalizeMatchPattern a').
    set (np := Approval.normalizeMatchPattern p).
    destruct (decide (np = "*")) as [Hp|Hp].
    { rewrite (bool_decide_true _ Hp). split; [by left | done]. }
    rewrite (bool_decide_false _ Hp).
    destruct (decide (na = np)) as [Heq|Hne].
    { rewrite (bool_decide_true _ Heq). split; [|done]. intros _. right.
      exists "". rewrite append_empty_r. split; [done | by right; left]. }
    rewrite (bool_decide_false _ Hne). rewrite isPathPrefixMatch_spec.
    split; [by right | by intros [?|?]]. }
  split; [apply Hiff|].
  intros c r Hp Hend Hc Hc'.
  destruct (Approval.matchesPattern names tool (p ++ String c r) p) eqn:Hm; [|done].
  exfalso. apply Hiff in Hm as [?|(r0 & Hr0 & Hcond)]; [done|].
  unfold Approval.normalizeMatchPattern in *.
  rewrite replaceBackslashes_app in Hr0. apply append_inv_l in Hr0. subst r0.
  simpl in Hcond. rewrite (bool_decide_false _ Hc') in Hcond.
  destruct Hcond as [Hcond|[Hcond|[r' Hcond]]]; [congruence | discriminate | congruence].
Qed.

Lemma matchesPattern_path_boundary_witness :
  Approval.matchesPattern ApprovalExample.names "Read" "/vault/notes/a.md" "/vault/notes" = true
  ∧ Approval.matchesPattern ApprovalExample.names "Read"
      ("/vault/notes" ++ "-private/a.md") "/vault/notes" = false.
Proof.
  destruct (matchesPattern_path_boundary ApprovalExample.names "Read"
              "/vault/notes/a.md" "/vault/notes") as [Hiff Hsibling]; [done | done |].
  split.
  - apply Hiff. right. exists "/a.md". split; [reflexivity|]. right; right. by exists "a.md".
  - apply (Hsibling "-"%char "private/a.md"); done.
Defined.

(** X3.  Outside Bash the two separators are not told apart: writing a
    pattern with slashes in place of its backslashes changes no verdict, on
    either side; for Bash the patterns are compared as they are. *)
Theorem matchesPattern_separators (names : Approval.ToolNames) (tool a p : string) :
  (tool ≠ Approval.TOOL_BASH names →
     Approval.matchesPattern names tool (Approval.normalizeMatchPattern a) p =
       Approval.matchesPattern names tool a p
     ∧ Approval.matchesPattern names tool a (Approval.normalizeMatchPattern p) =
         Approval.matchesPattern names tool a p)
  ∧ (Approval.matchesPattern names (Approval.TOOL_BASH names) a p = true ↔ a = p).
Proof.
  split.
  - intros Hbash. unfold Approval.matchesPattern, Approval.normalizeMatchPattern.
    rewrite (bool_decide_false _ Hbash). cbv zeta.
    by rewrite !replaceBackslashes_idem.
  - unfold Approval.matchesPattern. rewrite bool_decide_true by done.
    apply bool_decide_eq_true.
Qed.

Lemma existsb_elem {A} (f : A → bool) (l : list A) :
  existsb f l = true ↔ ∃ x, x ∈ l ∧ f x = true.
Proof.
  rewrite existsb_exists. split; intros (x & Hx & Hf); exists x; split; try done;
    by apply list_elem_of_In.
Qed.

Lemma approvedBy_own (names : Approval.ToolNames) (tool pat : string) (now : Z)
    (sc : Approval.Scope) :
  Approval.approvedBy names tool pat
    {| Approval.toolName := tool; Approval.pattern := pat;
       Approval.approvedAt := now; Approval.scope := sc |} = true.
Proof.
  unfold Approval.approvedBy. simpl. rewrite bool_decide_true by done.
  unfold Approval.matchesPattern.
  case_bool_decide; [by apply bool_decide_eq_true|].
  cbv zeta. case_bool_decide; [done|]. by rewrite bool_decide_true.
Qed.

Lemma isActionApproved_spec {H} (names : Approval.ToolNames) (stringify : JValue → string)
    (m : @Approval.ApprovalManager H) (h : H) (tool : string) (input : JObject) :
  Approval.isActionApproved names stringify m h tool input =
    match Approval.getActionPattern names stringify tool input with
    | Some pat =>
        Some (existsb (Approval.approvedBy names tool pat)
                (Approval.sessionApprovedActions m ++ Approval.getPermanentApprovals m h))
    | None => None
    end.
Proof.
  unfold Approval.isActionApproved.
  destruct (Approval.getActionPattern names stringify tool input) as [pat|]; [|done].
  cbv zeta. rewrite existsb_app.
  by destruct (existsb _ (Approval.sessionApprovedActions m)).
Qed.

(** X4.  A Bash command is approved beforehand exactly when an approved
    action of the session or of the settings names Bash and holds, as its
    pattern, the command itself without the white space at its two ends:
    there is no wildcard and no prefix for Bash.  An input without a
    command counts as the empty command. *)
Theorem bash_approval_is_exact {H} (names : Approval.ToolNames) (stringify : JValue → string)
    (m : @Approval.ApprovalManager H) (h : H) (input : JObject) :
  ∃ verdict,
    Approval.isActionApproved names stringify m h (Approval.TOOL_BASH names) input = Some verdict
    ∧ (verdict = true ↔
         ∃ action, action ∈ (Approval.sessionApprovedActions m ++ Approval.getPermanentApprovals m h)%list
           ∧ Approval.toolName action = Approval.TOOL_BASH names
           ∧ match Obj.get "command" input with
             | Some (JStr command) => Trimmed command (Approval.pattern action)
             | _ => Approval.pattern action = ""
             end).
Proof.
  rewrite isActionApproved_spec. unfold Approval.getActionPattern.
  rewrite bool_decide_true by done.
  set (cmd := match Obj.get "command" input with
              | Some (JStr command) => Js.trim command
              | _ => ""
              end).
  assert (Hpat : match Obj.get "command" input with
                 | Some (JStr command) => Some (Js.trim command)
                 | _ => Some ""
                 end = Some cmd).
  { unfold cmd. by destruct (Obj.get "command" input) as [[]|]. }
  assert (Hcmd : ∀ x, match Obj.get "command" input with
                      | Some (JStr command) => Trimmed command x
                      | _ => x = ""
                      end ↔ x = cmd).
  { intros x. unfold cmd. destruct (Obj.get "command" input) as [[]|]; try done.
    apply trim_spec. }
  rewrite Hpat. eexists. split; [reflexivity|].
  rewrite existsb_elem. unfold Approval.approvedBy, Approval.matchesPattern.
  rewrite bool_decide_true by done.
  split.
  - intros (action & Hin & Hok). exists action.
    apply andb_true_iff in Hok as [Ht Hp].
    apply bool_decide_eq_true in Ht, Hp. split_and!; [done | done |]. by apply Hcmd.
  - intros (action & Hin & Ht & Hp). exists action. split; [done|].
    apply Hcmd in Hp.
    apply andb_true_iff. split; apply bool_decide_eq_true; done.
Qed.

(** The approval of [ls] covers the command [ls] with a no-break space
    behind it and a tab in front, and does not cover [ls -l]. *)
Lemma bash_approval_example :
  let approved := [ {| Approval.toolName := "Bash"; Approval.pattern := "ls";
                       Approval.approvedAt := 7; Approval.scope := Approval.always |} ] in
  Approval.isActionApproved ApprovalExample.names ApprovalExample.stringify
    ApprovalExample.manager approved "Bash"
    [("command", JStr (Js.bytes [9] ++ "ls" ++ Js.bytes [194; 160]))] = Some true
  ∧ Approval.isActionApproved ApprovalExample.names ApprovalExample.stringify
      ApprovalExample.manager approved "Bash" [("command", JStr "ls -l")] = Some false.
Proof. split; vm_compute; reflexivity. Qed.

Lemma approveAction_remembered {H} (names : Approval.ToolNames)
    (stringify : JValue → string) (now : Z) (m m' : @Approval.ApprovalManager H)
    (h : H) (r : Approval.Settled H) (tool : string) (input : JObject) (sc : Approval.Scope) :
  Approval.approveAction names stringify now m h tool input sc = Some (m', r) →
  sc = Approval.session ∨ Persists m →
  Approval.isActionApproved names stringify m' (Approval.hostOf r) tool input = Some true.
Proof.
  unfold Approval.approveAction. rewrite !isActionApproved_spec.
  destruct (Approval.getActionPattern names stringify tool input) as [pat|] eqn:Hpat; [|done].
  cbv zeta. intros Hrun Hsc.
  f_equal. apply existsb_elem.
  exists {| Approval.toolName := tool; Approval.pattern := pat;
            Approval.approvedAt := now; Approval.scope := sc |}.
  split; [|apply approvedBy_own].
  destruct sc.
  + injection Hrun as <- <-. simpl. rewrite !elem_of_app. left; right.
    apply list_elem_of_singleton. done.
  + destruct Hsc as [?|(callback & Hcb & Hstores)]; [done|].
    rewrite Hcb in Hrun. injection Hrun as <- <-.
    apply elem_of_app. right. apply Hstores.
Qed.

(** X5.  An approval is remembered: after [approveAction] for the session,
    or for good when the call-back stores what it is given, the same tool
    call is approved beforehand; and an approval for the session revokes
    nothing that was approved before. *)
Theorem approved_action_is_remembered {H} (names : Approval.ToolNames)
    (stringify : JValue → string) (now : Z) (m m' : @Approval.ApprovalManager H)
    (h : H) (r : Approval.Settled H) (tool : string) (input : JObject) (sc : Approval.Scope) :
  Approval.approveAction names stringify now m h tool input sc = Some (m', r) →
  sc = Approval.session ∨ Persists m →
  Approval.isActionApproved names stringify m' (Approval.hostOf r) tool input = Some true
  ∧ (sc = Approval.session →
     ∀ tool' input',
       Approval.isActionApproved names stringify m h tool' input' = Some true →
       Approval.isActionApproved names stringify m' (Approval.hostOf r) tool' input' = Some true).
Proof.
  intros Hrun Hsc. split; [by eapply approveAction_remembered|].
  revert Hrun. unfold Approval.approveAction.
  destruct (Approval.getActionPattern names stringify tool input) as [pat|] eqn:Hpat; [|done].
  cbv zeta. intros Hrun -> tool' input'. injection Hrun as <- <-. simpl.
  rewrite !isActionApproved_spec.
  destruct (Approval.getActionPattern names stringify tool' input') as [pat'|]; [|done].
  simpl. intros Hold. injection Hold as Hold. f_equal.
  rewrite !existsb_app in *. rewrite !orb_true_iff in *. tauto.
Qed.

Lemma approved_action_is_remembered_witness :
  Approval.isActionApproved ApprovalExample.names ApprovalExample.stringify
    ApprovalExample.manager
    [{| Approval.toolName := "Read"; Approval.pattern := "/vault/notes/a.md";
        Approval.approvedAt := 7; Approval.scope := Approval.always |}]
    "Read" ApprovalExample.readNote = Some true.
Proof.
  refine (proj1 (approved_action_is_remembered ApprovalExample.names ApprovalExample.stringify 7
                   ApprovalExample.manager ApprovalExample.manager []
                   (Approval.Fulfilled
                      [{| Approval.toolName := "Read"; Approval.pattern := "/vault/notes/a.md";
                          Approval.approvedAt := 7; Approval.scope := Approval.always |}])
                   "Read" ApprovalExample.readNote Approval.always _ _)).
  - reflexivity.
  - right. eexists. split; [reflexivity|]. intros action h.
    unfold Approval.persistToSettings. simpl. apply elem_of_app. right.
    apply list_elem_of_singleton. done.
Defined.

(** X6.  A tool call without a path is approved as the wildcard: for a
    file tool or a search tool whose input holds no path or pattern, the
    pattern is [*], and once such a call is approved every call of that tool
    is approved beforehand. *)
Theorem approval_without_path_is_wildcard {H} (names : Approval.ToolNames)
    (stringify : JValue → string) (now : Z) (m m' : @Approval.ApprovalManager H)
    (h : H) (r : Approval.Settled H) (tool : string) (input : JObject) (sc : Approval.Scope) :
  tool ≠ Approval.TOOL_BASH names →
  tool ∈ [Approval.TOOL_READ names; Approval.TOOL_WRITE names; Approval.TOOL_EDIT names;
          Approval.TOOL_NOTEBOOK_EDIT names; Approval.TOOL_GLOB names; Approval.TOOL_GREP names] →
  Obj.get "file_path" input = None → Obj.get "notebook_path" input = None →
  Obj.get "pattern" input = None →
  Approval.approveAction names stringify now m h tool input sc = Some (m', r) →
  sc = Approval.session ∨ Persists m →
  Approval.getActionPattern names stringify tool input = Some "*"
  ∧ ∀ input' pat,
      Approval.getActionPattern names stringify tool input' = Some pat →
      Approval.isActionApproved names stringify m' (Approval.hostOf r) tool input' = Some true.
Proof.
  intros Hbash Htool Hfp Hnp Hpt Hrun Hsc.
  assert (Hstar : Approval.getActionPattern names stringify tool input = Some "*").
  { unfold Approval.getActionPattern. rewrite (bool_decide_false _ Hbash), Hfp, Hnp, Hpt.
    simpl. repeat (apply elem_of_cons in Htool as [->|Htool];
                   [rewrite ?(bool_decide_true (_ = _)) by done;
                    repeat (simpl; try done; case_bool_decide; try done) |]).
    by apply elem_of_nil in Htool. }
  split; [done|]. intros input' pat Hpat.
  unfold Approval.approveAction in Hrun. rewrite Hstar in Hrun. cbv zeta in Hrun.
  rewrite isActionApproved_spec, Hpat. f_equal. apply existsb_elem.
  exists {| Approval.toolName := tool; Approval.pattern := "*";
            Approval.approvedAt := now; Approval.scope := sc |}.
  split.
  - destruct sc.
    + injection Hrun as <- <-. simpl. rewrite !elem_of_app. left; right.
      apply list_elem_of_singleton. done.
    + destruct Hsc as [?|(callback & Hcb & Hstores)]; [done|].
      rewrite Hcb in Hrun. injection Hrun as <- <-.
      apply elem_of_app. right. apply Hstores.
  - unfold Approval.approvedBy, Approval.matchesPattern. simpl.
    rewrite bool_decide_true by done. rewrite (bool_decide_false _ Hbash). done.
Qed.

Lemma approval_without_path_is_wildcard_witness :
  Approval.isActionApproved ApprovalExample.names ApprovalExample.stringify
    {| Approval.sessionApprovedActions :=
         [{| Approval.toolName := "Read"; Approval.pattern := "*";
             Approval.approvedAt := 7; Approval.scope := Approval.session |}];
       Approval.persistCallback := Approval.persistCallback ApprovalExample.manager;
       Approval.getPermanentApprovals :=
         Approval.getPermanentApprovals ApprovalExample.manager |}
    [] "Read" ApprovalExample.readNote = Some true.
Proof.
  refine (proj2 (approval_without_path_is_wildcard ApprovalExample.names ApprovalExample.stringify 7
                   ApprovalExample.manager _ [] (Approval.Fulfilled [])
                   "Read" [] Approval.session _ _ _ _ _ _ _)
            ApprovalExample.readNote "/vault/notes/a.md" _).
  - done.
  - apply elem_of_cons. by left.
  - reflexivity.
  - reflexivity.
  - reflexivity.
  - reflexivity.
  - by left.
  - reflexivity.
Defined.

(** X7.  The safe mode asks once: when the call-back of the safe mode has
    allowed a tool call (it was approved beforehand, or the user answered
    allow or allow-always and the approval was stored), the same call is
    allowed the next time whatever the approval handler would say, and even
    without one. *)
Theorem safe_mode_asks_once {H} (names : Approval.ToolNames) (stringify : JValue → string)
    (display : option JValue → string) (now : Z)
    (approvalCallback : option (string → JObject → string → option Approval.Decision))
    (m m1 : @Approval.ApprovalManager H) (h h1 : H) (tool : string)
    (input updated : JObject) :
  Persists m →
  Approval.safeModeCallback names stringify display now approvalCallback m h tool input =
    Some (Approval.Allow updated, m1, h1) →
  ∀ now' approvalCallback',
    Approval.safeModeCallback names stringify display now' approvalCallback' m1 h1 tool input =
      Some (Approval.Allow input, m1, h1).
Proof.
  intros Hpersists Hfirst now' cb'.
  assert (Happroved : Approval.isActionApproved names stringify m1 h1 tool input = Some true).
  { revert Hfirst. unfold Approval.safeModeCallback.
    destruct (Approval.isActionApproved names stringify m h tool input) as [[]|] eqn:Hpre;
      [intros Heq; by simplify_eq | | done].
    destruct approvalCallback as [ask|]; [|done]. cbv zeta.
    destruct (ask tool input _) as [[]|]; [| |done|done].
    - destruct (Approval.approveAction names stringify now m h tool input Approval.session)
        as [[m' [h'|h']]|] eqn:Hrun; [|done|done].
      intros Heq. simplify_eq.
      apply (approveAction_remembered _ _ _ _ _ _ _ _ _ _ Hrun). by left.
    - destruct (Approval.approveAction names stringify now m h tool input Approval.always)
        as [[m' [h'|h']]|] eqn:Hrun; [|done|done].
      intros Heq. simplify_eq.
      apply (approveAction_remembered _ _ _ _ _ _ _ _ _ _ Hrun). by right. }
  unfold Approval.safeModeCallback. by rewrite Happroved.
Qed.

Lemma safe_mode_asks_once_witness :
  Approval.safeModeCallback ApprovalExample.names ApprovalExample.stringify ApprovalExample.display
    8 None ApprovalExample.manager
    [{| Approval.toolName := "Bash"; Approval.pattern := "git status";
        Approval.approvedAt := 7; Approval.scope := Approval.always |}]
    "Bash" ApprovalExample.gitStatus =
  Some (Approval.Allow ApprovalExample.gitStatus, ApprovalExample.manager,
        [{| Approval.toolName := "Bash"; Approval.pattern := "git status";
            Approval.approvedAt := 7; Approval.scope := Approval.always |}]).
Proof.
  refine (safe_mode_asks_once ApprovalExample.names ApprovalExample.stringify
            ApprovalExample.display 7 (Some (fun _ _ _ => Some Approval.allowAlways))
            ApprovalExample.manager ApprovalExample.manager [] _ "Bash"
            ApprovalExample.gitStatus ApprovalExample.gitStatus _ _ 8 None).
  - eexists. split; [reflexivity|]. intros action h.
    unfold Approval.persistToSettings. simpl. apply elem_of_app. right.
    apply list_elem_of_singleton. done.
  - reflexivity.
Defined.

(* ===================================================================== *)
(** ** Objects: spreading and serialising *)
(* ===================================================================== *)

Lemma NoDup_keys_spread {V} (a b : list (string * V)) :
  NoDup (Obj.keys a) → NoDup (Obj.keys (Obj.spread a b)).
Proof.
  unfold Obj.spread. revert a. induction b as [|[k v] b IH]; intros a Ha; [done|].
  cbn [fold_left]. apply IH. by apply NoDup_keys_set.
Qed.

Lemma NoDup_keys_del {V} (k : string) (o : list (string * V)) :
  NoDup (Obj.keys o) → NoDup (Obj.keys (Obj.del k o)).
Proof.
  unfold Obj.keys, Obj.del. induction o as [|[k' v] o IH]; [done|].
  rewrite fmap_cons. intros [Hk Hnd]%NoDup_cons. rewrite filter_cons.
  destruct (decide ((k', v).1 ≠ k)); [|by apply IH].
  rewrite fmap_cons. apply NoDup_cons. split; [|by apply IH].
  intros Hin. apply Hk. apply list_elem_of_fmap in Hin as (x & Hx & Hin).
  apply list_elem_of_filter in Hin as [_ Hin]. apply list_elem_of_fmap. by exists x.
Qed.

Lemma get_elem {V} (k : string) (v : V) (o : list (string * V)) :
  Obj.get k o = Some v → (k, v) ∈ o.
Proof.
  induction o as [|[k' v'] o IH]; [done|]. simpl. case_bool_decide as Hk.
  - intros Heq. simplify_eq. apply elem_of_cons. by left.
  - intros Hget. apply elem_of_cons. right. by apply IH.
Qed.

(** An object without repeated keys is spread as it reads. *)
Lemma get_spread_nil {V} (k : string) (b : list (string * V)) :
  NoDup (Obj.keys b) → Obj.get k (Obj.spread [] b) = Obj.get k b.
Proof.
  intros Hnd. destruct (Obj.get k b) as [v|] eqn:Hget.
  - apply spread_get_elem; [done | by apply get_elem].
  - by apply spread_get_None.
Qed.

Lemma get_spread_NoDup {V} (k : string) (a b : list (string * V)) :
  NoDup (Obj.keys b) →
  Obj.get k (Obj.spread a b) =
    match Obj.get k b with Some v => Some v | None => Obj.get k a end.
Proof. intros Hnd. by rewrite get_spread, get_spread_nil. Qed.

Lemma get_fmap_Some (k : string) (o : JObject) :
  Obj.get k ((fun kv => (kv.1, Some kv.2)) <$> o) = Some <$> Obj.get k o.
Proof.
  induction o as [|[k' v] o IH]; [done|]. rewrite fmap_cons. simpl.
  case_bool_decide; [done | exact IH].
Qed.

Lemma keys_fmap_Some (o : JObject) :
  Obj.keys ((fun kv : string * JValue => (kv.1, Some kv.2)) <$> o) = Obj.keys o.
Proof. unfold Obj.keys. rewrite <- list_fmap_compose. done. Qed.

Lemma literal_cons_Some (k : string) (v : JValue) (l : list (string * option JValue)) :
  literal ((k, Some v) :: l) = (k, v) :: literal l.
Proof. reflexivity. Qed.

Lemma literal_cons_None (k : string) (l : list (string * option JValue)) :
  literal ((k, None) :: l) = literal l.
Proof. reflexivity. Qed.

(** The serialisation leaves out the properties that hold [undefined]. *)
Lemma get_literal (k : string) (l : list (string * option JValue)) :
  NoDup (Obj.keys l) →
  Obj.get k (literal l) = match Obj.get k l with Some (Some v) => Some v | _ => None end.
Proof.
  unfold Obj.keys. induction l as [|[k' [v|]] l IH]; [done| |].
  - rewrite fmap_cons, literal_cons_Some. intros [Hk Hnd]%NoDup_cons.
    cbn [Obj.get]. case_bool_decide; [done | by apply IH].
  - rewrite fmap_cons, literal_cons_None. intros [Hk Hnd]%NoDup_cons.
    cbn [Obj.get]. case_bool_decide as Heq; [|by apply IH]. subst k'.
    rewrite IH by done.
    assert (Hnone : Obj.get k l = None) by (by apply get_None_keys).
    by rewrite Hnone.
Qed.

Lemma keys_literal_sub (l : list (string * option JValue)) :
  sublist (Obj.keys (literal l)) (Obj.keys l).
Proof.
  unfold Obj.keys. induction l as [|[k [v|]] l IH]; [done| |].
  - rewrite literal_cons_Some, !fmap_cons. by apply sublist_skip.
  - rewrite literal_cons_None, fmap_cons. by apply sublist_cons.
Qed.

Lemma NoDup_keys_literal (l : list (string * option JValue)) :
  NoDup (Obj.keys l) → NoDup (Obj.keys (literal l)).
Proof. intros Hnd. eapply sublist_NoDup; [done | apply keys_literal_sub]. Qed.

(* ===================================================================== *)
(** ** The plugin settings: load, save and update *)
(* ===================================================================== *)

(** The keys [load()] rebuilds from the stored value instead of copying
    it, and the legacy key it strips. *)
Lemma claudianLoad_value (cfg : Config) (s : Vault) :
  claudianLoad cfg s =
    match files s !! CLAUDIAN_SETTINGS_PATH with
    | None => Ok (getDefaults cfg) (record (EvExists CLAUDIAN_SETTINGS_PATH) s)
    | Some (Text t) =>
        Throw SyntaxError
          (record (EvRead CLAUDIAN_SETTINGS_PATH) (record (EvExists CLAUDIAN_SETTINGS_PATH) s))
    | Some (Json JNull) =>
        Throw TypeError
          (record (EvRead CLAUDIAN_SETTINGS_PATH) (record (EvExists CLAUDIAN_SETTINGS_PATH) s))
    | Some (Json v) =>
        Ok (loadedSettings cfg v)
          (record (EvRead CLAUDIAN_SETTINGS_PATH) (record (EvExists CLAUDIAN_SETTINGS_PATH) s))
    end.
Proof.
  unfold claudianLoad, bind, adapterExists, adapterRead.
  destruct (files s !! CLAUDIAN_SETTINGS_PATH) as [c|] eqn:Hc.
  - rewrite bool_decide_true by (by eexists). cbn [negb files record]. rewrite Hc.
    by destruct c as [[]|].
  - rewrite bool_decide_false by (by intros [? ?]). done.
Qed.

Lemma NoDup_getDefaults (cfg : Config) :
  NoDup (Obj.keys (DEFAULT_SETTINGS cfg)) → NoDup (Obj.keys (getDefaults cfg)).
Proof. apply NoDup_keys_del. Qed.

Lemma NoDup_loadedSettings (cfg : Config) (stored : JValue) :
  NoDup (Obj.keys (DEFAULT_SETTINGS cfg)) → NoDup (Obj.keys (loadedSettings cfg stored)).
Proof.
  intros Hnd. unfold loadedSettings. do 2 apply NoDup_keys_spread. by apply NoDup_getDefaults.
Qed.

Lemma claudianLoad_NoDup (cfg : Config) (s s' : Vault) (current : JObject) :
  NoDup (Obj.keys (DEFAULT_SETTINGS cfg)) →
  claudianLoad cfg s = Ok current s' → NoDup (Obj.keys current).
Proof.
  intros Hnd. rewrite claudianLoad_value.
  destruct (files s !! CLAUDIAN_SETTINGS_PATH) as [[v|]|]; [| done |].
  - assert (Hl := NoDup_loadedSettings cfg v Hnd). destruct v; intros Heq; by simplify_eq.
  - intros Heq. simplify_eq. by apply NoDup_getDefaults.
Qed.

(** A key of the defaults is a key of every record [load()] returns. *)
Lemma claudianLoad_defaults (cfg : Config) (s s' : Vault) (current : JObject) (k : string) :
  claudianLoad cfg s = Ok current s' →
  Obj.get k current = None → Obj.get k (getDefaults cfg) = None.
Proof.
  rewrite claudianLoad_value.
  assert (Hl : ∀ v, Obj.get k (loadedSettings cfg v) = None → Obj.get k (getDefaults cfg) = None).
  { intros v Hnone. destruct (Obj.get k (getDefaults cfg)) eqn:Hd; [|done].
    assert (Hs : is_Some (Obj.get k (loadedSettings cfg v))).
    { unfold loadedSettings. do 2 apply get_spread_is_Some. by eexists. }
    rewrite Hnone in Hs. by destruct Hs. }
  destruct (files s !! CLAUDIAN_SETTINGS_PATH) as [[v|]|]; [| done |].
  - destruct v; intros Heq; simplify_eq; apply Hl.
  - intros Heq. by simplify_eq.
Qed.

(** What [load()] makes of a stored object, for a key it copies. *)
Lemma loadedSettings_get (cfg : Config) (o : JObject) (k : string) :
  NoDup (Obj.keys o) →
  k ∉ ["blockedCommands"; "claudeCliPath"; "claudeCliPathsByHost"; "activeConversationId"] →
  Obj.get k (loadedSettings cfg (JObj o)) =
    match Obj.get k o with Some v => Some v | None => Obj.get k (getDefaults cfg) end.
Proof.
  intros Hnd Hk. rewrite !not_elem_of_cons in Hk. destruct Hk as (H1 & H2 & H3 & H4 & _).
  unfold loadedSettings. cbn [ownEntries].
  rewrite get_spread_NoDup.
  2:{ unfold Obj.keys. simpl. repeat (apply NoDup_cons; split; [rewrite ?not_elem_of_cons; split_and?; try done; apply not_elem_of_nil|]). apply NoDup_nil. done. }
  simpl. rewrite !bool_decide_false by done.
  rewrite get_spread_NoDup by (by apply NoDup_keys_del).
  by rewrite get_del_ne.
Qed.

(** What [update] writes, and what [load()] makes of it. *)
Lemma claudianUpdate_saved (cfg : Config) (s s0 : Vault) (current : JObject)
    (updates : list (string * option JValue)) :
  claudianLoad cfg s = Ok current s0 →
  claudianUpdate cfg updates s =
    adapterWrite cfg CLAUDIAN_SETTINGS_PATH
      (Json (JObj (literal (Obj.spread ((fun kv => (kv.1, Some kv.2)) <$> current) updates)))) s0.
Proof. intros Hload. unfold claudianUpdate, bind, claudianSave. by rewrite Hload. Qed.

Lemma updated_get (current : JObject) (updates : list (string * option JValue)) (k : string) :
  NoDup (Obj.keys current) → NoDup (Obj.keys updates) →
  Obj.get k (literal (Obj.spread ((fun kv => (kv.1, Some kv.2)) <$> current) updates)) =
    match Obj.get k updates with
    | Some v => v
    | None => Obj.get k current
    end.
Proof.
  intros Hc Hu. rewrite get_literal.
  2:{ apply NoDup_keys_spread. by rewrite keys_fmap_Some. }
  rewrite get_spread_NoDup by done. rewrite get_fmap_Some.
  destruct (Obj.get k updates) as [[v|]|]; try done. by destruct (Obj.get k current).
Qed.

Lemma claudianUpdate_load (cfg : Config) (s s' : Vault) (current : JObject)
    (updates : list (string * option JValue)) :
  NoDup (Obj.keys (DEFAULT_SETTINGS cfg)) → NoDup (Obj.keys updates) →
  loseWrite cfg CLAUDIAN_SETTINGS_PATH = false →
  valueOf (claudianLoad cfg s) = Some current →
  claudianUpdate cfg updates s = Ok tt s' →
  ∃ loaded s'',
    claudianLoad cfg s' = Ok loaded s''
    ∧ ∀ k,
        k ∉ ["blockedCommands"; "claudeCliPath"; "claudeCliPathsByHost"; "activeConversationId"] →
        Obj.get k loaded =
          match Obj.get k updates with
          | Some (Some v) => Some v
          | Some None => Obj.get k (getDefaults cfg)
          | None => Obj.get k current
          end.
Proof.
  intros Hnd Hu Hlose Hcur Hrun.
  destruct (claudianLoad cfg s) as [current' s0|] eqn:Hload; [|done].
  simpl in Hcur. simplify_eq.
  assert (Hndc := claudianLoad_NoDup _ _ _ _ Hnd Hload).
  rewrite (claudianUpdate_saved _ _ _ _ _ Hload) in Hrun.
  unfold adapterWrite in Hrun. rewrite Hlose in Hrun.
  destruct (failWrite cfg CLAUDIAN_SETTINGS_PATH); [done|].
  injection Hrun as <-.
  set (saved := literal (Obj.spread ((fun kv => (kv.1, Some kv.2)) <$> current) updates)).
  rewrite claudianLoad_value. cbn [files record withFiles].
  rewrite lookup_insert_eq. eexists _, _. split; [reflexivity|]. intros k Hk.
  rewrite loadedSettings_get; [|apply NoDup_keys_literal, NoDup_keys_spread; by rewrite keys_fmap_Some | done].
  unfold saved. rewrite updated_get by done.
  destruct (Obj.get k updates) as [[v|]|]; try done.
  destruct (Obj.get k current) eqn:Hc; [done|].
  by eapply claudianLoad_defaults.
Qed.

(** X8.  [update] is read back by [load()]: after an update that was
    stored, a key that [load()] copies holds the updated value when the
    update gives one, the default when the update holds [undefined] for it,
    and otherwise what [load()] returned before the update. *)
Theorem update_then_load (cfg : Config) (s s' : Vault) (current : JObject)
    (updates : list (string * option JValue)) :
  NoDup (Obj.keys (DEFAULT_SETTINGS cfg)) → NoDup (Obj.keys updates) →
  loseWrite cfg CLAUDIAN_SETTINGS_PATH = false →
  valueOf (claudianLoad cfg s) = Some current →
  claudianUpdate cfg updates s = Ok tt s' →
  ∃ loaded s'',
    claudianLoad cfg s' = Ok loaded s''
    ∧ ∀ k,
        k ∉ ["blockedCommands"; "claudeCliPath"; "claudeCliPathsByHost"; "activeConversationId"] →
        Obj.get k loaded =
          match Obj.get k updates with
          | Some (Some v) => Some v
          | Some None => Obj.get k (getDefaults cfg)
          | None => Obj.get k current
          end.
Proof. apply claudianUpdate_load. Qed.

Lemma NoDup_example_defaults : NoDup (Obj.keys (DEFAULT_SETTINGS Example.reliable)).
Proof. apply (bool_decide_unpack _). vm_compute. reflexivity. Defined.

Lemma update_then_load_witness :
  ∃ loaded s'',
    claudianLoad Example.reliable
      (stateOf (claudianUpdate Example.reliable
                  [("lastEnvHash", Some (JStr "new")); ("model", None)] Example.keptVault)) =
      Ok loaded s''
    ∧ Obj.get "lastEnvHash" loaded = Some (JStr "new")
    ∧ Obj.get "model" loaded = Some (JStr "haiku")
    ∧ Obj.get "lastCustomModel" loaded = Some (JStr "").
Proof.
  destruct (update_then_load Example.reliable Example.keptVault
              (stateOf (claudianUpdate Example.reliable
                          [("lastEnvHash", Some (JStr "new")); ("model", None)] Example.keptVault))
              (loadedSettings Example.reliable Example.keptSettings)
              [("lastEnvHash", Some (JStr "new")); ("model", None)])
    as (loaded & s'' & Hload & Hget).
  - exact NoDup_example_defaults.
  - apply (bool_decide_unpack _). vm_compute. reflexivity.
  - reflexivity.
  - reflexivity.
  - vm_compute. reflexivity.
  - exists loaded, s''. split; [exact Hload|]. split_and!.
    + rewrite (Hget "lastEnvHash"); [reflexivity|].
      apply (bool_decide_unpack _). vm_compute. reflexivity.
    + rewrite (Hget "model"); [reflexivity|].
      apply (bool_decide_unpack _). vm_compute. reflexivity.
    + rewrite (Hget "lastCustomModel"); [reflexivity|].
      apply (bool_decide_unpack _). vm_compute. reflexivity.
Defined.

(** X9.  A settings file that cannot be read as JSON is never overwritten
    by an update: [update], [setLastModel] and [setLastEnvHash] throw the
    error of [load()], attempt no write and leave every file as it is. *)
Theorem update_keeps_damaged_file (cfg : Config) (s s0 : Vault) (e : Error) :
  claudianLoad cfg s = Throw e s0 →
  (∀ updates, claudianUpdate cfg updates s = Throw e s0)
  ∧ (∀ model isCustom, claudianSetLastModel cfg model isCustom s = Throw e s0)
  ∧ (∀ hash, claudianSetLastEnvHash cfg hash s = Throw e s0)
  ∧ files s0 = files s
  ∧ writes (newEvents s s0) = [].
Proof.
  intros Hload.
  assert (Hup : ∀ updates, claudianUpdate cfg updates s = Throw e s0).
  { intros updates. unfold claudianUpdate, bind. by rewrite Hload. }
  split_and!; [done | | | |].
  - intros model []; apply Hup.
  - intros hash. apply Hup.
  - pose proof (claudianLoad_files cfg s) as (Hf & _). by rewrite Hload in Hf.
  - destruct (claudianLoad_trace cfg s) as (ev & (Hlog & _) & Hev).
    rewrite Hload in Hlog. cbn [stateOf] in Hlog.
    rewrite (newEvents_app _ _ _ Hlog). by apply writes_load.
Qed.

Lemma update_keeps_damaged_file_witness :
  claudianSetLastEnvHash Example.reliable "hash"
    (Example.vault [(CLAUDIAN_SETTINGS_PATH, Text "{")] None) =
  Throw SyntaxError
    (stateOf (claudianLoad Example.reliable
                (Example.vault [(CLAUDIAN_SETTINGS_PATH, Text "{")] None))).
Proof.
  refine (proj1 (proj2 (proj2 (update_keeps_damaged_file Example.reliable
            (Example.vault [(CLAUDIAN_SETTINGS_PATH, Text "{")] None) _ SyntaxError _))) "hash").
  vm_compute. reflexivity.
Defined.

(** X10.  [setLastModel] sets one of the two model fields and leaves the
    other as it was: after a call that was stored, [load()] returns the
    model under [lastCustomModel] when [isCustom] holds and under
    [lastClaudeModel] otherwise, the other field as it was loaded before,
    and every other key that [load()] copies unchanged. *)
Theorem setLastModel_sets_one_field (cfg : Config) (s s' : Vault) (current : JObject)
    (model : string) (isCustom : bool) :
  NoDup (Obj.keys (DEFAULT_SETTINGS cfg)) →
  loseWrite cfg CLAUDIAN_SETTINGS_PATH = false →
  valueOf (claudianLoad cfg s) = Some current →
  claudianSetLastModel cfg model isCustom s = Ok tt s' →
  ∃ loaded s'',
    claudianLoad cfg s' = Ok loaded s''
    ∧ Obj.get "lastCustomModel" loaded =
        (if isCustom then Some (JStr model) else Obj.get "lastCustomModel" current)
    ∧ Obj.get "lastClaudeModel" loaded =
        (if isCustom then Obj.get "lastClaudeModel" current else Some (JStr model))
    ∧ ∀ k,
        k ∉ ["blockedCommands"; "claudeCliPath"; "claudeCliPathsByHost"; "activeConversationId";
             "lastCustomModel"; "lastClaudeModel"] →
        Obj.get k loaded = Obj.get k current.
Proof.
  intros Hnd Hlose Hcur Hrun. unfold claudianSetLastModel in Hrun.
  assert (Hu : ∀ f, NoDup (Obj.keys [(f, Some (JStr model))])).
  { intros f. apply NoDup_singleton. }
  assert (Hspecial : ∀ k, k ∈ ["lastCustomModel"; "lastClaudeModel"] →
            k ∉ ["blockedCommands"; "claudeCliPath"; "claudeCliPathsByHost";
                 "activeConversationId"]).
  { intros k Hk. rewrite !elem_of_cons in Hk. rewrite !not_elem_of_cons.
    destruct Hk as [->|[->|Hk]]; [| |by apply elem_of_nil in Hk];
      split_and!; try done; apply not_elem_of_nil. }
  destruct isCustom;
    destruct (claudianUpdate_load cfg s s' current _ Hnd (Hu _) Hlose Hcur Hrun)
      as (loaded & s'' & Hload & Hget);
    exists loaded, s''; (split; [exact Hload|]); split_and!.
  - rewrite Hget; [done|]. apply Hspecial. apply elem_of_cons. by left.
  - rewrite Hget; [done|]. apply Hspecial. apply elem_of_cons. right. apply elem_of_cons. by left.
  - intros k Hk. rewrite !not_elem_of_cons in Hk.
    rewrite Hget by (rewrite !not_elem_of_cons; tauto).
    simpl. rewrite bool_decide_false by tauto. done.
  - rewrite Hget; [done|]. apply Hspecial. apply elem_of_cons. by left.
  - rewrite Hget; [done|]. apply Hspecial. apply elem_of_cons. right. apply elem_of_cons. by left.
  - intros k Hk. rewrite !not_elem_of_cons in Hk.
    rewrite Hget by (rewrite !not_elem_of_cons; tauto).
    simpl. rewrite bool_decide_false by tauto. done.
Qed.

Lemma setLastModel_sets_one_field_witness :
  ∃ loaded s'',
    claudianLoad Example.reliable
      (stateOf (claudianSetLastModel Example.reliable "opus" false Example.keptVault)) =
      Ok loaded s''
    ∧ Obj.get "lastCustomModel" loaded = Some (JStr "")
    ∧ Obj.get "lastClaudeModel" loaded = Some (JStr "opus").
Proof.
  destruct (setLastModel_sets_one_field Example.reliable Example.keptVault
              (stateOf (claudianSetLastModel Example.reliable "opus" false Example.keptVault))
              (loadedSettings Example.reliable Example.keptSettings) "opus" false)
    as (loaded & s'' & Hload & Hcustom & Hclaude & _).
  - exact NoDup_example_defaults.
  - reflexivity.
  - reflexivity.
  - vm_compute. reflexivity.
  - exists loaded, s''. split; [exact Hload|]. split; [exact Hcustom | exact Hclaude].
Defined.

(* ===================================================================== *)
(** ** The legacy identifier of the active conversation *)
(* ===================================================================== *)

Lemma del_del {V} (k : string) (o : list (string * V)) : Obj.del k (Obj.del k o) = Obj.del k o.
Proof.
  unfold Obj.del. rewrite list_filter_filter. apply list_filter_iff. intros x. tauto.
Qed.

Lemma del_absent {V} (k : string) (o : list (string * V)) :
  Obj.get k o = None → Obj.del k o = o.
Proof.
  unfold Obj.del. induction o as [|[k' v] o IH]; [done|]. simpl.
  case_bool_decide as Hk; [done|]. intros Hget.
  rewrite filter_cons_True by (simpl; congruence). by rewrite IH.
Qed.

(** [load()] does not look at the legacy key. *)
Lemma loadedSettings_del (cfg : Config) (o : JObject) :
  loadedSettings cfg (JObj (Obj.del ACTIVE_CONVERSATION_ID o)) = loadedSettings cfg (JObj o).
Proof.
  unfold loadedSettings. cbn [ownEntries prop].
  change "activeConversationId" with ACTIVE_CONVERSATION_ID.
  rewrite del_del. by rewrite !get_del_ne.
Qed.

Lemma claudianGetLegacy_eq (s : Vault) :
  claudianGetLegacyActiveConversationId s =
    match files s !! CLAUDIAN_SETTINGS_PATH with
    | None => Ok None (record (EvExists CLAUDIAN_SETTINGS_PATH) s)
    | Some (Text _) =>
        Throw SyntaxError
          (record (EvRead CLAUDIAN_SETTINGS_PATH) (record (EvExists CLAUDIAN_SETTINGS_PATH) s))
    | Some (Json JNull) =>
        Throw TypeError
          (record (EvRead CLAUDIAN_SETTINGS_PATH) (record (EvExists CLAUDIAN_SETTINGS_PATH) s))
    | Some (Json v) =>
        Ok (stringOrNull (prop ACTIVE_CONVERSATION_ID v))
          (record (EvRead CLAUDIAN_SETTINGS_PATH) (record (EvExists CLAUDIAN_SETTINGS_PATH) s))
    end.
Proof.
  unfold claudianGetLegacyActiveConversationId, bind, adapterExists, adapterRead.
  destruct (files s !! CLAUDIAN_SETTINGS_PATH) as [c|] eqn:Hc.
  - rewrite bool_decide_true by (by eexists). cbn [negb files record]. rewrite Hc.
    by destruct c as [[]|].
  - rewrite bool_decide_false by (by intros [? ?]). done.
Qed.

Lemma claudianGetLegacy_value (s : Vault) :
  valueOf (claudianGetLegacyActiveConversationId s) =
    match files s !! CLAUDIAN_SETTINGS_PATH with
    | None => Some None
    | Some (Text _) | Some (Json JNull) => None
    | Some (Json v) => Some (stringOrNull (prop ACTIVE_CONVERSATION_ID v))
    end.
Proof.
  rewrite claudianGetLegacy_eq.
  by destruct (files s !! CLAUDIAN_SETTINGS_PATH) as [[[]|]|].
Qed.

Lemma claudianGetLegacy_blob (s : Vault) :
  blobOf (stateOf (claudianGetLegacyActiveConversationId s)) = blobOf s.
Proof.
  rewrite claudianGetLegacy_eq.
  by destruct (files s !! CLAUDIAN_SETTINGS_PATH) as [[[]|]|].
Qed.

(** What [claudianSettings.clearLegacyActiveConversationId()] leaves in
    the file when it returns and its write is not lost. *)
Lemma claudianClear_file (cfg : Config) (s s' : Vault) :
  loseWrite cfg CLAUDIAN_SETTINGS_PATH = false →
  claudianClearLegacyActiveConversationId cfg s = Ok tt s' →
  data s' = data s
  ∧ (∀ p, p ≠ CLAUDIAN_SETTINGS_PATH → files s' !! p = files s !! p)
  ∧ match files s !! CLAUDIAN_SETTINGS_PATH with
    | None => files s' !! CLAUDIAN_SETTINGS_PATH = None ∧ writes (newEvents s s') = []
    | Some (Json (JObj o)) =>
        files s' !! CLAUDIAN_SETTINGS_PATH = Some (Json (JObj (Obj.del ACTIVE_CONVERSATION_ID o)))
        ∧ (Obj.get ACTIVE_CONVERSATION_ID o = None → writes (newEvents s s') = [])
    | Some (Json (JArr l)) =>
        files s' !! CLAUDIAN_SETTINGS_PATH = Some (Json (JArr l)) ∧ writes (newEvents s s') = []
    | Some _ => False
    end.
Proof.
  intros Hlose. unfold claudianClearLegacyActiveConversationId, bind, adapterExists, adapterRead.
  destruct (files s !! CLAUDIAN_SETTINGS_PATH) as [c|] eqn:Hc.
  - rewrite bool_decide_true by (by eexists). cbn [negb files record]. rewrite Hc.
    destruct c as [[| | | |l|o]|]; unfold jsonParse, ret, throw; cbn beta iota; try done.
    + intros Heq. simplify_eq. cbn [data files record].
      split_and!; try done.
      by rewrite (newEvents_app _ _ [EvExists CLAUDIAN_SETTINGS_PATH; EvRead CLAUDIAN_SETTINGS_PATH])
        by (cbn [log record]; by rewrite <- app_assoc).
    + simpl. case_bool_decide as Hk.
      * intros Heq. simplify_eq. cbn [data files record].
        split_and!; try done.
        -- by rewrite del_absent.
        -- intros _.
           by rewrite (newEvents_app _ _ [EvExists CLAUDIAN_SETTINGS_PATH; EvRead CLAUDIAN_SETTINGS_PATH])
             by (cbn [log record]; by rewrite <- app_assoc).
      * unfold adapterWrite. rewrite Hlose.
        destruct (failWrite cfg CLAUDIAN_SETTINGS_PATH); [done|].
        intros Heq. simplify_eq. cbn [data files record withFiles].
        split_and!; try done.
        -- intros p Hp. by rewrite lookup_insert_ne.
        -- by rewrite lookup_insert_eq.
  - rewrite bool_decide_false by (by intros [? ?]). cbn [negb].
    intros Heq. unfold ret in Heq. simplify_eq. cbn [data files record].
    split_and!; try done.
    by rewrite (newEvents_app _ _ [EvExists CLAUDIAN_SETTINGS_PATH]).
Qed.

(** X11.  Clearing the legacy identifier in the settings file is not seen
    by [load()]: when [clearLegacyActiveConversationId] of the settings storage has returned
    and its write was not lost, the file of an object is that object without
    the key [activeConversationId] (every other key as it was, in order, and
    no write at all when the key was not there), the identifier reads back
    as [null], and [load()] returns what it returned before. *)
Theorem clearing_legacy_id_keeps_settings (cfg : Config) (s s' : Vault) :
  loseWrite cfg CLAUDIAN_SETTINGS_PATH = false →
  claudianClearLegacyActiveConversationId cfg s = Ok tt s' →
  valueOf (claudianGetLegacyActiveConversationId s') = Some None
  ∧ valueOf (claudianLoad cfg s') = valueOf (claudianLoad cfg s)
  ∧ (∀ o, files s !! CLAUDIAN_SETTINGS_PATH = Some (Json (JObj o)) →
          files s' !! CLAUDIAN_SETTINGS_PATH =
            Some (Json (JObj (filter (fun kv => kv.1 ≠ ACTIVE_CONVERSATION_ID) o)))
          ∧ (Obj.get ACTIVE_CONVERSATION_ID o = None → writes (newEvents s s') = [])).
Proof.
  intros Hlose Hrun.
  destruct (claudianClear_file cfg s s' Hlose Hrun) as (Hd & Hother & Hfile).
  rewrite claudianGetLegacy_value, !claudianLoad_value.
  destruct (files s !! CLAUDIAN_SETTINGS_PATH) as [[[| | | |l|o]|]|] eqn:Hc; try done.
  - destruct Hfile as [-> _]. split_and!; try done.
  - destruct Hfile as [-> Hw]. split_and!.
    + cbn [prop]. by rewrite get_del_eq.
    + cbn [valueOf]. rewrite loadedSettings_del.
      by destruct (Obj.del ACTIVE_CONVERSATION_ID o).
    + intros o' Ho'. simplify_eq. done.
  - destruct Hfile as [-> _]. split_and!; try done.
Qed.

Lemma clearing_legacy_id_keeps_settings_witness :
  files (stateOf (claudianClearLegacyActiveConversationId Example.reliable
                    (Example.vault
                       [(CLAUDIAN_SETTINGS_PATH,
                         Json (JObj [("userName", JStr "Ann");
                                     ("activeConversationId", JStr "conv-1");
                                     ("model", JStr "opus")]))] None)))
    !! CLAUDIAN_SETTINGS_PATH =
  Some (Json (JObj [("userName", JStr "Ann"); ("model", JStr "opus")])).
Proof.
  refine (proj1 (proj2 (proj2 (clearing_legacy_id_keeps_settings Example.reliable
            (Example.vault
               [(CLAUDIAN_SETTINGS_PATH,
                 Json (JObj [("userName", JStr "Ann");
                             ("activeConversationId", JStr "conv-1");
                             ("model", JStr "opus")]))] None) _ _ _))
            [("userName", JStr "Ann"); ("activeConversationId", JStr "conv-1");
             ("model", JStr "opus")] _)).
  - reflexivity.
  - vm_compute. reflexivity.
  - reflexivity.
Defined.

Lemma legacyIdOfDataJson_value (s : Vault) :
  legacyIdOfDataJson s =
    Ok (match blobOf s with
        | Some d => stringOrNull (prop ACTIVE_CONVERSATION_ID d)
        | None => None
        end) s.
Proof. unfold legacyIdOfDataJson, bind, loadDataJson. by destruct (blobOf s). Qed.

(** X12.  After [storage.clearLegacyActiveConversationId()] has returned
    (and its write of the settings file was not lost),
    [storage.getLegacyActiveConversationId()] returns [null]: neither the
    settings file nor the blob holds the identifier any more.  Every other
    key of the blob keeps its value, and no file but the settings file is
    touched. *)
Theorem legacy_id_is_gone_after_clearing (cfg : Config) (s s' : Vault) :
  loseWrite cfg CLAUDIAN_SETTINGS_PATH = false →
  clearLegacyActiveConversationId cfg s = Ok tt s' →
  valueOf (getLegacyActiveConversationId s') = Some None
  ∧ (∀ k, k ≠ ACTIVE_CONVERSATION_ID → (blobOf s' ≫= prop k) = (blobOf s ≫= prop k))
  ∧ (∀ p, p ≠ CLAUDIAN_SETTINGS_PATH → files s' !! p = files s !! p).
Proof.
  intros Hlose. unfold clearLegacyActiveConversationId, bind.
  destruct (claudianClearLegacyActiveConversationId cfg s) as [[] s1|] eqn:Hclear; [|done].
  destruct (claudianClear_file cfg s s1 Hlose Hclear) as (Hd & Hother & Hfile).
  assert (Hsettings : ∀ s2, files s2 = files s1 →
            valueOf (claudianGetLegacyActiveConversationId s2) = Some None).
  { intros s2 Hf. rewrite claudianGetLegacy_value, Hf.
    destruct (files s !! CLAUDIAN_SETTINGS_PATH) as [[[| | | |l|o]|]|] eqn:Hc; try done.
    - destruct Hfile as [-> _]. done.
    - destruct Hfile as [-> _]. cbn [prop]. by rewrite get_del_eq.
    - destruct Hfile as [-> _]. done. }
  assert (Hget : ∀ s2, files s2 = files s1 →
            (∀ d, blobOf s2 = Some d → stringOrNull (prop ACTIVE_CONVERSATION_ID d) = None) →
            valueOf (getLegacyActiveConversationId s2) = Some None).
  { intros s2 Hf Hblob. unfold getLegacyActiveConversationId, bind.
    specialize (Hsettings s2 Hf).
    destruct (claudianGetLegacyActiveConversationId s2) as [r s3|] eqn:Hr; [|done].
    simpl in Hsettings. simplify_eq.
    assert (Hb3 : blobOf s3 = blobOf s2).
    { pose proof (claudianGetLegacy_blob s2) as Hb. by rewrite Hr in Hb. }
    rewrite legacyIdOfDataJson_value. cbn [valueOf]. rewrite Hb3.
    destruct (blobOf s2) as [d|] eqn:Hd2; [|done]. by rewrite (Hblob d). }
  unfold loadDataJson.
  assert (Hb1 : blobOf s1 = blobOf s) by (unfold blobOf; by rewrite Hd).
  rewrite Hb1.
  destruct (blobOf s) as [d|] eqn:Hblob.
  - destruct d as [| | | |l|o]; try done.
    + intros Heq. unfold ret in Heq. simplify_eq. split_and!; [|by rewrite Hb1|done].
      apply Hget; [done|]. rewrite Hb1. intros d Heq. by simplify_eq.
    + case_bool_decide as Hk.
      * intros Heq. unfold ret in Heq. simplify_eq. split_and!; [|by rewrite Hb1|done].
        apply Hget; [done|]. rewrite Hb1. intros d Heq. simplify_eq. cbn [prop]. by rewrite Hk.
      * intros Heq. unfold saveData in Heq. simplify_eq. split_and!.
        -- apply Hget; [done|]. unfold blobOf. cbn [data record withData truthy].
           intros d Heq. simplify_eq. cbn [prop]. by rewrite get_del_eq.
        -- intros k Hk'. unfold blobOf at 1. cbn [data record withData truthy].
           simpl. by rewrite get_del_ne.
        -- done.
  - intros Heq. unfold ret in Heq. simplify_eq. split_and!; [|by rewrite Hb1|done].
    apply Hget; [done|]. rewrite Hb1. done.
Qed.

Lemma legacy_id_is_gone_after_clearing_witness :
  valueOf (getLegacyActiveConversationId
             (stateOf (clearLegacyActiveConversationId Example.reliable
                (Example.vault
                   [(CLAUDIAN_SETTINGS_PATH, Json (JObj [("activeConversationId", JStr "conv-1")]))]
                   (Some (JObj [("activeConversationId", JStr "conv-2");
                                ("tabManagerState", Example.tabManagerState)])))))) = Some None.
Proof.
  refine (proj1 (legacy_id_is_gone_after_clearing Example.reliable
            (Example.vault
               [(CLAUDIAN_SETTINGS_PATH, Json (JObj [("activeConversationId", JStr "conv-1")]))]
               (Some (JObj [("activeConversationId", JStr "conv-2");
                            ("tabManagerState", Example.tabManagerState)]))) _ _ _)).
  - reflexivity.
  - vm_compute. reflexivity.
Defined.

(* ===================================================================== *)
(** ** The state of the tab manager in the blob *)
(* ===================================================================== *)

Lemma validateTab_tabEntryJson (tab : TabEntry) : validateTab (tabEntryJson tab) = Some tab.
Proof. destruct tab as [id [c|]]; reflexivity. Qed.

Lemma omap_validateTab_json (tabs : list TabEntry) :
  omap validateTab (tabEntryJson <$> tabs) = tabs.
Proof.
  induction tabs as [|tab tabs IH]; [done|].
  rewrite fmap_cons. cbn [omap list_omap]. rewrite validateTab_tabEntryJson.
  by f_equal.
Qed.

(** A state that fits its declaration passes the validation unchanged. *)
Lemma validate_tabManagerStateJson (state : TabManagerPersistedState) :
  validateTabManagerState (tabManagerStateJson state) = Some state.
Proof.
  destruct state as [tabs active]. unfold validateTabManagerState, tabManagerStateJson.
  cbn [prop Obj.get openTabs activeTabId]. rewrite !bool_decide_true by done.
  cbn [bool_decide]. rewrite bool_decide_false by done. rewrite bool_decide_true by done.
  rewrite omap_validateTab_json. by destruct active.
Qed.

Lemma getTabManagerState_eq (rejects : bool) (s : Vault) :
  getTabManagerState rejects s =
    Ok (match data s with
        | Some d =>
            match prop TAB_MANAGER_STATE d with
            | Some state => if truthy state then validateTabManagerState state else None
            | None => None
            end
        | None => None
        end) s.
Proof.
  unfold getTabManagerState, tryCatch, bind, loadData.
  destruct (data s) as [d|]; [|by destruct rejects].
  destruct (prop TAB_MANAGER_STATE d) as [state|]; [|done].
  by destruct (truthy state).
Qed.

(** X13.  The state of the tab manager is read back as it was saved: when
    the host can load its data and the blob is an object (or there is no
    blob yet), [getTabManagerState()] after [setTabManagerState(state)]
    returns [state]. *)
Theorem tab_state_round_trip (rejects : bool) (state : TabManagerPersistedState) (s : Vault) :
  (data s = None → rejects = false) →
  (∀ d, data s = Some d → truthy d = true → isObject d = true) →
  valueOf (getTabManagerState rejects (stateOf (setTabManagerState rejects state s))) =
    Some (Some state).
Proof.
  intros Hnone Hobj. rewrite getTabManagerState_eq. cbn [valueOf]. f_equal.
  unfold setTabManagerState, tryCatch, bind, loadData.
  assert (Hsaved : ∀ o s0,
    match data (stateOf (saveData (JObj (Obj.set TAB_MANAGER_STATE (tabManagerStateJson state) o)) s0)) with
    | Some d =>
        match prop TAB_MANAGER_STATE d with
        | Some st => if truthy st then validateTabManagerState st else None
        | None => None
        end
    | None => None
    end = Some state).
  { intros o s0. cbn [saveData stateOf data record withData prop].
    rewrite get_set_eq. cbn [truthy tabManagerStateJson].
    apply validate_tabManagerStateJson. }
  destruct (data s) as [d|] eqn:Hd.
  - destruct (truthy d) eqn:Ht.
    + specialize (Hobj d eq_refl Ht). destruct d; try done. apply Hsaved.
    + apply Hsaved.
  - rewrite (Hnone eq_refl). apply Hsaved.
Qed.

Lemma tab_state_round_trip_witness :
  valueOf (getTabManagerState true
             (stateOf (setTabManagerState true
                         {| openTabs := [{| tabId := "tab-1"; conversationId := Some "conv-1" |};
                                         {| tabId := "tab-2"; conversationId := None |}];
                            activeTabId := Some "tab-2" |}
                         (Example.vault [] (Some Example.versionedBlob))))) =
  Some (Some {| openTabs := [{| tabId := "tab-1"; conversationId := Some "conv-1" |};
                             {| tabId := "tab-2"; conversationId := None |}];
                activeTabId := Some "tab-2" |}).
Proof.
  apply (tab_state_round_trip true _ (Example.vault [] (Some Example.versionedBlob))).
  - discriminate.
  - intros d Hd _. injection Hd as <-. reflexivity.
Defined.

(** X14.  [setTabManagerState] never throws and touches nothing but its
    own key: whatever the host holds, the call returns, writes no file,
    creates no folder, and every other key of the blob keeps its value; on a
    blob that is an array or a primitive value nothing of the state is
    kept. *)
Theorem setTabManagerState_frame (rejects : bool) (state : TabManagerPersistedState) (s : Vault) :
  ∃ s', setTabManagerState rejects state s = Ok tt s'
    ∧ files s' = files s
    ∧ folders s' = folders s
    ∧ (∀ k, k ≠ TAB_MANAGER_STATE → (blobOf s' ≫= prop k) = (blobOf s ≫= prop k))
    ∧ (∀ d, data s = Some d → truthy d = true → isObject d = false → data s' = data s).
Proof.
  unfold setTabManagerState, tryCatch, bind, loadData.
  assert (Hfresh : ∀ s0, files s0 = files s → folders s0 = folders s → blobOf s = None →
    ∃ s', saveData (JObj (Obj.set TAB_MANAGER_STATE (tabManagerStateJson state) [])) s0 = Ok tt s'
      ∧ files s' = files s ∧ folders s' = folders s
      ∧ (∀ k, k ≠ TAB_MANAGER_STATE → (blobOf s' ≫= prop k) = (blobOf s ≫= prop k))).
  { intros s0 Hf Ho Hb. eexists. split; [reflexivity|]. split_and!; try done.
    intros k Hk. rewrite Hb. unfold blobOf. cbn [data record withData truthy mbind option_bind prop Obj.set Obj.get].
    by rewrite bool_decide_false. }
  destruct (data s) as [d|] eqn:Hd.
  - destruct (truthy d) eqn:Ht.
    + destruct d as [| | | |l|o]; try (exists s; split_and!; by try done).
      * eexists. split; [reflexivity|]. split_and!; try done.
        intros k Hk. unfold blobOf. cbn [data record withData]. by rewrite Hd.
      * eexists. split; [reflexivity|]. split_and!; try done.
        -- intros k Hk. unfold blobOf. cbn [data record withData truthy]. rewrite Hd.
           cbn [truthy mbind option_bind prop]. by rewrite get_set_ne.
        -- intros d' Hd' _ Hobj. by simplify_eq.
    + destruct (Hfresh s eq_refl eq_refl) as (s' & Hrun & Hf & Ho & Hk).
      { unfold blobOf. by rewrite Hd, Ht. }
      exists s'. split_and!; try done. intros d' Hd' Ht'. congruence.
  - destruct rejects.
    + exists s. split_and!; done.
    + destruct (Hfresh s eq_refl eq_refl) as (s' & Hrun & Hf & Ho & Hk).
      { unfold blobOf. by rewrite Hd. }
      exists s'. split_and!; done.
Qed.

(** X15.  The validation of a stored tab state is sound and complete for
    the entries: the tabs of the result are exactly the entries of
    [openTabs] that carry a string [tabId], each with its [conversationId]
    when that is a string; no more tabs come out than entries went in; and
    a result of the validation passes it again unchanged. *)
Theorem validateTabManagerState_sound (value : JValue) (state : TabManagerPersistedState) :
  validateTabManagerState value = Some state →
  (∃ tabs,
      prop "openTabs" value = Some (JArr tabs)
      ∧ (List.length (openTabs state) ≤ List.length tabs)%nat
      ∧ ∀ tab, tab ∈ openTabs state ↔
          ∃ entry, entry ∈ tabs
            ∧ prop "tabId" entry = Some (JStr (tabId tab))
            ∧ conversationId tab = stringOrNull (prop "conversationId" entry))
  ∧ activeTabId state = stringOrNull (prop "activeTabId" value)
  ∧ validateTabManagerState (tabManagerStateJson state) = Some state.
Proof.
  intros Hv. split_and!; [| |apply validate_tabManagerStateJson].
  - unfold validateTabManagerState in Hv.
    assert (Htabs : ∃ tabs, prop "openTabs" value = Some (JArr tabs)
                            ∧ openTabs state = omap validateTab tabs).
    { destruct value; try done; destruct (prop "openTabs" _) as [[]|] eqn:Hp; try done;
        eexists; split; try done; by simplify_eq. }
    destruct Htabs as (tabs & Hp & Hopen). exists tabs. split; [done|]. split.
    + rewrite Hopen. clear. induction tabs as [|x tabs IH]; [done|].
      cbn [omap list_omap]. destruct (validateTab x); simpl; lia.
    + intros tab. rewrite Hopen, list_elem_of_omap. split.
      * intros (entry & Hin & Hval). exists entry. split; [done|].
        unfold validateTab in Hval.
        destruct entry; try done; destruct (prop "tabId" _) as [[]|]; try done;
          by simplify_eq.
      * intros (entry & Hin & Hid & Hconv). exists entry. split; [done|].
        unfold validateTab. destruct entry; try done. rewrite Hid, <- Hconv.
        by destruct tab.
  - unfold validateTabManagerState in Hv.
    destruct value; try done; destruct (prop "openTabs" _) as [[]|]; try done; by simplify_eq.
Qed.

Lemma validateTabManagerState_sound_witness :
  validateTabManagerState
    (tabManagerStateJson
       {| openTabs := [{| tabId := "tab-1"; conversationId := None |}];
          activeTabId := None |}) =
  Some {| openTabs := [{| tabId := "tab-1"; conversationId := None |}]; activeTabId := None |}.
Proof.
  refine (proj2 (proj2 (validateTabManagerState_sound
            (JObj [("openTabs", JArr [JNum 3; JObj [("tabId", JStr "tab-1")];
                                      JObj [("conversationId", JStr "conv-9")]]);
                   ("activeTabId", JNum 0)])
            {| openTabs := [{| tabId := "tab-1"; conversationId := None |}];
               activeTabId := None |} _))).
  reflexivity.
Defined.

(** An index is no name of a field. *)
Lemma indexKey_digit (n : nat) :
  ∃ c r, Js.indexKey n = String c r ∧ (48 ≤ nat_of_ascii c ≤ 57)%nat.
Proof.
  unfold Js.indexKey, NilZero.string_of_uint.
  destruct (Nat.to_uint n); simpl; eexists _, _; (split; [reflexivity|]); vm_compute; lia.
Qed.

Lemma get_indexed_None (k : string) (i : nat) (l : list JValue) :
  (∀ c r, k = String c r → (57 < nat_of_ascii c)%nat) → Obj.get k (indexed i l) = None.
Proof.
  intros Hk. revert i. induction l as [|x l IH]; intros i; [done|].
  cbn [indexed Obj.get]. rewrite bool_decide_false; [apply IH|].
  intros Heq. destruct (indexKey_digit i) as (c & r & Hi & Hc).
  rewrite Hi in Heq. specialize (Hk c r Heq). lia.
Qed.

(** A field read off the own entries of a value is the property of the
    value, for a name that is no index. *)
Lemma get_ownEntries (k : string) (d : JValue) :
  (∀ c r, k = String c r → (57 < nat_of_ascii c)%nat) → Obj.get k (ownEntries d) = prop k d.
Proof.
  intros Hk. destruct d; try done; apply get_indexed_None; done.
Qed.

(** The blob after the blob migration, whatever its outcome: as it was, or
    cleared. *)
Lemma migrateBlob_data (cfg : Config) (d : JValue) (s : Vault) :
  data s = Some d → truthy d = true →
  data (stateOf (migrateBlob cfg d s)) = Some d
  ∨ data (stateOf (migrateBlob cfg d s)) = Some (JObj (cleanedData d)).
Proof.
  intros Hd Ht. unfold migrateBlob, bind. cbv zeta.
  destruct (stateStep_facts cfg d s) as (ev1 & (_ & Hd1 & _) & _).
  destruct (when (hasStateToMigrate d) (migrateFromDataJson cfg d) s) as [[] s1|e s1];
    cbn [stateOf] in *; [|left; congruence].
  destruct (contentStep_facts cfg d s1) as (h & s2 & ev2 & Hrun & (_ & Hd2 & _) & _).
  rewrite Hrun. unfold when.
  destruct ((hasStateToMigrate d || hasLegacyContentToMigrate d) && negb h).
  - right. rewrite (clearLegacyDataJson_saves s2 d) by congruence. done.
  - left. cbn [ret stateOf]. congruence.
Qed.

Lemma runMigrations_data (cfg : Config) (s : Vault) :
  data (stateOf (runMigrations cfg s)) = data s
  ∨ ∃ d, data s = Some d ∧ data (stateOf (runMigrations cfg s)) = Some (JObj (cleanedData d)).
Proof.
  rewrite runMigrations_unfold.
  set (s0 := record (EvExists CLAUDIAN_SETTINGS_PATH) (record (EvExists CC_SETTINGS_PATH) s)).
  destruct (splitStep_facts cfg
              (bool_decide (is_Some (files s !! CC_SETTINGS_PATH))
               && negb (bool_decide (is_Some (files s !! CLAUDIAN_SETTINGS_PATH)))) s0)
    as (evS & (_ & _ & HdataS & _) & Hc & _).
  rewrite replayData_not_cleared in HdataS by done.
  destruct (when _ _ s0) as [[] s1|e s1]; cbn [stateOf] in *; [|by left].
  destruct (blobOf s) as [d|] eqn:Hblob; [|by left].
  apply blobOf_Some in Hblob as [Hd Ht].
  destruct (migrateBlob_data cfg d s1) as [Hsame|Hcleared]; [by rewrite HdataS | done | |].
  - left. by rewrite Hsame.
  - right. by exists d.
Qed.

Lemma tabState_cleaned (d : JValue) :
  prop TAB_MANAGER_STATE (JObj (cleanedData d)) = prop TAB_MANAGER_STATE d.
Proof.
  cbn [prop]. rewrite cleanedData_get. rewrite decide_False.
  - apply get_ownEntries. intros c r Heq. injection Heq as <- _. vm_compute. lia.
  - unfold CLEARED_KEYS, TAB_MANAGER_STATE. rewrite !not_elem_of_cons.
    split_and!; try done. apply not_elem_of_nil.
Qed.

(** X16.  The migrations keep the state of the tab manager: whatever
    [initialize()] does and however it ends, [getTabManagerState()] returns
    afterwards what it returned before; and so it does across
    [clearLegacyDataJson()]. *)
Theorem migration_keeps_tab_state (cfg : Config) (rejects : bool) (s : Vault) :
  valueOf (getTabManagerState rejects (stateOf (initialize cfg s))) =
    valueOf (getTabManagerState rejects s)
  ∧ valueOf (getTabManagerState rejects (stateOf (clearLegacyDataJson s))) =
      valueOf (getTabManagerState rejects s).
Proof.
  rewrite !getTabManagerState_eq. cbn [valueOf].
  assert (Hstep : ∀ s1 : Vault,
            (data s1 = data s
             ∨ ∃ d, data s = Some d ∧ data s1 = Some (JObj (cleanedData d))) →
            Some match data s1 with
                 | Some d =>
                     match prop TAB_MANAGER_STATE d with
                     | Some st => if truthy st then validateTabManagerState st else None
                     | None => None
                     end
                 | None => None
                 end =
            Some match data s with
                 | Some d =>
                     match prop TAB_MANAGER_STATE d with
                     | Some st => if truthy st then validateTabManagerState st else None
                     | None => None
                     end
                 | None => None
                 end).
  { intros s1 [->|(d & -> & ->)]; [done|]. by rewrite tabState_cleaned. }
  split; apply Hstep.
  - unfold initialize, bind. rewrite ensureDirectories_eq.
    set (s0 := withFolders _ s).
    pose proof (runMigrations_data cfg s0) as Hrun.
    change (data s0) with (data s) in Hrun.
    destruct (runMigrations cfg s0) as [[] s1|e s1]; cbn [stateOf] in *; [|done].
    unfold ccSettingsLoad.
    destruct (ccLoad cfg (files s1 !! CC_SETTINGS_PATH)) as [e|cc]; cbn [stateOf]; [done|].
    pose proof (claudianLoad_files cfg s1) as (_ & Hd & _).
    destruct (claudianLoad cfg s1) as [claudian s2|e s2]; cbn [stateOf ret] in *;
      by rewrite Hd.
  - unfold clearLegacyDataJson, bind, loadDataJson.
    destruct (blobOf s) as [d|] eqn:Hblob; [|by left].
    apply blobOf_Some in Hblob as [Hd Ht]. right. exists d. split; [done|].
    pose proof (clearLegacyDataJson_saves s d Hd Ht) as Hrun.
    unfold clearLegacyDataJson, bind, loadDataJson in Hrun.
    assert (Hb : blobOf s = Some d) by (by apply blobOf_Some).
    rewrite Hb in Hrun. by rewrite Hrun.
Qed.

(* ===================================================================== *)
(** ** The merge of environment texts as an operation *)
(* ===================================================================== *)

Lemma set_comm_present {V} (k k2 : string) (v v2 : V) (o : list (string * V)) :
  k ≠ k2 → k ∈ Obj.keys o →
  Obj.set k v (Obj.set k2 v2 o) = Obj.set k2 v2 (Obj.set k v o).
Proof.
  intros Hne. unfold Obj.keys. induction o as [|[ky vy] o IH]; intros Hin.
  - by apply elem_of_nil in Hin.
  - rewrite fmap_cons in Hin. cbn [Obj.set].
    destruct (decide (k = ky)) as [->|Hky].
    + rewrite (bool_decide_false (k2 = ky)) by done.
      rewrite (bool_decide_true (ky = ky)) by done. cbn [Obj.set].
      rewrite (bool_decide_true (ky = ky)) by done.
      by rewrite (bool_decide_false (k2 = ky)) by done.
    + apply elem_of_cons in Hin as [?|Hin]; [done|].
      rewrite (bool_decide_false (k = ky)) by done.
      destruct (decide (k2 = ky)) as [->|Hk2].
      * rewrite (bool_decide_true (ky = ky)) by done. cbn [Obj.set].
        rewrite (bool_decide_false (k = ky)) by done.
        by rewrite (bool_decide_true (ky = ky)) by done.
      * rewrite (bool_decide_false (k2 = ky)) by done. cbn [Obj.set].
        rewrite (bool_decide_false (k = ky)) by done.
        rewrite (bool_decide_false (k2 = ky)) by done.
        by rewrite IH.
Qed.

Lemma set_set_eq {V} (k : string) (v v' : V) (o : list (string * V)) :
  Obj.set k v (Obj.set k v' o) = Obj.set k v o.
Proof.
  induction o as [|[ky vy] o IH]; cbn [Obj.set].
  - by rewrite bool_decide_true.
  - case_bool_decide as Hk; cbn [Obj.set].
    + by rewrite bool_decide_true.
    + rewrite bool_decide_false by done. by rewrite IH.
Qed.

Lemma elem_of_keys_set {V} (k k' : string) (v : V) (o : list (string * V)) :
  k ∈ Obj.keys (Obj.set k' v o) ↔ k = k' ∨ k ∈ Obj.keys o.
Proof.
  rewrite keys_set. destruct (decide (k' ∈ Obj.keys o)) as [Hin|Hnin].
  - split; [by right | intros [->|?]; done].
  - rewrite elem_of_app, list_elem_of_singleton. tauto.
Qed.

Lemma spread_cons {V} (a : list (string * V)) (k : string) (v : V) (b : list (string * V)) :
  Obj.spread a ((k, v) :: b) = Obj.spread (Obj.set k v a) b.
Proof. reflexivity. Qed.

Lemma spread_snoc {V} (a b : list (string * V)) (k : string) (v : V) :
  Obj.spread a (b ++ [(k, v)]) = Obj.set k v (Obj.spread a b).
Proof. unfold Obj.spread. by rewrite fold_left_app. Qed.

Lemma spread_app {V} (a b c : list (string * V)) :
  Obj.spread a (b ++ c) = Obj.spread (Obj.spread a b) c.
Proof. unfold Obj.spread. by rewrite fold_left_app. Qed.

Lemma set_spread_present {V} (k : string) (v : V) (y o : list (string * V)) :
  k ∈ Obj.keys y → k ∉ Obj.keys o →
  Obj.set k v (Obj.spread y o) = Obj.spread (Obj.set k v y) o.
Proof.
  revert y. induction o as [|[k2 v2] o IH]; intros y Hy Ho; [done|].
  unfold Obj.keys in Ho. rewrite fmap_cons, not_elem_of_cons in Ho. destruct Ho as [Hne Ho].
  rewrite !spread_cons. rewrite IH; [|apply elem_of_keys_set; by right | done].
  by rewrite set_comm_present.
Qed.

(** Spreading an object whose one value was replaced. *)
Lemma spread_set {V} (k : string) (v : V) (x o : list (string * V)) :
  NoDup (Obj.keys o) → Obj.spread x (Obj.set k v o) = Obj.set k v (Obj.spread x o).
Proof.
  revert x. induction o as [|[k' v'] o IH]; intros x Hnd; [done|].
  unfold Obj.keys in Hnd. rewrite fmap_cons in Hnd. apply NoDup_cons in Hnd as [Hk' Hnd].
  cbn [Obj.set]. case_bool_decide as Hk.
  - subst k'. rewrite !spread_cons.
    rewrite set_spread_present; [|apply elem_of_keys_set; by left | done].
    by rewrite set_set_eq.
  - rewrite !spread_cons. by apply IH.
Qed.

(** Repeated keys can be resolved before the spread or by it. *)
Lemma spread_dedup {V} (x e : list (string * V)) :
  Obj.spread x (Obj.spread [] e) = Obj.spread x e.
Proof.
  induction e as [|[k v] e IH] using rev_ind; [done|].
  rewrite !spread_snoc. rewrite spread_set; [by rewrite IH|].
  apply NoDup_keys_spread. constructor.
Qed.

Lemma set_absent {V} (k : string) (v : V) (o : list (string * V)) :
  k ∉ Obj.keys o → Obj.set k v o = (o ++ [(k, v)])%list.
Proof.
  unfold Obj.keys. induction o as [|[k' v'] o IH]; [done|].
  rewrite fmap_cons, not_elem_of_cons. intros [Hne Ho]. cbn [Obj.set].
  rewrite bool_decide_false by done. by rewrite IH.
Qed.

Lemma spread_fresh {V} (a m : list (string * V)) :
  NoDup (Obj.keys (a ++ m)) → Obj.spread a m = (a ++ m)%list.
Proof.
  revert a. induction m as [|[k v] m IH]; intros a Hnd; [by rewrite app_nil_r|].
  rewrite spread_cons. rewrite set_absent.
  - rewrite IH; rewrite <- app_assoc; done.
  - unfold Obj.keys in *. rewrite fmap_app, fmap_cons in Hnd.
    apply NoDup_app in Hnd as (_ & Hdis & _). intros Hin.
    apply (Hdis k Hin). apply elem_of_cons. by left.
Qed.

Lemma spread_nil_id {V} (m : list (string * V)) : NoDup (Obj.keys m) → Obj.spread [] m = m.
Proof. intros Hnd. by apply (spread_fresh [] m). Qed.

Lemma elem_of_set {V} (kv : string * V) (k : string) (v : V) (o : list (string * V)) :
  kv ∈ Obj.set k v o → kv = (k, v) ∨ kv ∈ o.
Proof.
  induction o as [|[k' v'] o IH]; cbn [Obj.set].
  - intros Hin. apply list_elem_of_singleton in Hin. by left.
  - case_bool_decide as Hk.
    + subst k'. rewrite !elem_of_cons. intros [->|?]; [by left | right; by right].
    + rewrite !elem_of_cons. intros [->|Hin]; [right; by left|].
      destruct (IH Hin) as [?|?]; [by left | right; by right].
Qed.

Lemma elem_of_spread {V} (kv : string * V) (a b : list (string * V)) :
  kv ∈ Obj.spread a b → kv ∈ a ∨ kv ∈ b.
Proof.
  revert a. induction b as [|[k v] b IH]; intros a; [by left|].
  rewrite spread_cons. intros Hin. destruct (IH _ Hin) as [Hin'|Hin'].
  - apply elem_of_set in Hin' as [->|?]; [right; apply elem_of_cons; by left | by left].
  - right. apply elem_of_cons. by right.
Qed.

(* --------------------------------------------------------------------- *)
(** *** Lines that are read back *)

Lemma indexOf_split (c : ascii) (s : string) (n : nat) :
  Js.indexOf c s = Some n →
  ∃ k v, s = k ++ String c v ∧ String.length k = n ∧ hasChar c k = false.
Proof.
  revert n. induction s as [|d s IH]; intros n; cbn [Js.indexOf]; [done|].
  case_bool_decide as Hc.
  - intros [= <-]. subst d. by exists "", s.
  - destruct (Js.indexOf c s) as [i|]; [|done]. intros [= <-].
    destruct (IH i eq_refl) as (k & v & -> & Hlen & Hk).
    exists (String d k), v. split_and!; [done | by rewrite <- Hlen|].
    simpl. rewrite Hk. by rewrite bool_decide_false.
Qed.

(** An entry that a line sets is plain: the merged text spells it and is
    read back as it is. *)
Lemma parseEnvLine_plain (line : string) (kv : string * string) :
  hasChar Js.LF line = false → parseEnvLine line = Some kv → plainEntry kv = true.
Proof.
  intros Hlf. unfold parseEnvLine. cbv zeta.
  set (t := Js.trim line).
  assert (Htlf : hasChar Js.LF t = false).
  { unfold t, Js.trim. by apply hasChar_trimEnd, hasChar_trimStart. }
  assert (Hte : Js.trimEnd t = t) by apply trimEnd_idem.
  destruct (Js.isEmpty t) eqn:Hempty; [done|].
  destruct (Js.startsWithChar "#" t) eqn:Hhash; [done|]. cbn [orb].
  destruct (Js.indexOf "=" t) as [[|i]|] eqn:Hidx; [done| |done].
  destruct (indexOf_split _ _ _ Hidx) as (k & v & Ht & Hlen & Hk).
  intros [= <-].
  rewrite Ht. rewrite <- Hlen. rewrite sliceTo_app.
  change (S (String.length k)) with (S (String.length k)).
  rewrite sliceFrom_app.
  destruct k as [|c k]; [done|].
  assert (Hts : Js.trimStart t = t) by apply trimStart_trim.
  rewrite Ht in Htlf, Hte, Hts, Hhash.
  assert (Hkts : Js.trimStart (String c k) = String c k).
  { apply trimStart_None, stripWhiteSpace_None. intros w r Hw Heq.
    apply trimStart_fixed_iff in Hts. rewrite stripWhiteSpace_None in Hts.
    apply (Hts w (r ++ String "=" v) Hw). rewrite Heq. apply append_assoc. }
  rewrite hasChar_app in Htlf. apply orb_false_elim in Htlf as [Hklf Hvlf].
  cbn [hasChar] in Hvlf. apply orb_false_elim in Hvlf as [_ Hvlf].
  apply trimEnd_suffix in Hte. rewrite trimEnd_cons in Hte.
  revert Hte. destruct (Js.isEmpty (Js.trimStart (String "=" v))); [done|]. intros [= Hte].
  unfold plainEntry, plainKey, plainValue. cbn [fst snd].
  rewrite Hklf, Hk, Hvlf, Hkts.
  rewrite !bool_decide_true by done.
  rewrite append_cons in Hhash. cbn [Js.startsWithChar] in Hhash |- *.
  by rewrite Hhash.
Qed.

Lemma splitLines_no_LF (s : string) : Forall (fun x => hasChar Js.LF x = false) (Js.splitLines s).
Proof.
  induction s as [|c s IH]; cbn [Js.splitLines].
  - by constructor.
  - case_bool_decide as Hc.
    + by constructor.
    + destruct (Js.splitLines s) as [|h t].
      * constructor; [|constructor]. cbn [hasChar]. by rewrite bool_decide_false by congruence.
      * apply Forall_cons in IH as [Hh Ht]. constructor; [|done].
        cbn [hasChar]. rewrite Hh. by rewrite bool_decide_false by congruence.
Qed.

(** The loop over the lines is a spread of the entries the lines set. *)
Lemma fold_setEnvLine_spread (lines : list string) (x : list (string * string)) :
  fold_left setEnvLine lines x = Obj.spread x (omap parseEnvLine lines).
Proof.
  revert x. induction lines as [|line lines IH]; intros x; [done|].
  cbn [fold_left omap list_omap]. rewrite IH. unfold setEnvLine.
  by destruct (parseEnvLine line) as [[k v]|].
Qed.

Lemma parsed_plain (lines : list string) :
  Forall (fun x => hasChar Js.LF x = false) lines →
  Forall (fun kv => plainEntry kv = true) (omap parseEnvLine lines).
Proof.
  induction lines as [|line lines IH]; [constructor|].
  intros [Hl Hls]%Forall_cons. cbn [omap list_omap].
  destruct (parseEnvLine line) as [kv|] eqn:Hp; [|by apply IH].
  constructor; [by eapply parseEnvLine_plain | by apply IH].
Qed.

(** The entries of a text, in the order of its lines. *)
Lemma mergedEnvMap_spread (a b : string) :
  mergedEnvMap a b =
    Obj.spread [] (omap parseEnvLine (Js.splitLines a) ++ omap parseEnvLine (Js.splitLines b)).
Proof. unfold mergedEnvMap. by rewrite !fold_setEnvLine_spread, spread_app. Qed.

Lemma mergedEnvMap_NoDup (a b : string) : NoDup (Obj.keys (mergedEnvMap a b)).
Proof. rewrite mergedEnvMap_spread. apply NoDup_keys_spread. constructor. Qed.

Lemma mergedEnvMap_plain_entries (a b : string) :
  Forall (fun kv => plainEntry kv = true) (mergedEnvMap a b).
Proof.
  rewrite mergedEnvMap_spread. apply Forall_forall. intros kv Hin.
  apply elem_of_spread in Hin as [Hin|Hin]; [by apply elem_of_nil in Hin|].
  assert (Hall : Forall (fun kv => plainEntry kv = true)
                   (omap parseEnvLine (Js.splitLines a) ++ omap parseEnvLine (Js.splitLines b))).
  { apply Forall_app. split; apply parsed_plain, splitLines_no_LF. }
  by eapply Forall_forall in Hall.
Qed.

(** The lines of a merged text set the entries of the merge again. *)
Lemma reparse (m x : list (string * string)) :
  Forall (fun kv => plainEntry kv = true) m →
  fold_left setEnvLine (Js.splitLines (Js.joinLines (envLine <$> m))) x = Obj.spread x m.
Proof.
  intros Hall. destruct m as [|kv m]; [done|].
  rewrite splitLines_joinLines.
  - by apply fold_setEnvLine_plain.
  - by rewrite fmap_cons.
  - apply Forall_fmap. eapply Forall_impl; [exact Hall|]. intros y Hy. by apply envLine_no_LF.
Qed.

(** Two objects without repeated keys that list the same keys and read the
    same are one object. *)
Lemma obj_ext {V} (o1 o2 : list (string * V)) :
  NoDup (Obj.keys o1) → Obj.keys o1 = Obj.keys o2 →
  (∀ k, Obj.get k o1 = Obj.get k o2) → o1 = o2.
Proof.
  unfold Obj.keys. revert o2. induction o1 as [|[k1 v1] o1 IH]; intros [|[k2 v2] o2]; try done.
  rewrite !fmap_cons. intros [Hk Hnd]%NoDup_cons [= <- Hkeys] Hget.
  pose proof (Hget k1) as H1. cbn [Obj.get] in H1. rewrite !bool_decide_true in H1 by done.
  injection H1 as <-. f_equal. apply IH; [done..|].
  intros k. specialize (Hget k). cbn [Obj.get] in Hget.
  case_bool_decide as Hkk; [|done]. subst k.
  assert (H1 : Obj.get k1 o1 = None) by (by apply get_None_keys).
  assert (H2 : Obj.get k1 o2 = None) by (apply get_None_keys; unfold Obj.keys; by rewrite <- Hkeys).
  by rewrite H1, H2.
Qed.

Lemma keys_spread_present {V} (y e : list (string * V)) :
  (∀ k, k ∈ Obj.keys e → k ∈ Obj.keys y) → Obj.keys (Obj.spread y e) = Obj.keys y.
Proof.
  revert y. induction e as [|[k v] e IH]; intros y Hin; [done|].
  rewrite spread_cons.
  assert (Hk : k ∈ Obj.keys y) by (apply Hin; unfold Obj.keys; rewrite fmap_cons; apply elem_of_cons; by left).
  assert (Hset : Obj.keys (Obj.set k v y) = Obj.keys y) by (rewrite keys_set; by rewrite decide_True).
  rewrite IH; [done|]. intros k' Hk'. rewrite Hset. apply Hin.
  unfold Obj.keys. rewrite fmap_cons. apply elem_of_cons. by right.
Qed.

Lemma keys_spread_incl {V} (x e : list (string * V)) (k : string) :
  k ∈ Obj.keys e → k ∈ Obj.keys (Obj.spread x e).
Proof.
  intros Hin. destruct (Obj.get k (Obj.spread x e)) eqn:Hget.
  - apply dec_stable. intros Hn. apply get_None_keys in Hn. congruence.
  - exfalso. rewrite get_spread in Hget.
    destruct (Obj.get k (Obj.spread [] e)) eqn:He; [done|].
    apply get_None_keys in He. apply He. clear -Hin.
    induction e as [|[k' v'] e IH] using rev_ind; [done|].
    rewrite spread_snoc. apply elem_of_keys_set.
    unfold Obj.keys in Hin. rewrite fmap_app, elem_of_app in Hin.
    destruct Hin as [Hin|Hin]; [right; by apply IH|].
    left. rewrite fmap_cons in Hin. by apply list_elem_of_singleton in Hin.
Qed.

(** Spreading the same entries twice is spreading them once. *)
Lemma spread_idem {V} (x e : list (string * V)) :
  NoDup (Obj.keys x) → Obj.spread (Obj.spread x e) e = Obj.spread x e.
Proof.
  intros Hnd. apply obj_ext.
  - by do 2 apply NoDup_keys_spread.
  - apply keys_spread_present. intros k Hk. by apply keys_spread_incl.
  - intros k. rewrite (get_spread k (Obj.spread x e)), (get_spread k x).
    by destruct (Obj.get k (Obj.spread [] e)).
Qed.

(** X17.  A merged text is in normal form: merging it with the empty text,
    on either side, gives it back, and so does merging the additional text
    into it a second time. *)
Theorem merge_is_normal_form (a b : string) :
  mergeEnvironmentVariables (mergeEnvironmentVariables a b) "" = mergeEnvironmentVariables a b
  ∧ mergeEnvironmentVariables "" (mergeEnvironmentVariables a b) = mergeEnvironmentVariables a b
  ∧ mergeEnvironmentVariables (mergeEnvironmentVariables a b) b = mergeEnvironmentVariables a b.
Proof.
  pose proof (mergedEnvMap_NoDup a b) as Hnd.
  pose proof (mergedEnvMap_plain_entries a b) as Hplain.
  unfold mergeEnvironmentVariables.
  split_and!; f_equal; f_equal.
  - unfold mergedEnvMap at 1. rewrite reparse by done. by rewrite spread_nil_id.
  - unfold mergedEnvMap at 1. cbn [Js.splitLines fold_left].
    change (setEnvLine [] "") with (@nil (string * string)).
    rewrite reparse by done. by rewrite spread_nil_id.
  - unfold mergedEnvMap at 1. rewrite reparse by done. rewrite spread_nil_id by done.
    rewrite fold_setEnvLine_spread. unfold mergedEnvMap.
    rewrite !fold_setEnvLine_spread. apply spread_idem.
    apply NoDup_keys_spread. constructor.
Qed.

(** X18.  The merge is associative: merging three texts gives the same
    text whichever pair is merged first, so that a chain of merges has one
    entry per key, in the order in which the keys first occur, each with
    the value of its last occurrence. *)
Theorem merge_is_associative (a b c : string) :
  mergeEnvironmentVariables (mergeEnvironmentVariables a b) c =
    mergeEnvironmentVariables a (mergeEnvironmentVariables b c)
  ∧ mergedEnvMap (mergeEnvironmentVariables a b) c =
      Obj.spread []
        (omap parseEnvLine (Js.splitLines a) ++ omap parseEnvLine (Js.splitLines b)
           ++ omap parseEnvLine (Js.splitLines c)).
Proof.
  assert (Hleft : mergedEnvMap (mergeEnvironmentVariables a b) c =
            Obj.spread []
              (omap parseEnvLine (Js.splitLines a) ++ omap parseEnvLine (Js.splitLines b)
                 ++ omap parseEnvLine (Js.splitLines c))).
  { unfold mergeEnvironmentVariables. unfold mergedEnvMap at 1.
    rewrite reparse by apply mergedEnvMap_plain_entries.
    rewrite spread_nil_id by apply mergedEnvMap_NoDup.
    rewrite fold_setEnvLine_spread, mergedEnvMap_spread.
    by rewrite <- spread_app, <- app_assoc. }
  split; [|exact Hleft].
  unfold mergeEnvironmentVariables at 1 3. f_equal. f_equal. rewrite Hleft.
  unfold mergeEnvironmentVariables. unfold mergedEnvMap at 1.
  rewrite reparse by apply mergedEnvMap_plain_entries.
  rewrite fold_setEnvLine_spread, mergedEnvMap_spread.
  by rewrite spread_dedup, <- spread_app.
Qed.

(* ===================================================================== *)
(** ** [load()] after [save()] *)
(* ===================================================================== *)

Lemma stringItems_jstrings (l : list string) : stringItems (JStr <$> l) = l.
Proof.
  unfold stringItems. induction l as [|x l IH]; [done|].
  rewrite fmap_cons. cbn [omap list_omap asString]. by rewrite IH.
Qed.

(** A list of commands that the normalisation leaves as it is: every
    entry is trimmed and not empty. *)
Lemma normalizeCommandList_normal (value : option JValue) (fallback : list string) :
  Forall (fun x => Js.trim x = x ∧ x ≠ "") fallback →
  Forall (fun x => Js.trim x = x ∧ x ≠ "") (normalizeCommandList value fallback).
Proof.
  intros Hfb. destruct value as [[]|]; try done. cbn [normalizeCommandList].
  apply Forall_forall. intros x Hx. apply list_elem_of_filter in Hx as [Hne Hx].
  apply list_elem_of_fmap in Hx as (y & -> & _). split; [apply trim_idem|].
  by apply isEmpty_false.
Qed.

Lemma normalizeCommandList_fixed (l fallback : list string) :
  Forall (fun x => Js.trim x = x ∧ x ≠ "") l →
  normalizeCommandList (Some (jstrings l)) fallback = l.
Proof.
  intros Hl. unfold jstrings. cbn [normalizeCommandList]. rewrite stringItems_jstrings.
  induction l as [|x l IH]; [done|]. apply Forall_cons in Hl as [[Hx Hne] Hl].
  rewrite fmap_cons, Hx. rewrite filter_cons_True by (by apply isEmpty_false).
  by rewrite IH.
Qed.

Lemma normalizeBlockedCommands_fixed (defaults : PlatformBlockedCommands) (value : option JValue) :
  Forall (fun x => Js.trim x = x ∧ x ≠ "") (unix defaults) →
  Forall (fun x => Js.trim x = x ∧ x ≠ "") (windows defaults) →
  normalizeBlockedCommands defaults
    (Some (blockedCommandsJson (normalizeBlockedCommands defaults value))) =
  normalizeBlockedCommands defaults value.
Proof.
  intros Hu Hw.
  assert (Hnormal : Forall (fun x => Js.trim x = x ∧ x ≠ "")
                      (unix (normalizeBlockedCommands defaults value))
                    ∧ Forall (fun x => Js.trim x = x ∧ x ≠ "")
                        (windows (normalizeBlockedCommands defaults value))).
  { destruct value as [[]|]; cbn [normalizeBlockedCommands unix windows]; split; try done;
      by apply normalizeCommandList_normal. }
  destruct Hnormal as [Hnu Hnw].
  destruct (normalizeBlockedCommands defaults value) as [u w]. cbn [unix windows] in *.
  unfold blockedCommandsJson. cbn [normalizeBlockedCommands unix windows Obj.get].
  rewrite !bool_decide_true by done. rewrite bool_decide_false by done.
  rewrite bool_decide_true by done.
  by rewrite !normalizeCommandList_fixed.
Qed.

Lemma omap_cons {A B} (f : A → option B) (x : A) (l : list A) :
  omap f (x :: l) = match f x with Some y => y :: omap f l | None => omap f l end.
Proof. reflexivity. Qed.

Lemma hostnameCliPath_Some (kv kv' : string * JValue) :
  hostnameCliPath kv = Some kv' →
  ∃ s, kv.2 = JStr s ∧ kv' = (kv.1, JStr (Js.trim s)) ∧ Js.trim s ≠ "" ∧ kv.1 ≠ Js.PROTO.
Proof.
  unfold hostnameCliPath. destruct kv as [k v]. cbn [fst snd]. destruct v; try done.
  destruct (Js.isEmpty (Js.trim s)) eqn:He; [done|]. case_bool_decide as Hk; [done|].
  intros [= <-]. exists s. split_and!; try done. by apply isEmpty_false.
Qed.

Lemma hostnameCliPath_fixed (kv kv' : string * JValue) :
  hostnameCliPath kv = Some kv' → hostnameCliPath kv' = Some kv'.
Proof.
  intros (s & _ & -> & Hne & Hk)%hostnameCliPath_Some.
  unfold hostnameCliPath. cbn [fst snd]. rewrite trim_idem.
  apply isEmpty_false in Hne. rewrite Hne. by rewrite bool_decide_false.
Qed.

Lemma normalizeHostnameCliPaths_fixed (value : option JValue) :
  normalizeHostnameCliPaths (Some (JObj (normalizeHostnameCliPaths value))) =
  normalizeHostnameCliPaths value.
Proof.
  assert (Hfix : ∀ entries : JObject,
    omap hostnameCliPath (omap hostnameCliPath entries) = omap hostnameCliPath entries).
  { induction entries as [|kv entries IH]; [done|].
    rewrite omap_cons. destruct (hostnameCliPath kv) as [kv'|] eqn:Hkv; [|exact IH].
    rewrite omap_cons, (hostnameCliPath_fixed _ _ Hkv). by f_equal. }
  destruct value as [[]|]; try done; cbn [normalizeHostnameCliPaths ownEntries]; apply Hfix.
Qed.

Lemma keys_spread_prefix {V} (a b : list (string * V)) :
  ∃ n, Obj.keys (Obj.spread a b) = (Obj.keys a ++ n)%list ∧ ∀ k, k ∈ n → k ∈ Obj.keys b.
Proof.
  induction b as [|[k v] b IH] using rev_ind.
  - exists []. split; [by rewrite app_nil_r | intros k Hk; by apply elem_of_nil in Hk].
  - destruct IH as (n & Hn & Hsub). rewrite spread_snoc, keys_set.
    destruct (decide (k ∈ Obj.keys (Obj.spread a b))).
    + exists n. split; [done|]. intros k' Hk'. unfold Obj.keys. rewrite fmap_app, elem_of_app.
      left. by apply Hsub.
    + exists (n ++ [k])%list. split; [by rewrite Hn, app_assoc|].
      intros k' Hk'. unfold Obj.keys. rewrite fmap_app, elem_of_app.
      apply elem_of_app in Hk' as [Hk'|Hk']; [left; by apply Hsub | by right].
Qed.

Lemma keys_cons {V} (k : string) (v : V) (o : list (string * V)) :
  Obj.keys ((k, v) :: o) = k :: Obj.keys o.
Proof. reflexivity. Qed.

Lemma filter_ext_in {A} (P Q : A → Prop) `{∀ x, Decision (P x)} `{∀ x, Decision (Q x)}
    (l : list A) :
  (∀ x, x ∈ l → (P x ↔ Q x)) → filter P l = filter Q l.
Proof.
  induction l as [|x l IH]; [done|]. intros Hpq.
  rewrite !filter_cons.
  assert (Hx : P x ↔ Q x) by (apply Hpq; apply elem_of_cons; by left).
  assert (Hl : filter P l = filter Q l).
  { apply IH. intros y Hy. apply Hpq. apply elem_of_cons. by right. }
  destruct (decide (P x)), (decide (Q x)); try tauto; by rewrite Hl.
Qed.

Lemma keys_spread_NoDup {V} (a b : list (string * V)) :
  NoDup (Obj.keys b) →
  Obj.keys (Obj.spread a b) = (Obj.keys a ++ filter (fun k => k ∉ Obj.keys a) (Obj.keys b))%list.
Proof.
  revert a. induction b as [|[k v] b IH]; intros a Hnd.
  - by rewrite app_nil_r.
  - rewrite keys_cons in Hnd. apply NoDup_cons in Hnd as [Hk Hnd].
    rewrite spread_cons, (IH _ Hnd), keys_set, keys_cons.
    destruct (decide (k ∈ Obj.keys a)) as [Hin|Hnin].
    + rewrite filter_cons_False by tauto. done.
    + rewrite filter_cons_True by done. rewrite <- app_assoc. f_equal. simpl. f_equal.
      apply filter_ext_in. intros x Hx.
      rewrite elem_of_app, list_elem_of_singleton. split; [tauto|].
      intros Hxa [Hx1|Hx2]; [done | by subst x].
Qed.

Lemma keys_del {V} (k : string) (o : list (string * V)) :
  Obj.keys (Obj.del k o) = filter (fun k' => k' ≠ k) (Obj.keys o).
Proof.
  unfold Obj.keys, Obj.del. induction o as [|[k' v] o IH]; [done|].
  rewrite fmap_cons, !filter_cons. simpl.
  destruct (decide (k' ≠ k)); [rewrite fmap_cons|]; by rewrite IH.
Qed.

Lemma filter_none {A} (P : A → Prop) `{∀ x, Decision (P x)} (l : list A) :
  (∀ x, x ∈ l → ¬ P x) → filter P l = [].
Proof.
  induction l as [|x l IH]; [done|]. intros Hl.
  rewrite filter_cons_False by (apply Hl; apply elem_of_cons; by left).
  apply IH. intros y Hy. apply Hl. apply elem_of_cons. by right.
Qed.

Lemma filter_all {A} (P : A → Prop) `{∀ x, Decision (P x)} (l : list A) :
  (∀ x, x ∈ l → P x) → filter P l = l.
Proof.
  induction l as [|x l IH]; [done|]. intros Hl.
  rewrite filter_cons_True by (apply Hl; apply elem_of_cons; by left).
  f_equal. apply IH. intros y Hy. apply Hl. apply elem_of_cons. by right.
Qed.

(** Spreading a record over the defaults it was built on gives the
    record, also when the legacy key is taken out of it first. *)
Lemma respread (k0 : string) (d o : JObject) (n : list string) :
  NoDup (Obj.keys o) → Obj.keys o = (Obj.keys d ++ n)%list → k0 ∉ n →
  Obj.get k0 o = Obj.get k0 d →
  Obj.spread d (Obj.del k0 o) = o.
Proof.
  intros Hnd Hkeys Hk0 Hget0.
  assert (Hndd : NoDup (Obj.keys d)).
  { rewrite Hkeys in Hnd. by apply NoDup_app in Hnd as (? & _). }
  assert (Hdis : ∀ k, k ∈ n → k ∉ Obj.keys d).
  { rewrite Hkeys in Hnd. apply NoDup_app in Hnd as (_ & Hdis & _).
    intros k Hk Hd. by apply (Hdis k). }
  symmetry. apply obj_ext; [done| |].
  - rewrite keys_spread_NoDup by (by apply NoDup_keys_del).
    rewrite keys_del, Hkeys, list_filter_filter, filter_app.
    rewrite filter_none by (intros x Hx [Hin _]; done).
    rewrite filter_all; [done|].
    intros x Hx. split; [by apply Hdis|]. intros ->. done.
  - intros k. rewrite get_spread_NoDup by (by apply NoDup_keys_del).
    destruct (decide (k = k0)) as [->|Hne].
    + by rewrite get_del_eq.
    + rewrite get_del_ne by done. destruct (Obj.get k o) eqn:Hko; [done|].
      apply get_None_keys in Hko. rewrite Hkeys, not_elem_of_app in Hko.
      symmetry. apply get_None_keys. tauto.
Qed.

Lemma loadedSettings_keys (cfg : Config) (stored : JValue) :
  ∃ n, Obj.keys (loadedSettings cfg stored) = (Obj.keys (getDefaults cfg) ++ n)%list
       ∧ "activeConversationId" ∉ n.
Proof.
  unfold loadedSettings. cbv zeta.
  set (s' := Obj.del "activeConversationId" (ownEntries stored)).
  set (t := [("blockedCommands", _); ("claudeCliPath", _); ("claudeCliPathsByHost", _)]).
  destruct (keys_spread_prefix (getDefaults cfg) s') as (n1 & Hn1 & Hsub1).
  destruct (keys_spread_prefix (Obj.spread (getDefaults cfg) s') t) as (n2 & Hn2 & Hsub2).
  exists (n1 ++ n2)%list. split; [by rewrite Hn2, Hn1, app_assoc|].
  rewrite not_elem_of_app. split.
  - intros Hin. apply Hsub1 in Hin. unfold s' in Hin. rewrite keys_del in Hin.
    apply list_elem_of_filter in Hin as [? _]. done.
  - intros Hin. apply Hsub2 in Hin. unfold t, Obj.keys in Hin. simpl in Hin.
    rewrite !elem_of_cons in Hin. destruct Hin as [?|[?|[?|Hin]]]; try done.
    by apply elem_of_nil in Hin.
Qed.

Lemma loadedSettings_legacy_key (cfg : Config) (stored : JValue) :
  Obj.get "activeConversationId" (loadedSettings cfg stored) =
    Obj.get "activeConversationId" (getDefaults cfg).
Proof.
  unfold loadedSettings. cbv zeta. rewrite get_spread.
  cbn [Obj.spread fold_left fst snd]. rewrite !get_set_ne by done.
  cbn [Obj.get]. rewrite get_spread.
  rewrite spread_get_None; [done | apply get_del_eq | done].
Qed.

(** What [load()] builds from a stored value is built again from itself. *)
Lemma loadedSettings_fixed (cfg : Config) (stored : JValue) :
  NoDup (Obj.keys (DEFAULT_SETTINGS cfg)) →
  Forall (fun x => Js.trim x = x ∧ x ≠ "") (unix (defaultBlockedCommands cfg)) →
  Forall (fun x => Js.trim x = x ∧ x ≠ "") (windows (defaultBlockedCommands cfg)) →
  loadedSettings cfg (JObj (loadedSettings cfg stored)) = loadedSettings cfg stored.
Proof.
  intros Hnd Hu Hw.
  pose proof (NoDup_loadedSettings cfg stored Hnd) as Hndl.
  destruct (loadedSettings_keys cfg stored) as (n & Hkeys & Hn).
  pose proof (loadedSettings_legacy_key cfg stored) as Hlegacy.
  assert (Hfields :
    prop "blockedCommands" (JObj (loadedSettings cfg stored)) =
      Some (blockedCommandsJson
              (normalizeBlockedCommands (defaultBlockedCommands cfg) (prop "blockedCommands" stored)))
    ∧ prop "claudeCliPath" (JObj (loadedSettings cfg stored)) =
        Some (JStr match prop "claudeCliPath" stored with Some (JStr p) => p | _ => "" end)
    ∧ prop "claudeCliPathsByHost" (JObj (loadedSettings cfg stored)) =
        Some (JObj (normalizeHostnameCliPaths (prop "claudeCliPathsByHost" stored)))).
  { cbn [prop]. unfold loadedSettings. cbv zeta.
    split_and!; rewrite get_spread; cbn [Obj.spread fold_left fst snd].
    - rewrite !get_set_ne by done. by rewrite get_set_eq.
    - rewrite get_set_ne by done. by rewrite get_set_eq.
    - by rewrite get_set_eq. }
  destruct Hfields as (Hbc & Hcli & Hhost).
  unfold loadedSettings at 1. cbv zeta. rewrite Hbc, Hcli, Hhost.
  rewrite normalizeBlockedCommands_fixed by done.
  rewrite normalizeHostnameCliPaths_fixed.
  cbn [ownEntries].
  rewrite (respread "activeConversationId" (getDefaults cfg) (loadedSettings cfg stored) n)
    by done.
  unfold loadedSettings. cbv zeta. apply spread_idem.
  apply NoDup_keys_spread. by apply NoDup_getDefaults.
Qed.

(** X19.  Settings survive a save and a load: when the settings file
    exists, saving the record that [load()] returned and loading again
    returns the same record (the default lists of blocked commands being
    trimmed and free of empty entries, as the normalisation leaves every
    list). *)
Theorem load_after_save_is_stable (cfg : Config) (s s1 s2 : Vault) (current : JObject) :
  NoDup (Obj.keys (DEFAULT_SETTINGS cfg)) →
  Forall (fun x => Js.trim x = x ∧ x ≠ "") (unix (defaultBlockedCommands cfg)) →
  Forall (fun x => Js.trim x = x ∧ x ≠ "") (windows (defaultBlockedCommands cfg)) →
  loseWrite cfg CLAUDIAN_SETTINGS_PATH = false →
  is_Some (files s !! CLAUDIAN_SETTINGS_PATH) →
  claudianLoad cfg s = Ok current s1 →
  claudianSave cfg current s1 = Ok tt s2 →
  ∃ s3, claudianLoad cfg s2 = Ok current s3.
Proof.
  intros Hnd Hu Hw Hlose [c Hc] Hload Hsave.
  rewrite claudianLoad_value, Hc in Hload.
  assert (Hcur : ∃ stored, current = loadedSettings cfg stored).
  { destruct c as [[]|]; simplify_eq; by eexists. }
  destruct Hcur as (stored & ->).
  unfold claudianSave, adapterWrite in Hsave. rewrite Hlose in Hsave.
  destruct (failWrite cfg CLAUDIAN_SETTINGS_PATH); [done|]. injection Hsave as <-.
  rewrite claudianLoad_value. cbn [files record withFiles]. rewrite lookup_insert_eq.
  eexists. by rewrite loadedSettings_fixed.
Qed.

Lemma load_after_save_is_stable_witness :
  ∃ s3,
    claudianLoad Example.reliable
      (stateOf (claudianSave Example.reliable
                  (loadedSettings Example.reliable Example.keptSettings)
                  (stateOf (claudianLoad Example.reliable Example.keptVault)))) =
    Ok (loadedSettings Example.reliable Example.keptSettings) s3.
Proof.
  apply (load_after_save_is_stable Example.reliable Example.keptVault
           (stateOf (claudianLoad Example.reliable Example.keptVault))).
  - exact NoDup_example_defaults.
  - repeat (constructor; [split; [reflexivity | discriminate]|]). constructor.
  - repeat (constructor; [split; [reflexivity | discriminate]|]). constructor.
  - reflexivity.
  - eexists. reflexivity.
  - reflexivity.
  - reflexivity.
Defined.

Lemma normalizeHostnameCliPaths_values (value : option JValue) :
  Forall (fun kv : string * JValue => ∃ p, kv.2 = JStr p ∧ Js.trim p = p ∧ p ≠ "")
    (normalizeHostnameCliPaths value).
Proof.
  assert (Hall : ∀ entries : JObject,
    Forall (fun kv : string * JValue => ∃ p, kv.2 = JStr p ∧ Js.trim p = p ∧ p ≠ "")
      (omap hostnameCliPath entries)).
  { induction entries as [|kv entries IH]; [constructor|].
    rewrite omap_cons. destruct (hostnameCliPath kv) as [kv'|] eqn:Hkv; [|exact IH].
    constructor; [|exact IH].
    apply hostnameCliPath_Some in Hkv as (s & _ & -> & Hne & _).
    exists (Js.trim s). split_and!; [done | apply trim_idem | done]. }
  destruct value as [[]|]; try constructor; apply Hall.
Qed.

(** X20.  [load()] returns a record in normal form whenever it reads a
    file: every key of the defaults is defined; [claudeCliPath] is a string;
    [claudeCliPathsByHost] is an object whose values are strings that are
    trimmed and not empty; [blockedCommands] is the platform-keyed record
    of two lists of trimmed, non-empty commands; and no key occurs twice. *)
Theorem load_returns_normal_form (cfg : Config) (s s' : Vault) (loaded : JObject) :
  NoDup (Obj.keys (DEFAULT_SETTINGS cfg)) →
  Forall (fun x => Js.trim x = x ∧ x ≠ "") (unix (defaultBlockedCommands cfg)) →
  Forall (fun x => Js.trim x = x ∧ x ≠ "") (windows (defaultBlockedCommands cfg)) →
  is_Some (files s !! CLAUDIAN_SETTINGS_PATH) →
  claudianLoad cfg s = Ok loaded s' →
  (∀ k, is_Some (Obj.get k (getDefaults cfg)) → is_Some (Obj.get k loaded))
  ∧ (∃ p, Obj.get "claudeCliPath" loaded = Some (JStr p))
  ∧ (∃ byHost, Obj.get "claudeCliPathsByHost" loaded = Some (JObj byHost)
       ∧ Forall (fun kv : string * JValue => ∃ p, kv.2 = JStr p ∧ Js.trim p = p ∧ p ≠ "") byHost)
  ∧ (∃ blocked, Obj.get "blockedCommands" loaded = Some (blockedCommandsJson blocked)
       ∧ Forall (fun x => Js.trim x = x ∧ x ≠ "") (unix blocked)
       ∧ Forall (fun x => Js.trim x = x ∧ x ≠ "") (windows blocked))
  ∧ NoDup (Obj.keys loaded).
Proof.
  intros Hnd Hu Hw [c Hc] Hload.
  pose proof (claudianLoad_NoDup _ _ _ _ Hnd Hload) as Hndl.
  rewrite claudianLoad_value, Hc in Hload.
  assert (Hcur : ∃ stored, loaded = loadedSettings cfg stored).
  { destruct c as [[]|]; simplify_eq; by eexists. }
  destruct Hcur as (stored & ->).
  assert (Hfields :
    Obj.get "blockedCommands" (loadedSettings cfg stored) =
      Some (blockedCommandsJson
              (normalizeBlockedCommands (defaultBlockedCommands cfg) (prop "blockedCommands" stored)))
    ∧ Obj.get "claudeCliPath" (loadedSettings cfg stored) =
        Some (JStr match prop "claudeCliPath" stored with Some (JStr p) => p | _ => "" end)
    ∧ Obj.get "claudeCliPathsByHost" (loadedSettings cfg stored) =
        Some (JObj (normalizeHostnameCliPaths (prop "claudeCliPathsByHost" stored)))).
  { unfold loadedSettings. cbv zeta.
    split_and!; rewrite get_spread; cbn [Obj.spread fold_left fst snd].
    - rewrite !get_set_ne by done. by rewrite get_set_eq.
    - rewrite get_set_ne by done. by rewrite get_set_eq.
    - by rewrite get_set_eq. }
  destruct Hfields as (Hbc & Hcli & Hhost).
  split_and!.
  - intros k Hk. unfold loadedSettings. by do 2 apply get_spread_is_Some.
  - by eexists.
  - eexists. split; [exact Hhost|]. apply normalizeHostnameCliPaths_values.
  - eexists. split; [exact Hbc|].
    destruct (prop "blockedCommands" stored) as [[]|];
      cbn [normalizeBlockedCommands unix windows]; split; try done;
      by apply normalizeCommandList_normal.
  - done.
Qed.

Lemma load_returns_normal_form_witness :
  ∃ byHost,
    Obj.get "claudeCliPathsByHost"
      (loadedSettings Example.reliable
         (JObj [("claudeCliPathsByHost", JObj [("laptop", JStr " /usr/bin/claude "); ("old", JStr " ")])])) =
      Some (JObj byHost)
    ∧ Forall (fun kv : string * JValue => ∃ p, kv.2 = JStr p ∧ Js.trim p = p ∧ p ≠ "") byHost.
Proof.
  refine (proj1 (proj2 (proj2 (load_returns_normal_form Example.reliable
            (Example.vault
               [(CLAUDIAN_SETTINGS_PATH,
                 Json (JObj [("claudeCliPathsByHost",
                              JObj [("laptop", JStr " /usr/bin/claude "); ("old", JStr " ")])]))]
               None) _ _ _ _ _ _ _)))).
  - exact NoDup_example_defaults.
  - repeat (constructor; [split; [reflexivity | discriminate]|]). constructor.
  - repeat (constructor; [split; [reflexivity | discriminate]|]). constructor.
  - eexists. reflexivity.
  - reflexivity.
Defined.

(* ===================================================================== *)
(** ** Models named by the environment *)
(* ===================================================================== *)

Ltac settle_models :=
  repeat first
    [ progress cbn [fold_left Env.addModel Obj.get Obj.set fst snd Env.types Env.infoLabel
                    Env.sortDescending Env.insertDescending Env.maxPriority Env.typePriority
                    fmap list_fmap foldr Nat.max Nat.ltb Nat.leb head Env.value app
                    existsb orb option_fmap option_map]
    | case_bool_decide; simplify_eq ].

Ltac by_variables envVars :=
  unfold Env.getModelsFromEnvironment, Env.getCurrentModelFromEnvironment, Env.modelEnvEntries;
  cbv zeta; unfold Env.addModel; cbn [fold_left fst snd];
  destruct (Env.truthyVar envVars Env.ANTHROPIC_MODEL) as [?a|];
  destruct (Env.truthyVar envVars Env.ANTHROPIC_DEFAULT_OPUS_MODEL) as [?b|];
  destruct (Env.truthyVar envVars Env.ANTHROPIC_DEFAULT_SONNET_MODEL) as [?c|];
  destruct (Env.truthyVar envVars Env.ANTHROPIC_DEFAULT_HAIKU_MODEL) as [?d|];
  settle_models.

(** X21.  The list of custom models and the current model agree: the
    first entry of [getModelsFromEnvironment] is the model that
    [getCurrentModelFromEnvironment] returns (and the list is empty exactly
    when that is [null]), so [getPreferredCustomModel] returns the current
    model of the environment; the list names each model once, and names
    exactly the values of the four variables that are set. *)
Theorem first_custom_model_is_current (envVars : list (string * string)) :
  Env.value <$> head (Env.getModelsFromEnvironment envVars) =
    Env.getCurrentModelFromEnvironment envVars
  ∧ (∀ m, Env.getCurrentModelFromEnvironment envVars = Some m →
          Main.getPreferredCustomModel envVars (Env.getModelsFromEnvironment envVars) = Some m)
  ∧ NoDup (Env.value <$> Env.getModelsFromEnvironment envVars)
  ∧ (∀ m, m ∈ Env.value <$> Env.getModelsFromEnvironment envVars ↔
          Some m ∈ [ Env.truthyVar envVars Env.ANTHROPIC_MODEL;
                     Env.truthyVar envVars Env.ANTHROPIC_DEFAULT_OPUS_MODEL;
                     Env.truthyVar envVars Env.ANTHROPIC_DEFAULT_SONNET_MODEL;
                     Env.truthyVar envVars Env.ANTHROPIC_DEFAULT_HAIKU_MODEL ]).
Proof.
  split_and!.
  - by_variables envVars; reflexivity.
  - intros m. unfold Main.getPreferredCustomModel. by_variables envVars; done.
  - by_variables envVars;
      repeat (apply NoDup_cons; split; [rewrite ?not_elem_of_cons; split_and?; try done; apply not_elem_of_nil|]);
      apply NoDup_nil; done.
  - intros m. by_variables envVars; rewrite ?elem_of_cons, ?elem_of_nil;
      split; intros Hm; repeat (destruct Hm as [Hm|Hm]); simplify_eq; auto 10.
Qed.

(* ===================================================================== *)
(** ** The plugin: environment hash, images and time stamps *)
(* ===================================================================== *)

Lemma hasSession_clearSession (c : Main.Conversation) :
  Main.hasSession (Main.clearSession c) = false.
Proof. reflexivity. Qed.

(** X22.  [reconcileModelWithEnvironment] is idempotent: a second call
    with the same environment text reports no change, invalidates no
    conversation and leaves the settings and the conversations as the first
    call left them.  A call that reports a change has stored the hash of
    the environment under [lastEnvHash] and left no conversation with a
    session; a call that reports none has changed nothing. *)
Theorem reconcile_is_idempotent (defaultModel envText : string) (settings : JObject)
    (conversations : list Main.Conversation) :
  Main.reconcileModelWithEnvironment defaultModel envText
    (Main.settingsAfter (Main.reconcileModelWithEnvironment defaultModel envText settings conversations))
    (Main.conversationsAfter (Main.reconcileModelWithEnvironment defaultModel envText settings conversations)) =
    {| Main.changed := false;
       Main.invalidatedConversations := [];
       Main.settingsAfter :=
         Main.settingsAfter (Main.reconcileModelWithEnvironment defaultModel envText settings conversations);
       Main.conversationsAfter :=
         Main.conversationsAfter (Main.reconcileModelWithEnvironment defaultModel envText settings conversations) |}
  ∧ (Main.changed (Main.reconcileModelWithEnvironment defaultModel envText settings conversations) = true →
       Obj.get "lastEnvHash"
         (Main.settingsAfter (Main.reconcileModelWithEnvironment defaultModel envText settings conversations)) =
         Some (JStr (Main.computeEnvHash envText))
       ∧ Forall (fun c => Main.hasSession c = false)
           (Main.conversationsAfter
              (Main.reconcileModelWithEnvironment defaultModel envText settings conversations)))
  ∧ (Main.changed (Main.reconcileModelWithEnvironment defaultModel envText settings conversations) = false →
       Main.settingsAfter (Main.reconcileModelWithEnvironment defaultModel envText settings conversations) =
         settings
       ∧ Main.conversationsAfter
           (Main.reconcileModelWithEnvironment defaultModel envText settings conversations) =
           conversations).
Proof.
  unfold Main.reconcileModelWithEnvironment at 2 3 4 5 6 7 8 9 10 11. cbv zeta.
  set (h := Main.computeEnvHash envText).
  destruct (match match Obj.get "lastEnvHash" settings with
                  | Some v => if truthy v then v else JStr ""
                  | None => JStr ""
                  end with
            | JStr saved => bool_decide (h = saved)
            | _ => false
            end) eqn:Hsame.
  - cbn [Main.settingsAfter Main.conversationsAfter Main.changed].
    split_and!; [|done|done].
    unfold Main.reconcileModelWithEnvironment. cbv zeta. fold h. by rewrite Hsame.
  - cbn [Main.settingsAfter Main.conversationsAfter Main.changed].
    split_and!; [| |done].
    + unfold Main.reconcileModelWithEnvironment. cbv zeta. fold h.
      rewrite get_set_eq. cbn [truthy].
      assert (Hh : match (if negb (Js.isEmpty h) then JStr h else JStr "") with
                   | JStr saved => bool_decide (h = saved)
                   | _ => false
                   end = true).
      { destruct h; cbn [Js.isEmpty negb]; by apply bool_decide_eq_true. }
      by rewrite Hh.
    + intros _. split; [apply get_set_eq|].
      apply Forall_fmap, Forall_forall. intros c _. simpl.
      destruct (Main.hasSession c) eqn:Hc; [reflexivity | exact Hc].
Qed.

Lemma setAdd_fold_elem (items acc : list string) (p : string) :
  p ∈ fold_left Main.setAdd items acc ↔ p ∈ acc ∨ p ∈ items.
Proof.
  revert acc. induction items as [|x items IH]; intros acc; cbn [fold_left].
  - rewrite elem_of_nil. tauto.
  - rewrite IH, elem_of_cons. unfold Main.setAdd. case_bool_decide as Hx.
    + split; [tauto|]. intros [?|[->|?]]; auto.
    + rewrite elem_of_app, list_elem_of_singleton. tauto.
Qed.

Lemma setAdd_fold_NoDup (items acc : list string) :
  NoDup acc → NoDup (fold_left Main.setAdd items acc).
Proof.
  revert acc. induction items as [|x items IH]; intros acc Hnd; cbn [fold_left]; [done|].
  apply IH. unfold Main.setAdd. case_bool_decide as Hx; [done|].
  apply NoDup_app. split_and!; [done | | by apply NoDup_singleton].
  intros y Hy Hy'. apply list_elem_of_singleton in Hy' as ->. done.
Qed.

Lemma inUse_inner (paths : list string) (items acc : list string) (p : string) :
  p ∈ fold_left (fun inUse' q => if bool_decide (q ∈ paths) then Main.setAdd inUse' q else inUse')
        items acc ↔
  p ∈ acc ∨ (p ∈ items ∧ p ∈ paths).
Proof.
  revert acc. induction items as [|x items IH]; intros acc; cbn [fold_left].
  - rewrite elem_of_nil. tauto.
  - rewrite IH, elem_of_cons. case_bool_decide as Hx.
    + unfold Main.setAdd. case_bool_decide as Hin.
      * split; [tauto|]. intros [?|[[->|?] ?]]; auto.
      * rewrite elem_of_app, list_elem_of_singleton. split.
        -- intros [[?| ->]|[? ?]]; auto.
        -- intros [?|[[->|?] ?]]; auto.
    + split; [tauto|]. intros [?|[[->|?] ?]]; auto. done.
Qed.

Lemma inUse_outer (paths : list string) (self : string) (convs : list Main.Conversation)
    (acc : list string) (p : string) :
  p ∈ fold_left
        (fun inUse conv =>
           if bool_decide (Main.id conv = self) then inUse
           else fold_left
                  (fun inUse' q => if bool_decide (q ∈ paths) then Main.setAdd inUse' q else inUse')
                  (Main.imagePaths conv) inUse)
        convs acc ↔
  p ∈ acc ∨ ∃ conv, conv ∈ convs ∧ Main.id conv ≠ self ∧ p ∈ Main.imagePaths conv ∧ p ∈ paths.
Proof.
  revert acc. induction convs as [|c convs IH]; intros acc; cbn [fold_left].
  - split; [by left|]. intros [?|(conv & Hin & _)]; [done | by apply elem_of_nil in Hin].
  - rewrite IH. case_bool_decide as Hid.
    + split.
      * intros [?|(conv & Hin & Hrest)]; [by left|]. right. exists conv.
        split; [apply elem_of_cons; by right | done].
      * intros [?|(conv & Hin & Hne & Hrest)]; [by left|]. right. exists conv.
        apply elem_of_cons in Hin as [->|Hin]; [done|]. done.
    + rewrite inUse_inner. split.
      * intros [[?|[? ?]]|(conv & Hin & Hrest)]; [by left | |].
        -- right. exists c. split; [apply elem_of_cons; by left | done].
        -- right. exists conv. split; [apply elem_of_cons; by right | done].
      * intros [?|(conv & Hin & Hne & Hp & Hpaths)]; [left; by left|].
        apply elem_of_cons in Hin as [->|Hin]; [left; right; done|].
        right. by exists conv.
Qed.

(** X23.  Deleting a conversation never deletes an image that another
    conversation uses: the paths that [cleanupConversationImages] hands to
    [deleteCachedImages] are exactly the cache paths of the images of the
    conversation that no conversation with another identifier uses, each
    once. *)
Theorem cleanup_spares_shared_images (conversations : list Main.Conversation)
    (conversation : Main.Conversation) :
  (∀ p, p ∈ Main.cleanupConversationImages conversations conversation ↔
        p ∈ Main.imagePaths conversation
        ∧ ∀ conv, conv ∈ conversations → Main.id conv ≠ Main.id conversation →
                  p ∉ Main.imagePaths conv)
  ∧ NoDup (Main.cleanupConversationImages conversations conversation).
Proof.
  unfold Main.cleanupConversationImages. cbv zeta. split.
  - intros p. rewrite list_elem_of_filter, inUse_outer, setAdd_fold_elem.
    rewrite elem_of_nil. split.
    + intros [Hnot [?|Hp]]; [done|]. split; [done|].
      intros conv Hin Hne Hpc. apply Hnot. right. exists conv. split_and!; try done.
      apply setAdd_fold_elem. by right.
    + intros [Hp Hnone]. split; [|by right].
      intros [?|(conv & Hin & Hne & Hpc & _)]; [done|]. by apply (Hnone conv).
  - apply NoDup_filter, setAdd_fold_NoDup. constructor.
Qed.

Lemma backfill_again (conv : Main.Conversation) :
  Main.backfill (Main.backfill conv).1 = ((Main.backfill conv).1, false).
Proof.
  unfold Main.backfill. destruct (Main.lastResponseAt conv) eqn:Hl.
  - cbn [fst]. by rewrite Hl.
  - destruct (Main.lastAssistantTimestamp (Main.messages conv)) eqn:Ht; cbn [fst].
    + done.
    + by rewrite Hl, Ht.
Qed.

(** X24.  [backfillConversationResponseTimestamps] is idempotent and
    touches only what lacks a time stamp: a second run updates nothing and
    leaves the conversations as the first run left them; a conversation
    that has [lastResponseAt] is not changed; and every conversation the
    run reports as updated carries the time stamp of the last message of
    the assistant. *)
Theorem backfill_is_idempotent (conversations : list Main.Conversation) :
  Main.backfillConversationResponseTimestamps
    (Main.backfillConversationResponseTimestamps conversations).1 =
    ((Main.backfillConversationResponseTimestamps conversations).1, [])
  ∧ (∀ conv, is_Some (Main.lastResponseAt conv) → Main.backfill conv = (conv, false))
  ∧ (∀ conv, conv ∈ (Main.backfillConversationResponseTimestamps conversations).2 →
       ∃ original, original ∈ conversations
         ∧ Main.lastResponseAt original = None
         ∧ Main.id conv = Main.id original
         ∧ Main.messages conv = Main.messages original
         ∧ is_Some (Main.lastResponseAt conv)
         ∧ Main.lastResponseAt conv = Main.lastAssistantTimestamp (Main.messages original)).
Proof.
  split_and!.
  - unfold Main.backfillConversationResponseTimestamps. cbn [fst].
    induction conversations as [|c l IH]; [done|].
    rewrite !fmap_cons. injection IH as IH1 IH2.
    f_equal.
    + rewrite backfill_again. cbn [fst]. f_equal. exact IH1.
    + rewrite backfill_again. rewrite filter_cons_False by (simpl; congruence). exact IH2.
  - intros conv [t Ht]. unfold Main.backfill. by rewrite Ht.
  - intros conv Hin. unfold Main.backfillConversationResponseTimestamps in Hin. cbn [snd] in Hin.
    apply list_elem_of_fmap in Hin as ([c updated] & -> & Hin).
    apply list_elem_of_filter in Hin as [Hup Hin]. simpl in Hup. subst updated.
    apply list_elem_of_fmap in Hin as (original & Hback & Hin).
    exists original. split; [done|]. unfold Main.backfill in Hback.
    destruct (Main.lastResponseAt original) eqn:Hl; [by simplify_eq|].
    destruct (Main.lastAssistantTimestamp (Main.messages original)) eqn:Ht; [|by simplify_eq].
    simplify_eq. cbn. split_and!; by try done.
Qed.

(* ===================================================================== *)
(** ** The merged text as the plugin reads it *)
(* ===================================================================== *)

Lemma trim_envLine (kv : string * string) :
  plainEntry kv = true → Js.trim (envLine kv) = envLine kv.
Proof.
  destruct kv as [k v]. unfold plainEntry, plainKey, plainValue, envLine. simpl.
  rewrite !andb_true_iff, !negb_true_iff, !bool_decide_eq_true.
  intros [((((Hne & Hlf) & Heq) & Hts) & Hhash) [Hvlf Hte]].
  unfold Js.trim. change ("=" ++ v) with (String "=" v).
  rewrite trimStart_app_sep by done. by apply trimEnd_app_sep.
Qed.

Lemma dropLastCR_trimmed (s : string) : Js.trimEnd s = s → Env.dropLastCR s = s.
Proof.
  induction s as [|c s IH]; [done|]. intros Hs.
  destruct s as [|d s]; cbn [Env.dropLastCR].
  - case_bool_decide as Hc; [|done]. subst c. exfalso. vm_compute in Hs. discriminate Hs.
  - f_equal. apply IH. by apply (trimEnd_suffix (String c "")).
Qed.

Lemma withoutSeparators_trimmed (l : list string) :
  Forall (fun x => Js.trimEnd x = x) l → Env.withoutSeparators l = l.
Proof.
  induction l as [|x l IH]; [done|]. intros [Hx Hl]%Forall_cons.
  cbn [Env.withoutSeparators]. destruct l as [|y l]; [done|].
  rewrite IH by done. by rewrite dropLastCR_trimmed.
Qed.

(** The line that spells a plain entry, as [parseEnvironmentVariables]
    reads it: the name trimmed, the value trimmed and unquoted. *)
Lemma parseLine_envLine (kv : string * string) :
  plainEntry kv = true →
  Env.parseLine (envLine kv) = Some (Js.trim kv.1, Env.unquote (Js.trim kv.2)).
Proof.
  intros Hplain. unfold Env.parseLine. cbv zeta. rewrite trim_envLine by done.
  destruct kv as [k v]. revert Hplain. unfold plainEntry, plainKey, plainValue, envLine. simpl.
  rewrite !andb_true_iff, !negb_true_iff, !bool_decide_eq_true.
  intros [((((Hne & Hlf) & Heq) & Hts) & Hhash) [Hvlf Hte]].
  destruct k as [|c k]; [done|].
  assert (Hempty : Js.isEmpty (String c k ++ "=" ++ v) = false) by done.
  rewrite Hempty. simpl in Hhash.
  assert (Hstart : Js.startsWithChar "#" (String c k ++ "=" ++ v) = false) by done.
  rewrite Hstart. cbn [orb].
  change ("=" ++ v) with (String "=" v).
  rewrite indexOf_app by done. cbn [String.length].
  change (S (String.length k)) with (String.length (String c k)).
  rewrite sliceTo_app, sliceFrom_app.
  assert (Hkey : Js.isEmpty (Js.trim (String c k)) = false).
  { unfold Js.trim. rewrite Hts, trimEnd_cons, Hts. done. }
  by rewrite Hkey.
Qed.

Lemma fold_setLine_plain (entries : list (string * string)) (x : list (string * string)) :
  Forall (fun kv => plainEntry kv = true) entries →
  fold_left Env.setLine (envLine <$> entries) x =
    Obj.spread x
      (Obj.del Js.PROTO ((fun kv => (Js.trim kv.1, Env.unquote (Js.trim kv.2))) <$> entries)).
Proof.
  revert x. induction entries as [|kv entries IH]; intros x Hall; [done|].
  apply Forall_cons in Hall as [Hkv Hall]. rewrite !fmap_cons. cbn [fold_left].
  rewrite IH by done. unfold Env.setLine. rewrite parseLine_envLine by done.
  unfold Obj.del. rewrite filter_cons. cbn [fst].
  case_bool_decide as Hk.
  - by rewrite decide_False by (by intros Hne).
  - by rewrite decide_True by done.
Qed.

(** X25.  What the merge stores is what the plugin reads: for every entry
    of a merged text, [parseEnvironmentVariables] reads under the name of
    the entry its value, trimmed and without surrounding quotes, provided
    that no name in the text is followed by white space before its equals
    sign; only under the name [__proto__] it reads nothing, because the
    assignment to that name stores nothing. *)
Theorem merged_text_is_read_back (a b k v : string) :
  Forall (fun kv : string * string => Js.trimEnd kv.1 = kv.1) (mergedEnvMap a b) →
  (k, v) ∈ mergedEnvMap a b →
  Obj.get k (Env.parseEnvironmentVariables (mergeEnvironmentVariables a b)) =
    if bool_decide (k = Js.PROTO) then None else Some (Env.unquote (Js.trim v)).
Proof.
  intros Hkeys Hin.
  pose proof (mergedEnvMap_NoDup a b) as Hnd.
  pose proof (mergedEnvMap_plain_entries a b) as Hplain.
  unfold Env.parseEnvironmentVariables, Env.splitLineBreaks, mergeEnvironmentVariables.
  set (m := mergedEnvMap a b) in *.
  assert (Hne : m ≠ []) by (intros Hm; rewrite Hm in Hin; by apply elem_of_nil in Hin).
  rewrite splitLines_joinLines.
  2:{ destruct m; [done | by rewrite fmap_cons]. }
  2:{ apply Forall_fmap. eapply Forall_impl; [exact Hplain|]. intros y Hy. by apply envLine_no_LF. }
  rewrite withoutSeparators_trimmed.
  2:{ apply Forall_fmap. eapply Forall_impl; [exact Hplain|]. intros y Hy. simpl.
      by apply trimEnd_of_trim, trim_envLine. }
  rewrite fold_setLine_plain by done.
  assert (Hmap : (fun kv : string * string => (Js.trim kv.1, Env.unquote (Js.trim kv.2))) <$> m =
                 (fun kv : string * string => (kv.1, Env.unquote (Js.trim kv.2))) <$> m).
  { apply list_fmap_ext. intros i kv Hi. f_equal.
    assert (Hplain_kv : plainEntry kv = true).
    { eapply Forall_forall in Hplain; [done | by eapply list_elem_of_lookup_2]. }
    assert (Hkey : Js.trimEnd kv.1 = kv.1).
    { eapply Forall_forall in Hkeys; [done | by eapply list_elem_of_lookup_2]. }
    unfold Js.trim. unfold plainEntry, plainKey in Hplain_kv.
    rewrite !andb_true_iff, !bool_decide_eq_true in Hplain_kv.
    destruct Hplain_kv as [(((_ & _) & Hts) & _) _]. by rewrite Hts. }
  rewrite Hmap.
  case_bool_decide as Hk.
  - subst k. apply spread_get_None; [apply get_del_eq | done].
  - apply spread_get_elem.
    + apply NoDup_keys_del. unfold Obj.keys in *. rewrite <- list_fmap_compose.
      replace (fst ∘ (fun kv : string * string => (kv.1, Env.unquote (Js.trim kv.2)))) with
        (@fst string string) by done. done.
    + unfold Obj.del. apply list_elem_of_filter. split; [done|].
      apply list_elem_of_fmap. by exists (k, v).
Qed.

Lemma merged_text_is_read_back_witness :
  Obj.get "API_KEY"
    (Env.parseEnvironmentVariables
       (mergeEnvironmentVariables
          (Example.twoLines "# keys" ("API_KEY=old"))
          ("API_KEY= " ++ Example.quote ++ "new" ++ Example.quote))) =
  Some "new".
Proof.
  refine (merged_text_is_read_back
            (Example.twoLines "# keys" ("API_KEY=old"))
            ("API_KEY= " ++ Example.quote ++ "new" ++ Example.quote)
            "API_KEY" (" " ++ Example.quote ++ "new" ++ Example.quote) _ _).
  - vm_compute. repeat constructor.
  - vm_compute. apply elem_of_cons. by left.
Defined.

(** A line that names [__proto__] is merged like any other and read as no
    variable at all. *)
Lemma proto_line_is_not_read :
  mergeEnvironmentVariables "" "__proto__=x" = "__proto__=x"
  ∧ Env.parseEnvironmentVariables "__proto__=x" = [].
Proof. split; vm_compute; reflexivity. Qed.

(* ===================================================================== *)
(** ** The end of a session *)
(* ===================================================================== *)

(** X26.  Approvals for the session end with the session, approvals for
    good do not: after [clearSessionApprovals] a tool call is approved
    beforehand exactly when a permanent approval covers it; approving for
    the session and clearing leaves the manager as clearing alone; and an
    approval that the call-back has stored still holds after clearing. *)
Theorem clearing_revokes_session_approvals {H} (names : Approval.ToolNames)
    (stringify : JValue → string) (m : @Approval.ApprovalManager H) (h : H) :
  (∀ tool input,
      Approval.isActionApproved names stringify (Approval.clearSessionApprovals m) h tool input =
        Some true ↔
      ∃ pat action,
        Approval.getActionPattern names stringify tool input = Some pat
        ∧ action ∈ Approval.getPermanentApprovals m h
        ∧ Approval.toolName action = tool
        ∧ Approval.matchesPattern names tool pat (Approval.pattern action) = true)
  ∧ (∀ now tool input m' r,
        Approval.approveAction names stringify now m h tool input Approval.session = Some (m', r) →
        Approval.clearSessionApprovals m' = Approval.clearSessionApprovals m
        ∧ r = Approval.Fulfilled h)
  ∧ (∀ now tool input m' r,
        Approval.approveAction names stringify now m h tool input Approval.always = Some (m', r) →
        Persists m →
        Approval.isActionApproved names stringify (Approval.clearSessionApprovals m')
          (Approval.hostOf r) tool input = Some true).
Proof.
  split_and!.
  - intros tool input. rewrite isActionApproved_spec.
    destruct (Approval.getActionPattern names stringify tool input) as [pat|]; cycle 1.
    { split; [done | by intros (? & ? & ? & _)]. }
    cbn [Approval.clearSessionApprovals Approval.sessionApprovedActions
         Approval.getPermanentApprovals app].
    split.
    + intros Hv. injection Hv as Hv. apply existsb_elem in Hv as (action & Hin & Hby).
      unfold Approval.approvedBy in Hby. apply andb_true_iff in Hby as [Hname Hmatch].
      apply bool_decide_eq_true in Hname.
      exists pat, action. by split_and!.
    + intros (pat' & action & Hpat & Hin & Hname & Hmatch). injection Hpat as <-.
      f_equal. apply existsb_elem. exists action. split; [done|].
      unfold Approval.approvedBy. apply andb_true_iff. split; [by apply bool_decide_eq_true | done].
  - intros now tool input m' r. unfold Approval.approveAction.
    destruct (Approval.getActionPattern names stringify tool input); [|done].
    intros Heq. by injection Heq as <- <-.
  - intros now tool input m' r Happrove Hpersists.
    unfold Approval.approveAction in Happrove. rewrite isActionApproved_spec.
    destruct (Approval.getActionPattern names stringify tool input) as [pat|] eqn:Hpat; [|done].
    destruct Hpersists as (callback & Hcb & Hstored). rewrite Hcb in Happrove.
    injection Happrove as <- <-.
    cbn [Approval.clearSessionApprovals Approval.sessionApprovedActions
         Approval.getPermanentApprovals app].
    f_equal. apply existsb_elem. eexists. split; [apply Hstored|].
    apply approvedBy_own.
Qed.

(* ===================================================================== *)
(** ** The hash of the environment *)
(* ===================================================================== *)

Lemma bar_split (x y s t : string) :
  hasChar "|" x = false → hasChar "|" y = false →
  x ++ String "|" s = y ++ String "|" t → x = y ∧ s = t.
Proof.
  revert y. induction x as [|c x IH]; intros [|d y]; unfold_append; cbn [hasChar].
  - intros _ _ Heq. by injection Heq as ->.
  - intros _ Hy Heq. injection Heq as <- _. by rewrite bool_decide_true in Hy.
  - intros Hx _ Heq. injection Heq as -> _. by rewrite bool_decide_true in Hx.
  - intros Hx Hy Heq. injection Heq as -> Heq.
    apply orb_false_elim in Hx as [_ Hx]. apply orb_false_elim in Hy as [_ Hy].
    destruct (IH y Hx Hy Heq) as [-> ->]. done.
Qed.

Lemma joinBar_cons (x : string) (l : list string) :
  l ≠ [] → Main.joinBar (x :: l) = x ++ String "|" (Main.joinBar l).
Proof. destruct l; [done | reflexivity]. Qed.

Lemma hasChar_joinBar (l : list string) :
  l ≠ [] → Forall (fun x => x ≠ "") l → Main.joinBar l ≠ "".
Proof.
  destruct l as [|x l]; [done|]. intros _ Hne. apply Forall_cons in Hne as [Hx _].
  destruct l; [done|]. cbn [Main.joinBar]. destruct x; [done | discriminate].
Qed.

(** A list of pieces that are not empty and hold no bar is read off the
    text that joins them. *)
Lemma joinBar_inj (l1 l2 : list string) :
  Forall (fun x => x ≠ "" ∧ hasChar "|" x = false) l1 →
  Forall (fun x => x ≠ "" ∧ hasChar "|" x = false) l2 →
  Main.joinBar l1 = Main.joinBar l2 → l1 = l2.
Proof.
  revert l2. induction l1 as [|x l1 IH]; intros l2 H1 H2 Heq.
  - destruct l2 as [|y l2]; [done|]. exfalso.
    apply Forall_cons in H2 as [[Hy _] H2].
    destruct l2; cbn [Main.joinBar] in Heq; [by subst y|].
    destruct y; [done | discriminate Heq].
  - apply Forall_cons in H1 as [[Hx Hxb] H1].
    destruct l2 as [|y l2].
    { exfalso. destruct l1; cbn [Main.joinBar] in Heq; [by subst x|].
      destruct x; [done | discriminate Heq]. }
    apply Forall_cons in H2 as [[Hy Hyb] H2].
    destruct l1 as [|x' l1], l2 as [|y' l2].
    + cbn [Main.joinBar] in Heq. by subst.
    + exfalso. rewrite (joinBar_cons y) in Heq by done. change (Main.joinBar [x]) with x in Heq.
      rewrite Heq, hasChar_app in Hxb. cbn [hasChar] in Hxb.
      rewrite bool_decide_true in Hxb by done. by rewrite orb_true_r in Hxb.
    + exfalso. rewrite (joinBar_cons x) in Heq by done. change (Main.joinBar [y]) with y in Heq.
      rewrite <- Heq, hasChar_app in Hyb. cbn [hasChar] in Hyb.
      rewrite bool_decide_true in Hyb by done. by rewrite orb_true_r in Hyb.
    + rewrite (joinBar_cons x), (joinBar_cons y) in Heq by done.
      apply bar_split in Heq as [-> Heq]; [|done..].
      f_equal. by apply IH.
Qed.

Lemma insertString_Permutation (x : string) (l : list string) :
  Main.insertString x l ≡ₚ x :: l.
Proof.
  induction l as [|y l IH]; cbn [Main.insertString]; [done|].
  destruct (Main.stringLt x y); [done|]. rewrite IH. apply Permutation_swap.
Qed.

Lemma sortStrings_Permutation (l : list string) : Main.sortStrings l ≡ₚ l.
Proof.
  unfold Main.sortStrings.
  assert (Hgen : ∀ acc, fold_left (fun sorted x => Main.insertString x sorted) l acc ≡ₚ acc ++ l).
  { induction l as [|x l IH]; intros acc; cbn [fold_left].
    - by rewrite app_nil_r.
    - rewrite IH, insertString_Permutation. cbn [app]. apply Permutation_middle. }
  apply Hgen.
Qed.

Lemma elem_of_hashPairs (envVars : list (string * string)) (s : string) :
  s ∈ hashPairs envVars ↔
    ∃ k v, k ∈ Main.HASH_KEYS ∧ Env.truthyVar envVars k = Some v ∧ s = k ++ "=" ++ v.
Proof.
  unfold hashPairs. rewrite list_elem_of_omap. split.
  - intros (k & Hk & Hs). destruct (Env.truthyVar envVars k) as [v|] eqn:Hv; [|done].
    injection Hs as <-. by exists k, v.
  - intros (k & v & Hk & Hv & ->). exists k. by rewrite Hv.
Qed.

Lemma hashPair_inj (k k' v v' : string) :
  k ∈ Main.HASH_KEYS → k' ∈ Main.HASH_KEYS →
  k ++ "=" ++ v = k' ++ "=" ++ v' → k = k' ∧ v = v'.
Proof.
  unfold Main.HASH_KEYS. rewrite !elem_of_cons, !elem_of_nil.
  intros [->|[->|[->|[->|[->|[]]]]]] [->|[->|[->|[->|[->|[]]]]]] Heq;
    vm_compute in Heq; try discriminate Heq;
    (split; [reflexivity | by injection Heq]).
Qed.

Lemma hashPairs_plain (envVars : list (string * string)) :
  (∀ k v, k ∈ Main.HASH_KEYS → Env.truthyVar envVars k = Some v → hasChar "|" v = false) →
  Forall (fun x => x ≠ "" ∧ hasChar "|" x = false) (hashPairs envVars).
Proof.
  intros Hplain. apply Forall_forall. intros s Hs.
  apply elem_of_hashPairs in Hs as (k & v & Hk & Hv & ->).
  pose proof (Hplain k v Hk Hv) as Hbar. split.
  - unfold Main.HASH_KEYS in Hk. rewrite !elem_of_cons, elem_of_nil in Hk.
    destruct Hk as [->|[->|[->|[->|[->|[]]]]]]; discriminate.
  - rewrite !hasChar_app, Hbar. cbn [hasChar].
    unfold Main.HASH_KEYS in Hk. rewrite !elem_of_cons, elem_of_nil in Hk.
    destruct Hk as [->|[->|[->|[->|[->|[]]]]]]; reflexivity.
Qed.

Lemma hashPairs_determine (env1 env2 : list (string * string)) :
  (∀ s, s ∈ hashPairs env1 → s ∈ hashPairs env2) →
  ∀ k v, k ∈ Main.HASH_KEYS → Env.truthyVar env1 k = Some v → Env.truthyVar env2 k = Some v.
Proof.
  intros Hsub k v Hk Hv.
  assert (Hin : k ++ "=" ++ v ∈ hashPairs env1) by (apply elem_of_hashPairs; by exists k, v).
  apply Hsub, elem_of_hashPairs in Hin as (k' & v' & Hk' & Hv' & Heq).
  apply hashPair_inj in Heq as [-> ->]; done.
Qed.

(** X27.  The hash of the environment detects every change of the model
    variables and of the base address: provided that none of their values
    holds a vertical bar, two texts have the same hash exactly when each of
    the five variables is set to the same value in both, or is unset or
    empty in both. *)
Theorem envHash_detects_changes (text1 text2 : string) :
  (∀ k v, k ∈ Main.HASH_KEYS →
          Env.truthyVar (Env.parseEnvironmentVariables text1) k = Some v → hasChar "|" v = false) →
  (∀ k v, k ∈ Main.HASH_KEYS →
          Env.truthyVar (Env.parseEnvironmentVariables text2) k = Some v → hasChar "|" v = false) →
  Main.computeEnvHash text1 = Main.computeEnvHash text2 ↔
    ∀ k, k ∈ Main.HASH_KEYS →
         Env.truthyVar (Env.parseEnvironmentVariables text1) k =
           Env.truthyVar (Env.parseEnvironmentVariables text2) k.
Proof.
  intros Hplain1 Hplain2.
  set (env1 := Env.parseEnvironmentVariables text1) in *.
  set (env2 := Env.parseEnvironmentVariables text2) in *.
  change (Main.computeEnvHash text1) with (Main.joinBar (Main.sortStrings (hashPairs env1))).
  change (Main.computeEnvHash text2) with (Main.joinBar (Main.sortStrings (hashPairs env2))).
  split.
  - intros Heq. apply joinBar_inj in Heq; cycle 1.
    { rewrite sortStrings_Permutation. by apply hashPairs_plain. }
    { rewrite sortStrings_Permutation. by apply hashPairs_plain. }
    assert (Hperm : hashPairs env1 ≡ₚ hashPairs env2).
    { by rewrite <- (sortStrings_Permutation (hashPairs env1)), Heq, sortStrings_Permutation. }
    intros k Hk.
    destruct (Env.truthyVar env1 k) as [v|] eqn:Hv1.
    + symmetry. apply (hashPairs_determine env1 env2); [|done..].
      intros s. by rewrite Hperm.
    + destruct (Env.truthyVar env2 k) as [v|] eqn:Hv2; [|done].
      rewrite <- Hv1. apply (hashPairs_determine env2 env1); [|done..].
      intros s. by rewrite Hperm.
  - intros Hsame. do 2 f_equal. unfold hashPairs.
    apply list_omap_ext, Forall_Forall2_diag, Forall_forall.
    intros k Hk. by rewrite (Hsame k Hk).
Qed.

Lemma envHash_detects_changes_witness :
  Main.computeEnvHash "ANTHROPIC_MODEL=glm-4" = Main.computeEnvHash "ANTHROPIC_MODEL=glm-5" ↔
    ∀ k, k ∈ Main.HASH_KEYS →
         Env.truthyVar (Env.parseEnvironmentVariables "ANTHROPIC_MODEL=glm-4") k =
           Env.truthyVar (Env.parseEnvironmentVariables "ANTHROPIC_MODEL=glm-5") k.
Proof.
  refine (envHash_detects_changes "ANTHROPIC_MODEL=glm-4" "ANTHROPIC_MODEL=glm-5" _ _).
  - intros k v Hk. unfold Main.HASH_KEYS in Hk. rewrite !elem_of_cons, elem_of_nil in Hk.
    destruct Hk as [->|[->|[->|[->|[->|[]]]]]]; vm_compute; intros Hv;
      try discriminate Hv; by injection Hv as <-.
  - intros k v Hk. unfold Main.HASH_KEYS in Hk. rewrite !elem_of_cons, elem_of_nil in Hk.
    destruct Hk as [->|[->|[->|[->|[->|[]]]]]]; vm_compute; intros Hv;
      try discriminate Hv; by injection Hv as <-.
Defined.

(** The proviso is needed: a base address that holds a bar and the name of
    a variable hashes like the address and the variable apart. *)
Lemma envHash_bar_collision :
  Main.computeEnvHash (Js.joinLines ["ANTHROPIC_BASE_URL=u|ANTHROPIC_MODEL=m"]) =
    Main.computeEnvHash (Js.joinLines ["ANTHROPIC_BASE_URL=u"; "ANTHROPIC_MODEL=m"]).
Proof. vm_compute. reflexivity. Qed.
